(** * Federation consistency engine of the social-network backend

    A shallow embedding of the parts of [backend/app] that carry the
    engine's invariants:
    - [utils/url_utils.py]: [normalize_author_url], over a model of
      [urllib.parse.urlparse], and [parse_uuid_from_url];
    - [models/follow.py], [models/friendship.py], [models/utils.py]:
      the follow and friendship tables and the signal handlers that
      keep them in step;
    - [models/entry.py], [views/entry.py]: the visibility filter of
      [EntryManager], the read check of [get_object], and the fan-out
      of an entry to the remote authors;
    - [models/like.py]: the [Like] table with its constraints;
    - [views/author.py], [serializers/inbox.py]: the resolvers of
      authors and entries, the inbox endpoint and the undo handlers;
    - [views/follow.py]: the accept and reject views over the
      queryset of the view set;
    - [models/utils.py], [views/entry.py]: the paged stream, the like
      queries and the home feed;
    - [utils/url_utils.py]: the percent-encoding, [is_valid_url],
      [get_base_host] and [normalize_url].

    Tables are lists of rows.  A write that the database refuses
    raises, and the table is left as it was; the exceptions that the
    source catches are caught where the source catches them. *)

From Stdlib Require Import List String Ascii Bool Arith NArith ZArith Lia.
From Stdlib Require Import DecimalString DecimalN.
Import ListNotations.
Open Scope string_scope.
Open Scope list_scope.

(** ** Exceptions and results *)

Inductive exn : Type :=
| IntegrityError (constraint : string)
| DoesNotExist
| MultipleObjectsReturned
| ValueError (msg : string)
| RequestException (msg : string).

Inductive result (A : Type) : Type :=
| Ok (a : A)
| Raise (e : exn).
Arguments Ok {A} a.
Arguments Raise {A} e.

Definition bind {A B : Type} (r : result A) (k : A -> result B) : result B :=
  match r with
  | Ok a => k a
  | Raise e => Raise e
  end.

Notation "x <- r ;; k" := (bind r (fun x => k))
  (at level 61, r at next level, right associativity).

(** ** Python [str] operations used by the URL code

    A [str] is a list of characters.  The model is that of ASCII
    text: case conversion leaves the characters above 127 as they
    are. *)

Module PyStr.

Definition str : Type := list ascii.

Definition is_upper (c : ascii) : bool := Ascii.leb "A" c && Ascii.leb c "Z".
Definition is_lower (c : ascii) : bool := Ascii.leb "a" c && Ascii.leb c "z".
Definition is_alpha (c : ascii) : bool := is_upper c || is_lower c.
Definition is_digit (c : ascii) : bool := Ascii.leb "0" c && Ascii.leb c "9".

Definition lower_char (c : ascii) : ascii :=
  if is_upper c then ascii_of_N (N_of_ascii c + 32) else c.

(** [s.lower()]. *)
Definition lower (s : str) : str := map lower_char s.

(** Cut [s] in front of the first character that satisfies [p]. *)
Fixpoint break (p : ascii -> bool) (s : str) : str * str :=
  match s with
  | [] => ([], [])
  | c :: t =>
      if p c then ([], s)
      else let '(a, b) := break p t in (c :: a, b)
  end.

(** [sep in s]. *)
Definition contains (sep : ascii) (s : str) : bool := existsb (Ascii.eqb sep) s.

(** [s.partition(sep)]: the separator is reported as a flag. *)
Definition partition (sep : ascii) (s : str) : str * bool * str :=
  match break (Ascii.eqb sep) s with
  | (a, _ :: b) => (a, true, b)
  | (_, []) => (s, false, [])
  end.

(** [s.rpartition(sep)]. *)
Definition rpartition (sep : ascii) (s : str) : str * bool * str :=
  match break (Ascii.eqb sep) (List.rev s) with
  | (a, _ :: b) => (List.rev b, true, List.rev a)
  | (_, []) => ([], false, s)
  end.

(** [s.rstrip(c)]. *)
Fixpoint rstrip (c : ascii) (s : str) : str :=
  match s with
  | [] => []
  | x :: t =>
      match rstrip c t with
      | [] => if Ascii.eqb x c then [] else [x]
      | r => x :: r
      end
  end.

(** [s.lstrip(chars)] for a set of characters given as a predicate. *)
Fixpoint lstrip (p : ascii -> bool) (s : str) : str :=
  match s with
  | [] => []
  | c :: t => if p c then lstrip p t else s
  end.

Fixpoint str_eqb (s t : str) : bool :=
  match s, t with
  | [], [] => true
  | c :: s', d :: t' => Ascii.eqb c d && str_eqb s' t'
  | _, _ => false
  end.

(** A string literal as a [str]. *)
Definition lit (s : string) : str := list_ascii_of_string s.

End PyStr.

(** ** urllib.parse: [urlparse] and the accessors of its result

    The standard library's parser on [str], for the text the
    repository passes to it.  A bracketed host is taken as written:
    its content is not checked to be an IP literal. *)

Module UrlLib.
Import PyStr.

Record ParseResult : Type := mkParseResult {
  scheme : str;
  netloc : str;
  path : str;
  params : str;
  query : str;
  fragment : str
}.

(** [_WHATWG_C0_CONTROL_OR_SPACE]. *)
Definition c0_control_or_space (c : ascii) : bool := Ascii.leb c " ".

(** [_UNSAFE_URL_BYTES_TO_REMOVE]: tab, carriage return, newline. *)
Definition unsafe_byte (c : ascii) : bool :=
  Ascii.eqb c "009" || Ascii.eqb c "013" || Ascii.eqb c "010".

(** [scheme_chars]. *)
Definition scheme_char (c : ascii) : bool :=
  is_alpha c || is_digit c || Ascii.eqb c "+" || Ascii.eqb c "-" || Ascii.eqb c ".".

(** The scheme, when the text before the first colon is one. *)
Definition split_scheme (url : str) : str * str :=
  match break (Ascii.eqb ":") url with
  | (c :: pre, _ :: rest) =>
      if is_alpha c && forallb scheme_char (c :: pre)
      then (lower (c :: pre), rest)
      else ([], url)
  | _ => ([], url)
  end.

(** The characters that end the network location. *)
Definition netloc_delim (c : ascii) : bool :=
  Ascii.eqb c "/" || Ascii.eqb c "?" || Ascii.eqb c "#".

Definition bracket_mismatch (netloc : str) : bool :=
  (contains "[" netloc && negb (contains "]" netloc))
  || (contains "]" netloc && negb (contains "[" netloc)).

(** [//netloc] at the head of what follows the scheme. *)
Definition split_netloc (url : str) : result (str * str) :=
  match url with
  | "/"%char :: "/"%char :: rest =>
      let '(netloc, url') := break netloc_delim rest in
      if bracket_mismatch netloc then Raise (ValueError "Invalid IPv6 URL")
      else Ok (netloc, url')
  | _ => Ok ([], url)
  end.

(** [url.split(sep, 1)] when [sep in url], else no second part. *)
Definition split_once (sep : ascii) (url : str) : str * str :=
  match partition sep url with
  | (a, true, b) => (a, b)
  | (_, false, _) => (url, [])
  end.

(** [uses_params]. *)
Definition uses_params : list string :=
  [""; "ftp"; "hdl"; "prospero"; "http"; "imap"; "https"; "shttp"; "rtsp";
   "rtspu"; "sip"; "sips"; "mms"; "sftp"; "tel"].

Definition in_uses_params (scheme : str) : bool :=
  existsb (fun s => str_eqb scheme (lit s)) uses_params.

(** [_splitparams]: the parameters of the last path segment. *)
Definition _splitparams (url : str) : str * str :=
  match rpartition "/" url with
  | (dir, true, seg) =>
      match partition ";" seg with
      | (a, true, b) => (dir ++ "/"%char :: a, b)
      | (_, false, _) => (url, [])
      end
  | (_, false, _) =>
      match partition ";" url with
      | (a, true, b) => (a, b)
      | (_, false, _) => (url, [])
      end
  end.

(** [urlparse(url)]. *)
Definition urlparse (url : str) : result ParseResult :=
  let url := lstrip c0_control_or_space url in
  let url := filter (fun c => negb (unsafe_byte c)) url in
  let '(scheme, url) := split_scheme url in
  nu <- split_netloc url ;;
  let '(netloc, url) := nu in
  let '(url, fragment) := split_once "#" url in
  let '(url, query) := split_once "?" url in
  let '(url, params) :=
    if in_uses_params scheme && contains ";" url then _splitparams url
    else (url, []) in
  Ok (mkParseResult scheme netloc url params query fragment).

(** [_userinfo]. *)
Definition _userinfo (p : ParseResult) : option str * option str :=
  match rpartition "@" (netloc p) with
  | (userinfo, true, _) =>
      match partition ":" userinfo with
      | (username, true, password) => (Some username, Some password)
      | (username, false, _) => (Some username, None)
      end
  | (_, false, _) => (None, None)
  end.

Definition username (p : ParseResult) : option str := fst (_userinfo p).
Definition password (p : ParseResult) : option str := snd (_userinfo p).

(** [_hostinfo]. *)
Definition _hostinfo (p : ParseResult) : str * option str :=
  let '(_, _, hostinfo) := rpartition "@" (netloc p) in
  let '(_, have_open_br, bracketed) := partition "[" hostinfo in
  let '(hostname, port) :=
    if have_open_br then
      let '(hostname, _, port) := partition "]" bracketed in
      let '(_, _, port) := partition ":" port in
      (hostname, port)
    else
      let '(hostname, _, port) := partition ":" hostinfo in
      (hostname, port) in
  (hostname, match port with [] => None | _ => Some port end).

(** [hostname]: lower-cased up to the zone of a scoped address. *)
Definition hostname (p : ParseResult) : option str :=
  match fst (_hostinfo p) with
  | [] => None
  | h =>
      let '(h, percent, zone) := partition "%" h in
      Some (lower h ++ (if percent then "%"%char :: zone else []))
  end.

(** [int(port)] for a string of ASCII digits. *)
Definition int_of_digits (s : str) : option N :=
  option_map N.of_uint (NilEmpty.uint_of_string (string_of_list_ascii s)).

(** [str(n)] for a natural number. *)
Definition digits_of_int (n : N) : str :=
  list_ascii_of_string (NilEmpty.string_of_uint (N.to_uint n)).

(** [port]. *)
Definition port (p : ParseResult) : result (option N) :=
  match snd (_hostinfo p) with
  | None => Ok None
  | Some s =>
      match int_of_digits s with
      | None => Raise (ValueError "Port could not be cast to integer value")
      | Some n =>
          if (n <=? 65535)%N then Ok (Some n)
          else Raise (ValueError "Port out of range 0-65535")
      end
  end.

(** A scheme as [urlsplit] returns it: a letter first, scheme
    characters only, in lower case. *)
Definition valid_scheme (s : str) : Prop :=
  exists c pre, s = c :: pre /\ is_alpha c = true
                /\ forallb scheme_char s = true /\ lower s = s.

End UrlLib.

(** ** utils/url_utils.py *)

Module UrlUtils.
Import PyStr UrlLib.

Definition truthy_str (o : option str) : bool :=
  match o with
  | Some (_ :: _) => true
  | _ => false
  end.

Definition or_empty (o : option str) : str :=
  match o with Some s => s | None => [] end.

(** The port that stays in the normalized URL. *)
Definition kept_port (scheme : str) (port : option N) : option N :=
  match port with
  | Some n =>
      if negb (n =? 0)%N
         && ((str_eqb scheme (lit "http") && (n =? 80)%N)
             || (str_eqb scheme (lit "https") && (n =? 443)%N))
      then None else port
  | None => None
  end.

(** The network location put back together: host, kept port, then
    the credentials in front when a user name is there. *)
Definition assemble_netloc (hostname : str) (port : option N)
           (username password : option str) : str :=
  let netloc :=
    match port with
    | Some n => if (n =? 0)%N then hostname
                else hostname ++ ":"%char :: digits_of_int n
    | None => hostname
    end in
  if truthy_str username then
    if truthy_str password then
      or_empty username ++ ":"%char :: or_empty password ++ "@"%char :: netloc
    else or_empty username ++ "@"%char :: netloc
  else netloc.

(** The URL put back together; query and fragment only when they
    are not empty. *)
Definition assemble (scheme netloc path query fragment : str) : str :=
  let normalized := scheme ++ lit "://" ++ netloc ++ path in
  let normalized :=
    match query with
    | [] => normalized
    | _ => normalized ++ "?"%char :: query
    end in
  match fragment with
  | [] => normalized
  | _ => normalized ++ "#"%char :: fragment
  end.

Definition normalized_hostname (parsed : ParseResult) : str :=
  match hostname parsed with Some h => lower h | None => [] end.

(** [normalize_author_url] on a [str]. *)
Definition normalize (url : str) : result str :=
  match url with
  | [] => Ok url
  | _ =>
      parsed <- urlparse url ;;
      let scheme := lower (scheme parsed) in
      let hostname := normalized_hostname parsed in
      port <- port parsed ;;
      let port := kept_port scheme port in
      let netloc :=
        assemble_netloc hostname port (username parsed) (password parsed) in
      let path := rstrip "/" (path parsed) in
      Ok (assemble scheme netloc path (query parsed) (fragment parsed))
  end.

(** The port that appears in the assembled network location. *)
Definition shown_port (port : option N) : option N :=
  match port with
  | Some n => if (n =? 0)%N then None else Some n
  | None => None
  end.

(** The URLs on which the normalizer is a projection: a scheme, no
    bracketed host, a path that is empty or starts at the root, and,
    once the trailing slashes are gone, no parameters left in the
    last path segment. *)
Definition regular (url : str) : Prop :=
  exists p,
    urlparse url = Ok p
    /\ scheme p <> []
    /\ contains "[" (netloc p) = false
    /\ (path p = [] \/ exists r, path p = "/"%char :: r)
    /\ (in_uses_params (scheme p) && contains ";" (rstrip "/" (path p)) = true ->
        _splitparams (rstrip "/" (path p)) = (rstrip "/" (path p), [])).

(** [normalize_author_url(url)]. *)
Definition normalize_author_url (url : string) : result string :=
  s <- normalize (list_ascii_of_string url) ;;
  Ok (string_of_list_ascii s).

End UrlUtils.

(** ** models/follow.py, models/friendship.py, models/utils.py *)

Module Models.

(** [Follow.STATUS_CHOICES]. *)
Inductive FollowStatus : Type := REQUESTING | ACCEPTED | REJECTED.

Definition status_eqb (s t : FollowStatus) : bool :=
  match s, t with
  | REQUESTING, REQUESTING | ACCEPTED, ACCEPTED | REJECTED, REJECTED => true
  | _, _ => false
  end.

(** A [Follow] row.  Both foreign keys point at [Author.url]. *)
Record Follow : Type := mkFollow {
  follower : string;
  followed : string;
  status : FollowStatus
}.

(** A [Friendship] row. *)
Record Friendship : Type := mkFriendship {
  author1 : string;
  author2 : string
}.

Record DB : Type := mkDB {
  follows : list Follow;
  friendships : list Friendship
}.

Definition empty_db : DB := mkDB [] [].

(** [Follow.objects.filter(follower=a, followed=b)]. *)
Definition follow_between (a b : string) (f : Follow) : bool :=
  (follower f =? a) && (followed f =? b).

(** [Follow.objects.filter(follower=a, followed=b, status=ACCEPTED).exists()]. *)
Definition follows_accepted (fs : list Follow) (a b : string) : bool :=
  existsb (fun f => follow_between a b f && status_eqb (status f) ACCEPTED) fs.

Definition friendship_is (a b : string) (fr : Friendship) : bool :=
  (author1 fr =? a) && (author2 fr =? b).

(** [Q(author1=a, author2=b) | Q(author1=b, author2=a)]. *)
Definition friendship_either (a b : string) (fr : Friendship) : bool :=
  friendship_is a b fr || friendship_is b a fr.

(** The INSERT behind [Friendship.objects.create]: the
    [no_self_friendship] check and the [unique_together] index are
    enforced by the database. *)
Definition Friendship_insert (frs : list Friendship) (a1 a2 : string)
  : result (list Friendship) :=
  if a1 =? a2 then Raise (IntegrityError "no_self_friendship")
  else if existsb (friendship_is a1 a2) frs
       then Raise (IntegrityError "unique_together")
       else Ok (mkFriendship a1 a2 :: frs).

(** [Friendship.objects.get_or_create(author1=a1, author2=a2)]. *)
Definition Friendship_get_or_create (frs : list Friendship) (a1 a2 : string)
  : result (list Friendship) :=
  match filter (friendship_is a1 a2) frs with
  | [] => Friendship_insert frs a1 a2
  | [_] => Ok frs
  | _ :: _ :: _ => Raise MultipleObjectsReturned
  end.

(** [Friendship.update_friendships(author1, author2)]. *)
Definition update_friendships (db : DB) (author1 author2 : string) : result DB :=
  let follows_1_to_2 := follows_accepted (follows db) author1 author2 in
  let follows_2_to_1 := follows_accepted (follows db) author2 author1 in
  if follows_1_to_2 && follows_2_to_1 then
    let '(a1, a2) :=
      if String.ltb author1 author2 then (author1, author2)
      else (author2, author1) in
    frs <- Friendship_get_or_create (friendships db) a1 a2 ;;
    Ok (mkDB (follows db) frs)
  else
    Ok (mkDB (follows db)
             (filter (fun fr => negb (friendship_either author1 author2 fr))
                     (friendships db))).

(** [@receiver(post_save, sender=Follow)]. *)
Definition update_friendship_on_follow_save (db : DB) (instance : Follow)
  : result DB :=
  if status_eqb (status instance) ACCEPTED
  then update_friendships db (follower instance) (followed instance)
  else Ok db.

(** [@receiver(post_delete, sender=Follow)]. *)
Definition update_friendship_on_follow_delete (db : DB) (instance : Follow)
  : result DB :=
  update_friendships db (follower instance) (followed instance).

(** Outcome of a write on [Follow]: the row is written before the
    signal is sent, so a handler that raises leaves the row in place
    and the friendship table as it was. *)
Record Outcome : Type := mkOutcome {
  after : DB;
  raised : option exn
}.

Definition signalled (db : DB) (r : result DB) : Outcome :=
  match r with
  | Ok db' => mkOutcome db' None
  | Raise e => mkOutcome db (Some e)
  end.

(** [Follow.objects.create(follower=, followed=, status=)]. *)
Definition Follow_create (db : DB) (f : Follow) : Outcome :=
  if existsb (follow_between (follower f) (followed f)) (follows db)
  then mkOutcome db (Some (IntegrityError "unique_together"))
  else
    let db' := mkDB (f :: follows db) (friendships db) in
    signalled db' (update_friendship_on_follow_save db' f).

(** [follow.status = st; follow.save()] on the row of the pair. *)
Definition Follow_set_status (db : DB) (a b : string) (st : FollowStatus)
  : Outcome :=
  if existsb (follow_between a b) (follows db) then
    let upd f := if follow_between a b f then mkFollow a b st else f in
    let db' := mkDB (map upd (follows db)) (friendships db) in
    signalled db' (update_friendship_on_follow_save db' (mkFollow a b st))
  else mkOutcome db (Some DoesNotExist).

(** [Follow.objects.filter(follower=a, followed=b).delete()]: the
    rows go, then [post_delete] is sent for each of them. *)
Definition Follow_delete (db : DB) (a b : string) : Outcome :=
  let gone := filter (follow_between a b) (follows db) in
  let db' := mkDB (filter (fun f => negb (follow_between a b f)) (follows db))
                  (friendships db) in
  fold_left
    (fun o f =>
       match raised o with
       | Some _ => o
       | None => signalled (after o) (update_friendship_on_follow_delete (after o) f)
       end)
    gone (mkOutcome db' None).

(** The mutations a caller can apply to [Follow]. *)
Inductive Mutation : Type :=
| Create (f : Follow)
| SetStatus (a b : string) (st : FollowStatus)
| Delete (a b : string).

Definition apply (db : DB) (m : Mutation) : Outcome :=
  match m with
  | Create f => Follow_create db f
  | SetStatus a b st => Follow_set_status db a b st
  | Delete a b => Follow_delete db a b
  end.

Definition run (ms : list Mutation) (db : DB) : DB :=
  fold_left (fun d m => after (apply d m)) ms db.

(** [Author.is_friend_with]. *)
Definition is_friend_with (db : DB) (a b : string) : bool :=
  existsb (friendship_either a b) (friendships db).

(** No row of the table relates an author to themselves. *)
Definition no_self (frs : list Friendship) : Prop :=
  Forall (fun fr => author1 fr <> author2 fr) frs.

End Models.

(** ** models/entry.py: the visibility filter of [EntryManager] *)

Module Entries.
Import Models.

(** Visibility levels, as the strings the column holds. *)
Definition PUBLIC : string := "PUBLIC".
Definition UNLISTED : string := "UNLISTED".
Definition FRIENDS_ONLY : string := "FRIENDS".
Definition DELETED : string := "DELETED".

(** An [Entry] row; [author] holds the URL of the author. *)
Record Entry : Type := mkEntry {
  id : string;
  url : string;
  author : string;
  title : string;
  description : string;
  content : string;
  content_type : string;
  visibility : string;
  source : string;
  origin : string;
  web : string;
  published : option string
}.

(** [Exists(friendship_exists)] for the row under the filter. *)
Definition friendship_exists (db : DB) (viewing_author : string) (e : Entry) : bool :=
  existsb (friendship_either viewing_author (author e)) (friendships db).

(** [Exists(follower_exists)] for the row under the filter. *)
Definition follower_exists (db : DB) (viewing_author : string) (e : Entry) : bool :=
  follows_accepted (follows db) viewing_author (author e).

(** The filter of [visible_to_author], one row at a time.  In the
    source [&] binds tighter than [|]. *)
Definition visible_row (db : DB) (viewing_author : option string) (e : Entry) : bool :=
  match viewing_author with
  | None =>
      (visibility e =? PUBLIC) && negb (visibility e =? DELETED)
  | Some v =>
      ((visibility e =? PUBLIC)
       || ((visibility e =? UNLISTED) && (author e =? v))
       || ((visibility e =? UNLISTED)
           && (follower_exists db v e || friendship_exists db v e))
       || ((visibility e =? FRIENDS_ONLY) && (author e =? v))
       || ((visibility e =? FRIENDS_ONLY) && friendship_exists db v e))
      && negb (visibility e =? DELETED)
  end.

(** [Entry.objects.visible_to_author(viewing_author)]. *)
Definition visible_to_author (db : DB) (entries : list Entry)
           (viewing_author : option string) : list Entry :=
  filter (visible_row db viewing_author) entries.

(** views/entry.py, [EntryViewSet.get_object]: the decision on a
    read (GET, HEAD, OPTIONS) of an entry that was found.  [None] is
    the anonymous user. *)
Definition get_object_read (db : DB) (is_staff : bool) (user_author : option string)
           (obj : Entry) : bool :=
  if is_staff then true
  else if visibility obj =? PUBLIC then true
  else if visibility obj =? UNLISTED then true
  else
    match user_author with
    | Some u =>
        let is_author := author obj =? u in
        let is_friend := existsb (friendship_either (author obj) u) (friendships db) in
        let is_follower := follows_accepted (follows db) u (author obj) in
        ((visibility obj =? UNLISTED) && (is_author || is_friend || is_follower))
        || ((visibility obj =? FRIENDS_ONLY) && (is_author || is_friend))
    | None => false
    end.

End Entries.

(** ** views/author.py: the resolvers of authors and entries *)

Module Resolver.
Import Entries.

Record Settings : Type := mkSettings {
  SITE_URL : string;
  FRONTEND_URL : string
}.

(** An [Author] row.  The model extends Django's [AbstractUser], so
    besides the primary key and [url] the [username] column is
    unique.  [node] is NULL for a local author. *)
Record Author : Type := mkAuthor {
  a_id : string;
  a_url : string;
  username : string;
  displayName : string;
  profileImage : string;
  host : string;
  a_web : string;
  node : option string
}.

(** The author object of an activity; [None] is an absent key. *)
Record AuthorData : Type := mkAuthorData {
  ad_id : option string;
  ad_displayName : option string;
  ad_profileImage : option string;
  ad_host : option string;
  ad_web : option string
}.

(** [{}], the default of [activity_data.get("author", {})]. *)
Definition no_author_data : AuthorData := mkAuthorData None None None None None.

(** The fields of an entry activity that the resolver reads. *)
Record EntryData : Type := mkEntryData {
  ed_id : option string;
  ed_author : option AuthorData;
  ed_title : option string;
  ed_description : option string;
  ed_content : option string;
  ed_contentType : option string;
  ed_visibility : option string;
  ed_source : option string;
  ed_origin : option string;
  ed_web : option string;
  ed_published : option string
}.

(** [d.get(key, default)]. *)
Definition get (o : option string) (default : string) : string :=
  match o with Some s => s | None => default end.

(** [display_name.lower().replace(" ", "_") if display_name else "unknown"]. *)
Definition derived_username (display_name : string) : string :=
  if display_name =? "" then "unknown"
  else string_of_list_ascii
         (map (fun c => if Ascii.eqb c " " then "_"%char else c)
              (PyStr.lower (list_ascii_of_string display_name))).

(** The unique indexes of the table, checked for a row against the
    other rows. *)
Definition author_conflict (others : list Author) (a : Author) : option string :=
  if existsb (fun o => a_url o =? a_url a) others then Some "url"
  else if existsb (fun o => username o =? username a) others then Some "username"
  else None.

(** What [Author.save] fills in for a local author after the row is
    written. *)
Definition generated (cfg : Settings) (a : Author) : Author :=
  match node a with
  | Some _ => a
  | None =>
      mkAuthor (a_id a)
        (if a_url a =? "" then SITE_URL cfg ++ "/api/authors/" ++ a_id a else a_url a)
        (username a) (displayName a) (profileImage a)
        (if host a =? "" then SITE_URL cfg ++ "/api/" else host a)
        (if a_web a =? "" then FRONTEND_URL cfg ++ "/authors/" ++ a_id a else a_web a)
        None
  end.

(** [Author.save()]: INSERT for a new instance, UPDATE for a loaded
    one, then the second save of the generated fields. *)
Definition Author_save (cfg : Settings) (table : list Author) (adding : bool)
           (a : Author) : result (Author * list Author) :=
  let others := filter (fun o => negb (a_id o =? a_id a)) table in
  if adding && existsb (fun o => a_id o =? a_id a) table
  then Raise (IntegrityError "pk")
  else
    match author_conflict others a with
    | Some c => Raise (IntegrityError c)
    | None =>
        let a' := generated cfg a in
        match author_conflict others a' with
        | Some c => Raise (IntegrityError c)
        | None =>
            if existsb (fun o => a_id o =? a_id a) table
            then Ok (a', map (fun o => if a_id o =? a_id a then a' else o) table)
            else Ok (a', a' :: table)
        end
    end.

(** [Author.objects.get(url=u)]. *)
Definition Author_get (table : list Author) (u : string) : result Author :=
  match filter (fun o => a_url o =? u) table with
  | [] => Raise DoesNotExist
  | [a] => Ok a
  | _ :: _ :: _ => Raise MultipleObjectsReturned
  end.

(** The [defaults] of the author upsert. *)
Record AuthorDefaults : Type := mkAuthorDefaults {
  d_username : string;
  d_displayName : string;
  d_profileImage : string;
  d_host : string;
  d_web : string
}.

(** The row [a] after the author upsert has written [d] on it. *)
Definition author_with_defaults (a : Author) (d : AuthorDefaults) : Author :=
  mkAuthor (a_id a) (a_url a) (d_username d) (d_displayName d)
           (d_profileImage d) (d_host d) (d_web d) (node a).

(** [Author.objects.update_or_create(url=u, defaults=d)]; [fresh] is
    the UUID drawn for a new row. *)
Definition Author_update_or_create (cfg : Settings) (fresh : string)
           (table : list Author) (u : string) (d : AuthorDefaults)
  : result (Author * list Author) :=
  match filter (fun o => a_url o =? u) table with
  | [] =>
      Author_save cfg table true
        (mkAuthor fresh u (d_username d) (d_displayName d) (d_profileImage d)
                  (d_host d) (d_web d) None)
  | [a] => Author_save cfg table false (author_with_defaults a d)
  | _ :: _ :: _ => Raise MultipleObjectsReturned
  end.

Definition author_defaults (author_data : AuthorData) : AuthorDefaults :=
  let display_name := get (ad_displayName author_data) "" in
  mkAuthorDefaults
    (derived_username display_name)
    (get (ad_displayName author_data) "")
    (get (ad_profileImage author_data) "")
    (get (ad_host author_data) "")
    (get (ad_web author_data) "").

(** [_get_or_create_author_from_activity(author_data)].  The
    normalization runs outside the [try]: when it raises, so does the
    resolver. *)
Definition _get_or_create_author_from_activity (cfg : Settings) (fresh : string)
           (table : list Author) (author_data : AuthorData)
  : result (option Author * list Author) :=
  match ad_id author_data with
  | None | Some "" => Ok (None, table)
  | Some author_url =>
      normalized_url <- UrlUtils.normalize_author_url author_url ;;
      match Author_update_or_create cfg fresh table normalized_url
                                    (author_defaults author_data) with
      | Ok (author, table') => Ok (Some author, table')
      | Raise _ =>
          match Author_get table normalized_url with
          | Ok a => Ok (Some a, table)
          | Raise DoesNotExist =>
              match Author_get table author_url with
              | Ok a => Ok (Some a, table)
              | Raise DoesNotExist => Ok (None, table)
              | Raise e => Raise e
              end
          | Raise e => Raise e
          end
      end
  end.

(** What [Entry.save] fills in before the row is written: the URLs
    of the entry of a local author that has none. *)
Definition entry_generated (cfg : Settings) (author : Author) (e : Entry) : Entry :=
  match node author with
  | None =>
      mkEntry (id e)
        (if url e =? "" then SITE_URL cfg ++ "/api/authors/" ++ a_id author
                             ++ "/entries/" ++ id e else url e)
        (Entries.author e) (title e) (description e) (content e)
        (content_type e) (visibility e) (source e) (origin e)
        (if web e =? "" then FRONTEND_URL cfg ++ "/authors/" ++ a_id author
                             ++ "/entries/" ++ id e else web e)
        (published e)
  | Some _ => e
  end.

(** [Entry.save()] for a row whose author is [author]. *)
Definition Entry_save (cfg : Settings) (table : list Entry) (adding : bool)
           (author : Author) (e : Entry) : result (Entry * list Entry) :=
  let e := entry_generated cfg author e in
  let others := filter (fun o => negb (id o =? id e)) table in
  if adding && existsb (fun o => id o =? id e) table
  then Raise (IntegrityError "pk")
  else if existsb (fun o => url o =? url e) others
  then Raise (IntegrityError "url")
  else if existsb (fun o => id o =? id e) table
  then Ok (e, map (fun o => if id o =? id e then e else o) table)
  else Ok (e, e :: table).











(** The unique indexes hold in the table. *)
Definition authors_unique (table : list Author) : Prop :=
  NoDup (map a_id table) /\ NoDup (map a_url table) /\ NoDup (map username table).


End Resolver.

(** ** models/like.py *)

Module Likes.

Record Like : Type := mkLike {
  id : string;
  url : string;
  author : string;
  entry : option string;
  comment : option string
}.

Definition is_some {A : Type} (o : option A) : bool :=
  match o with Some _ => true | None => false end.

(** [CheckConstraint(name="like_has_target")]. *)
Definition like_has_target (l : Like) : bool :=
  is_some (entry l) || is_some (comment l).

(** [CheckConstraint(name="like_single_target")]. *)
Definition like_single_target (l : Like) : bool :=
  negb (is_some (entry l) && is_some (comment l)).

Definition opt_is (o : option string) (s : string) : bool :=
  match o with Some x => x =? s | None => false end.

(** A unique index over a nullable column never matches a NULL. *)
Definition same_author_entry (l o : Like) : bool :=
  match entry l with
  | Some e => (author o =? author l) && opt_is (entry o) e
  | None => false
  end.

Definition same_author_comment (l o : Like) : bool :=
  match comment l with
  | Some c => (author o =? author l) && opt_is (comment o) c
  | None => false
  end.

(** The checks the database runs on a row against the other rows. *)
Definition constraint_violated (others : list Like) (l : Like) : option string :=
  if negb (like_has_target l) then Some "like_has_target"
  else if negb (like_single_target l) then Some "like_single_target"
  else if existsb (fun o => url o =? url l) others then Some "url"
  else if existsb (same_author_entry l) others then Some "author_entry"
  else if existsb (same_author_comment l) others then Some "author_comment"
  else None.

(** The URL a like gets when it has none: [author_id] is
    [self.author.id]. *)
Definition with_url (SITE_URL author_id : string) (l : Like) : Like :=
  if url l =? "" then
    mkLike (id l)
           (SITE_URL ++ "/api/authors/" ++ author_id ++ "/liked/" ++ id l)
           (author l) (entry l) (comment l)
  else l.

(** [Like.save()].  [adding] tells a fresh instance (INSERT) from one
    loaded from the table (UPDATE). *)
Definition save (SITE_URL : string) (table : list Like) (adding : bool)
           (author_id : string) (l : Like) : result (list Like) :=
  let l := with_url SITE_URL author_id l in
  let others := filter (fun o => negb (id o =? id l)) table in
  match constraint_violated others l with
  | Some c => Raise (IntegrityError c)
  | None =>
      if existsb (fun o => id o =? id l) table then
        if adding then Raise (IntegrityError "pk")
        else Ok (map (fun o => if id o =? id l then l else o) table)
      else Ok (l :: table)
  end.

(** [like.delete()]. *)
Definition delete (table : list Like) (like_id : string) : list Like :=
  filter (fun o => negb (id o =? like_id)) table.

Inductive LikeOp : Type :=
| Save (adding : bool) (author_id : string) (l : Like)
| Delete (like_id : string).

Definition apply (SITE_URL : string) (table : list Like) (w : LikeOp) : list Like :=
  match w with
  | Save adding author_id l =>
      match save SITE_URL table adding author_id l with
      | Ok table' => table'
      | Raise _ => table
      end
  | Delete like_id => delete table like_id
  end.

Definition run (SITE_URL : string) (ws : list LikeOp) (table : list Like) : list Like :=
  fold_left (apply SITE_URL) ws table.

(** The target of a like: an entry or a comment, by URL. *)
Inductive Target : Type :=
| OnEntry (entry_url : string)
| OnComment (comment_url : string).

Definition targets (l : Like) (t : Target) : bool :=
  match t with
  | OnEntry e => opt_is (entry l) e
  | OnComment c => opt_is (comment l) c
  end.

Definition likes_of (table : list Like) (a : string) (t : Target) : list Like :=
  filter (fun l => (author l =? a) && targets l t) table.

(** The invariant of the table.  Exactly one of the two targets is set. *)
Definition one_target (l : Like) : Prop :=
  (entry l <> None /\ comment l = None) \/ (entry l = None /\ comment l <> None).

Definition at_most_one_per_target (t : list Like) : Prop :=
  forall a tgt, List.length (likes_of t a tgt) <= 1.

Definition like_inv (t : list Like) : Prop :=
  NoDup (map id t) /\ Forall one_target t /\ at_most_one_per_target t.

End Likes.

(** ** utils/url_utils.py: [parse_uuid_from_url] *)

Module Uuid.
Import PyStr.

(** [[0-9a-fA-F]]. *)
Definition is_hex (c : ascii) : bool :=
  is_digit c || (Ascii.leb "a" c && Ascii.leb c "f")
  || (Ascii.leb "A" c && Ascii.leb c "F").

(** [n] hexadecimal digits at the head of [s]; the rest. *)
Fixpoint hex_run (n : nat) (s : str) : option str :=
  match n, s with
  | O, _ => Some s
  | S k, c :: t => if is_hex c then hex_run k t else None
  | S _, [] => None
  end.

Definition dash (s : str) : option str :=
  match s with
  | "-"%char :: t => Some t
  | _ => None
  end.

Definition and_then {A B : Type} (o : option A) (k : A -> option B) : option B :=
  match o with Some a => k a | None => None end.

(** The UUID pattern 8-4-4-4-12 matches at the head of [s]. *)
Definition uuid_at (s : str) : bool :=
  match
    and_then (hex_run 8 s) (fun s =>
    and_then (dash s) (fun s =>
    and_then (hex_run 4 s) (fun s =>
    and_then (dash s) (fun s =>
    and_then (hex_run 4 s) (fun s =>
    and_then (dash s) (fun s =>
    and_then (hex_run 4 s) (fun s =>
    and_then (dash s) (fun s => hex_run 12 s))))))))
  with
  | Some _ => true
  | None => false
  end.

(** [re.findall(uuid_pattern, url)[-1]]: the matches are taken left
    to right without overlap; [skip] counts the characters of the
    match being passed over. *)
Fixpoint last_uuid (skip : nat) (s : str) (found : option str) : option str :=
  match s with
  | [] => found
  | _ :: t =>
      match skip with
      | S k => last_uuid k t found
      | O =>
          if uuid_at s then last_uuid 35 t (Some (firstn 36 s))
          else last_uuid 0 t found
      end
  end.

(** [parse_uuid_from_url(url)]. *)
Definition parse_uuid_from_url (url : string) : option string :=
  option_map string_of_list_ascii (last_uuid 0 (list_ascii_of_string url) None).

(** Two spellings of one UUID. *)
Definition uuid_eqb (a b : string) : bool :=
  str_eqb (lower (list_ascii_of_string a)) (lower (list_ascii_of_string b)).

End Uuid.

(** ** serializers/inbox.py and the inbox endpoint of views/author.py *)

Module Inbox.
Import Resolver.

Set Warnings "-register-all".

(** JSON values, as [object_data] holds them. *)
Inductive Json : Type :=
| JNull
| JBool (b : bool)
| JNum (n : N)
| JStr (s : string)
| JArr (items : list Json)
| JObj (fields : list (string * Json)).

Fixpoint json_eqb (x y : Json) : bool :=
  match x, y with
  | JNull, JNull => true
  | JBool a, JBool b => Bool.eqb a b
  | JNum a, JNum b => N.eqb a b
  | JStr a, JStr b => String.eqb a b
  | JArr a, JArr b =>
      (fix all2 (a b : list Json) : bool :=
         match a, b with
         | [], [] => true
         | x :: a', y :: b' => json_eqb x y && all2 a' b'
         | _, _ => false
         end) a b
  | JObj a, JObj b =>
      (fix all2 (a b : list (string * Json)) : bool :=
         match a, b with
         | [], [] => true
         | (k, x) :: a', (k', y) :: b' => String.eqb k k' && json_eqb x y && all2 a' b'
         | _, _ => false
         end) a b
  | _, _ => false
  end.

(** The [object] of an activity when it is a dictionary. *)
Record ObjectDict : Type := mkObjectDict {
  od_type : option string;
  od_id : option string;
  od_object : option string
}.

(** The [object] field: a URL for a like, a dictionary for a follow
    or an undo. *)
Inductive ObjectField : Type :=
| ObjString (s : string)
| ObjDict (o : ObjectDict).

(** The declared fields of [ActivitySerializer]; [None] is an absent
    key.  [fields] holds id, author, title, content, contentType,
    description, visibility, source, origin, web and published. *)
Record Activity : Type := mkActivity {
  type : string;
  fields : EntryData;
  actor : option AuthorData;
  object : option ObjectField;
  entry : option string;
  comment : option string
}.

(** An activity that carries none of the entry fields. *)
Definition no_fields : EntryData :=
  mkEntryData None None None None None None None None None None None.

Definition present {A : Type} (o : option A) : bool :=
  match o with Some _ => true | None => false end.

(** [validate_type]. *)
Definition valid_types : list string := ["entry"; "follow"; "like"; "comment"].

Definition validate_type (value : string) : bool :=
  existsb (String.eqb value) valid_types.

(** ["id" in data[key]] when the key is there. *)
Definition has_id_if_present (o : option AuthorData) : bool :=
  match o with
  | Some d => present (ad_id d)
  | None => true
  end.

(** [validate]: the structure checks of the type, then the required
    fields. *)
Definition validate (data : Activity) : bool :=
  if type data =? "entry" then
    has_id_if_present (ed_author (fields data))
    && present (ed_id (fields data)) && present (ed_author (fields data))
    && present (ed_title (fields data)) && present (ed_content (fields data))
    && present (ed_contentType (fields data))
  else if type data =? "follow" then
    has_id_if_present (actor data)
    && match object data with
       | Some (ObjString _) => false
       | Some (ObjDict o) => present (od_id o)
       | None => true
       end
    && present (actor data) && present (object data)
  else if type data =? "like" then
    has_id_if_present (ed_author (fields data))
    && match object data with
       | Some (ObjString s) => negb (s =? "")
       | Some (ObjDict o) =>
           present (od_type o) || present (od_id o) || present (od_object o)
       | None => false
       end
    && present (ed_id (fields data)) && present (ed_author (fields data))
  else if type data =? "comment" then
    has_id_if_present (ed_author (fields data))
    && present (ed_id (fields data)) && present (ed_author (fields data))
    && present (comment data) && present (entry data)
  else false.

(** [serializer.is_valid()]: the field validator of [type] first. *)
Definition is_valid (data : Activity) : bool :=
  validate_type (type data) && validate data.

(** An [Inbox] row. *)
Record InboxItem : Type := mkInboxItem {
  recipient : string;
  activity_type : string;
  object_data : Json;
  raw_data : Activity
}.

Record Response : Type := mkResponse {
  status_code : nat;
  message : string
}.

Definition HTTP_200_OK : nat := 200.
Definition HTTP_201_CREATED : nat := 201.
Definition HTTP_400_BAD_REQUEST : nat := 400.
Definition HTTP_500_INTERNAL_SERVER_ERROR : nat := 500.

(** The activity handlers over the object tables [St].  Each catches
    what it raises and answers [None]. *)
Record Handlers (St : Type) : Type := mkHandlers {
  _process_entry_activity : St -> Activity -> option Json * St;
  _process_follow_activity : St -> Activity -> Author -> option Json * St;
  _process_like_activity : St -> Activity -> Author -> option Json * St;
  _process_comment_activity : St -> Activity -> Author -> option Json * St;
  _process_undo_activity : St -> Activity -> Author -> option Json * St
}.
Arguments _process_entry_activity {St} h.
Arguments _process_follow_activity {St} h.
Arguments _process_like_activity {St} h.
Arguments _process_comment_activity {St} h.
Arguments _process_undo_activity {St} h.

(** The [if] / [elif] chain on the activity type. *)
Definition dispatch {St : Type} (h : Handlers St) (st : St) (author : Author)
           (activity_data : Activity) : option Json * St :=
  let activity_type := type activity_data in
  if activity_type =? "entry" then _process_entry_activity h st activity_data
  else if activity_type =? "follow" then
    _process_follow_activity h st activity_data author
  else if activity_type =? "like" then
    _process_like_activity h st activity_data author
  else if activity_type =? "comment" then
    _process_comment_activity h st activity_data author
  else if activity_type =? "undo" then
    _process_undo_activity h st activity_data author
  else (None, st).

Definition same_item (r t : string) (d : Json) (i : InboxItem) : bool :=
  (recipient i =? r) && (activity_type i =? t) && json_eqb (object_data i) d.

(** [Inbox.objects.get_or_create(recipient=, activity_type=,
    object_data=, defaults={"raw_data": ...})]. *)
Definition Inbox_get_or_create (inbox : list InboxItem) (r t : string) (d : Json)
           (raw : Activity) : result (bool * list InboxItem) :=
  match filter (same_item r t d) inbox with
  | [] => Ok (true, mkInboxItem r t d raw :: inbox)
  | [_] => Ok (false, inbox)
  | _ :: _ :: _ => Raise MultipleObjectsReturned
  end.

(** [_post_to_inbox] for the recipient [author]. *)
Definition _post_to_inbox {St : Type} (h : Handlers St) (st : St)
           (inbox : list InboxItem) (author : Author) (request_data : Activity)
  : Response * St * list InboxItem :=
  if negb (is_valid request_data)
  then (mkResponse HTTP_400_BAD_REQUEST "errors", st, inbox)
  else
    let activity_data := request_data in
    let activity_type := type activity_data in
    let '(object_data, st) := dispatch h st author activity_data in
    match object_data with
    | None =>
        (mkResponse HTTP_400_BAD_REQUEST
                    ("Failed to process " ++ activity_type ++ " activity"), st, inbox)
    | Some object_data =>
        match Inbox_get_or_create inbox (a_url author) activity_type object_data
                                  request_data with
        | Ok (true, inbox') =>
            (mkResponse HTTP_201_CREATED "Activity added to inbox", st, inbox')
        | Ok (false, inbox') =>
            (mkResponse HTTP_200_OK "Activity already in inbox", st, inbox')
        | Raise _ =>
            (mkResponse HTTP_500_INTERNAL_SERVER_ERROR
                        "Failed to process inbox activity", st, inbox)
        end
    end.


End Inbox.

(** ** views/author.py: the undo handlers *)

Module Undo.
Import Resolver Inbox.

(** A [Comment] row. *)
Record Comment : Type := mkComment {
  c_id : string;
  c_url : string;
  c_author : string;
  c_entry : string;
  c_content : string
}.

Record Store : Type := mkStore {
  authors : list Author;
  entries : list Entries.Entry;
  comments : list Comment;
  likes : list Likes.Like
}.

(** [Model.objects.get(...)] for the rows that satisfy [q]. *)
Definition get_one {A : Type} (q : A -> bool) (table : list A) : result A :=
  match filter q table with
  | [] => Raise DoesNotExist
  | [a] => Ok a
  | _ :: _ :: _ => Raise MultipleObjectsReturned
  end.

(** [try: ... except X.DoesNotExist: pass]. *)
Definition pass_DoesNotExist {A : Type} (r : result A) : result (option A) :=
  match r with
  | Ok a => Ok (Some a)
  | Raise DoesNotExist => Ok None
  | Raise e => Raise e
  end.

Definition like_of_entry (actor : Author) (e : Entries.Entry) (l : Likes.Like) : bool :=
  (Likes.author l =? a_url actor) && Likes.opt_is (Likes.entry l) (Entries.url e).

Definition like_of_comment (actor : Author) (c : Comment) (l : Likes.Like) : bool :=
  (Likes.author l =? a_url actor) && Likes.opt_is (Likes.comment l) (c_url c).

(** The like of [actor] on the entry, else on the comment, that the
    two queries select. *)
Definition like_by_target (st : Store) (actor : Author)
           (entry_q : Entries.Entry -> bool) (comment_q : Comment -> bool)
  : result (option Likes.Like) :=
  match (entry <- get_one entry_q (entries st) ;;
         get_one (like_of_entry actor entry) (likes st)) with
  | Ok like => Ok (Some like)
  | Raise DoesNotExist =>
      pass_DoesNotExist
        (comment <- get_one comment_q (comments st) ;;
         get_one (like_of_comment actor comment) (likes st))
  | Raise e => Raise e
  end.

Definition unlike_result (actor : Author) (object_url status : string) : Json :=
  JObj [("type", JStr "undo"); ("object_type", JStr "like");
        ("actor", JStr (username actor)); ("object_url", JStr object_url);
        ("status", JStr status)].

(** [_process_unlike_activity(like_data, actor, recipient)]. *)
Definition _process_unlike_activity (st : Store) (like_data : ObjectDict)
           (actor : Author) : option Json * Store :=
  match od_object like_data with
  | None | Some "" => (None, st)
  | Some object_url =>
      let like_url := od_id like_data in
      let like_uuid :=
        match like_url with
        | None | Some "" => None
        | Some u => Uuid.parse_uuid_from_url u
        end in
      let by_uuid :=
        match like_uuid with
        | Some uuid =>
            pass_DoesNotExist
              (get_one (fun l => Uuid.uuid_eqb (Likes.id l) uuid
                                 && (Likes.author l =? a_url actor)) (likes st))
        | None => Ok None
        end in
      match by_uuid with
      | Raise _ => (None, st)
      | Ok like =>
          let by_url :=
            match like, like_url with
            | None, Some (String _ _ as u) =>
                pass_DoesNotExist
                  (get_one (fun l => (Likes.url l =? u)
                                     && (Likes.author l =? a_url actor)) (likes st))
            | _, _ => Ok like
            end in
          match by_url with
          | Raise _ => (None, st)
          | Ok like =>
              let like :=
                match like with
                | Some _ => like
                | None =>
                    let by_object_uuid :=
                      match Uuid.parse_uuid_from_url object_url with
                      | Some object_uuid =>
                          like_by_target st actor
                            (fun e => Uuid.uuid_eqb (Entries.id e) object_uuid)
                            (fun c => Uuid.uuid_eqb (c_id c) object_uuid)
                      | None => Ok None
                      end in
                    match by_object_uuid with
                    | Raise _ => None
                    | Ok (Some l) => Some l
                    | Ok None =>
                        match like_by_target st actor
                                (fun e => Entries.url e =? object_url)
                                (fun c => c_url c =? object_url) with
                        | Ok l => l
                        | Raise _ => None
                        end
                    end
                end in
              match like with
              | Some l =>
                  (Some (unlike_result actor object_url "success"),
                   mkStore (authors st) (entries st) (comments st)
                           (Likes.delete (likes st) (Likes.id l)))
              | None =>
                  (Some (unlike_result actor object_url "not_found_but_success"), st)
              end
          end
      end
  end.

(** [_process_undo_activity(activity_data, recipient)]; [fresh] is
    the UUID drawn when the actor is new. *)
Definition _process_undo_activity (cfg : Settings) (fresh : string) (st : Store)
           (activity_data : Activity) (recipient : Author) : option Json * Store :=
  let actor_data :=
    match actor activity_data with Some d => d | None => no_author_data end in
  match _get_or_create_author_from_activity cfg fresh (authors st) actor_data with
  | Raise _ => (None, st)
  | Ok (None, authors') =>
      (None, mkStore authors' (entries st) (comments st) (likes st))
  | Ok (Some actor, authors') =>
      let st := mkStore authors' (entries st) (comments st) (likes st) in
      match object activity_data with
      | Some (ObjString _) => (None, st)
      | None => (None, st)
      | Some (ObjDict object_data) =>
          let object_type := get (od_type object_data) "" in
          if object_type =? "like" then _process_unlike_activity st object_data actor
          else if object_type =? "follow" then
            (Some (JObj [("type", JStr "undo"); ("object_type", JStr "follow");
                         ("status", JStr "not_implemented")]), st)
          else (None, st)
      end
  end.

End Undo.

(** ** views/entry.py: the fan-out of an entry to the remote authors *)

Module Fanout.
Import Resolver.

(** A [Node] row, as far as the credentials go. *)
Record Node : Type := mkNode {
  node_username : string;
  node_password : string
}.

(** One POST as [requests.post] is called. *)
Record Request : Type := mkRequest {
  inbox_url : string;
  body : Entries.Entry;
  auth : option (string * string)
}.

(** The network: [requests.post] answers with a status code or
    raises (connection refused, time out, ...). *)
Definition Network : Type := Request -> result nat.

(** [remote_author.url.rstrip('/') + '/inbox/']. *)
Definition inbox_of (remote_author : Author) : string :=
  string_of_list_ascii (PyStr.rstrip "/" (list_ascii_of_string (a_url remote_author)))
  ++ "/inbox/".

(** [HTTPBasicAuth(node.username, node.password)] when the node has
    both. *)
Definition auth_of (nodes : string -> option Node) (remote_author : Author)
  : option (string * string) :=
  match node remote_author with
  | Some n =>
      match nodes n with
      | Some nd =>
          if negb (node_username nd =? "") && negb (node_password nd =? "")
          then Some (node_username nd, node_password nd)
          else None
      | None => None
      end
  | None => None
  end.

(** What one delivery left in the log. *)
Inductive Delivery : Type :=
| Sent (r : Request)
| Failed (r : Request) (status_code : nat)
| Errored (r : Request).

Definition request_for (nodes : string -> option Node) (entry : Entries.Entry)
           (remote_author : Author) : Request :=
  mkRequest (inbox_of remote_author) entry (auth_of nodes remote_author).

(** The [try] body of the loop for one recipient: the POST, then the
    branch on the status code. *)
Definition send_one (net : Network) (nodes : string -> option Node)
           (entry : Entries.Entry) (remote_author : Author) : result Delivery :=
  let r := request_for nodes entry remote_author in
  code <- net r ;;
  Ok (if existsb (Nat.eqb code) [200; 201; 202] then Sent r else Failed r code).

(** [Author.objects.filter(node__isnull=False)]. *)
Definition remote_authors (table : list Author) : list Author :=
  filter (fun a => match node a with Some _ => true | None => false end) table.

(** [_send_to_remote_authors(entry)]: nothing is returned; the log
    is what was attempted.  An exception inside the loop body is
    caught there, logged, and the loop continues. *)
Definition _send_to_remote_authors (net : Network) (nodes : string -> option Node)
           (authors : list Author) (entry : Entries.Entry) : list Delivery :=
  let remote := remote_authors authors in
  if (List.length remote =? 0)%nat then []
  else
    fold_left
      (fun log remote_author =>
         match send_one net nodes entry remote_author with
         | Ok d => log ++ [d]
         | Raise _ => log ++ [Errored (request_for nodes entry remote_author)]
         end)
      remote [].

Record World : Type := mkWorld {
  authors : list Author;
  entries : list Entries.Entry
}.

(** [perform_create]: the entry is saved, then sent. *)
Definition perform_create (net : Network) (nodes : string -> option Node)
           (cfg : Settings) (w : World) (user_author : Author) (e : Entries.Entry)
  : result (Entries.Entry * World * list Delivery) :=
  r <- Entry_save cfg (entries w) true user_author e ;;
  let '(entry, entries') := r in
  Ok (entry, mkWorld (authors w) entries',
      _send_to_remote_authors net nodes (authors w) entry).

(** [partial_update] / [update]: the new fields are saved, then the
    entry is sent. *)
Definition perform_update (net : Network) (nodes : string -> option Node)
           (cfg : Settings) (w : World) (user_author : Author) (e : Entries.Entry)
  : result (Entries.Entry * World * list Delivery) :=
  r <- Entry_save cfg (entries w) false user_author e ;;
  let '(entry, entries') := r in
  Ok (entry, mkWorld (authors w) entries',
      _send_to_remote_authors net nodes (authors w) entry).

Definition with_visibility (e : Entries.Entry) (v : string) : Entries.Entry :=
  Entries.mkEntry (Entries.id e) (Entries.url e) (Entries.author e)
    (Entries.title e) (Entries.description e) (Entries.content e)
    (Entries.content_type e) v (Entries.source e) (Entries.origin e)
    (Entries.web e) (Entries.published e).

(** [destroy]: the soft delete is saved, then the entry is sent. *)
Definition destroy (net : Network) (nodes : string -> option Node)
           (cfg : Settings) (w : World) (user_author : Author) (e : Entries.Entry)
  : result (Entries.Entry * World * list Delivery) :=
  r <- Entry_save cfg (entries w) false user_author
         (with_visibility e Entries.DELETED) ;;
  let '(entry, entries') := r in
  Ok (entry, mkWorld (authors w) entries',
      _send_to_remote_authors net nodes (authors w) entry).

Definition request_of (d : Delivery) : Request :=
  match d with
  | Sent r | Failed r _ | Errored r => r
  end.

(** What an operation committed locally, the log left aside. *)
Definition committed (r : result (Entries.Entry * World * list Delivery))
  : result (Entries.Entry * World) :=
  match r with
  | Ok (e, w, _) => Ok (e, w)
  | Raise x => Raise x
  end.

End Fanout.

(** ** models/follow.py, models/friendship.py: the invariants of the tables *)

Module FollowTable.
Import Models.

(** [unique_together = ["follower", "followed"]] holds in the table. *)
Definition follow_unique (fs : list Follow) : Prop :=
  forall a b, List.length (filter (follow_between a b) fs) <= 1.

(** The canonical order of a friendship row. *)
Definition canonical (fr : Friendship) : Prop :=
  String.ltb (author1 fr) (author2 fr) = true.

(** The status writes that keep the friendship table exact: a save
    with ACCEPTED, or a save on a pair that was not ACCEPTED. *)
Fixpoint guarded (ms : list Mutation) (db : DB) : Prop :=
  match ms with
  | [] => True
  | m :: ms' =>
      match m with
      | SetStatus a b st =>
          st = ACCEPTED \/ follows_accepted (follows db) a b = false
      | _ => True
      end /\ guarded ms' (after (apply db m))
  end.

End FollowTable.

(** ** views/follow.py: [accept] and [reject] *)

Module FollowViews.
Import Models.









(** The writes on [Follow] that go through the model or these views. *)
Inductive Request : Type :=
| Created (f : Follow)
| Deleted (a b : string)
| Accept (user_url : string) (pk : Follow)
| Reject (user_url : string) (pk : Follow).



End FollowViews.

(** ** models/entry.py, models/utils.py: listings of entries and likes *)

Module Stream.
Import Models Entries.

(** [Entry.objects.public_entries()]. *)
Definition public_entries (entries : list Entry) : list Entry :=
  filter (fun e => visibility e =? PUBLIC) entries.

(** [get_author_stream(author, page, size)]: the slice
    [visible_entries[start:end]].  [entries] holds the rows in the
    order of [Meta.ordering].  A queryset refuses a negative bound;
    [None] is that refusal. *)
Definition get_author_stream (db : DB) (entries : list Entry)
           (author : option string) (page size : Z) : option (list Entry) :=
  let visible_entries := visible_to_author db entries author in
  let start := ((page - 1) * size)%Z in
  let end_ := (start + size)%Z in
  if (start <? 0)%Z || (end_ <? 0)%Z then None
  else Some (firstn (Z.to_nat (end_ - start))
                    (skipn (Z.to_nat start) visible_entries)).

(** The entries of a page, none when the slice is refused. *)
Definition page_of (db : DB) (entries : list Entry) (author : option string)
           (size : Z) (page : Z) : list Entry :=
  match get_author_stream db entries author page size with
  | Some l => l
  | None => []
  end.

(** [has_liked_entry(author, entry)]; the arguments are the URLs the
    foreign keys hold. *)
Definition has_liked_entry (likes : list Likes.Like) (author entry : string) : bool :=
  existsb (fun l => (Likes.author l =? author) && Likes.opt_is (Likes.entry l) entry)
          likes.

(** [has_liked_comment(author, comment)]. *)
Definition has_liked_comment (likes : list Likes.Like) (author comment : string) : bool :=
  existsb (fun l => (Likes.author l =? author) && Likes.opt_is (Likes.comment l) comment)
          likes.

End Stream.

(** ** utils/url_utils.py: percent-encoding, validity, base host *)

Module UrlCodec.
Import PyStr UrlLib.

(** [_ALWAYS_SAFE]: the characters [quote] never escapes. *)
Definition always_safe (c : ascii) : bool :=
  is_alpha c || is_digit c
  || Ascii.eqb c "_" || Ascii.eqb c "." || Ascii.eqb c "-" || Ascii.eqb c "~".

(** One digit of ['%{:02X}']. *)
Definition hex_digit (n : N) : ascii :=
  if (n <? 10)%N then ascii_of_N (48 + n) else ascii_of_N (55 + n).

(** The escape of one byte. *)
Definition escape (b : N) : str :=
  ["%"%char; hex_digit (b / 16); hex_digit (b mod 16)].

(** [quote] on one character: itself when always safe, else the
    escapes of its UTF-8 bytes (one byte below 128, two from 128 to
    255). *)
Definition quote_char (c : ascii) : str :=
  let n := N_of_ascii c in
  if always_safe c then [c]
  else if (n <? 128)%N then escape n
  else escape (192 + n / 64) ++ escape (128 + n mod 64).

(** [quote(s, safe='')]. *)
Definition quote (s : str) : str := flat_map quote_char s.

(** [percent_encode_url(url)]. *)
Definition percent_encode_url (url : string) : string :=
  string_of_list_ascii (quote (list_ascii_of_string url)).

(** The value of a hexadecimal digit of either case. *)
Definition hex_value (c : ascii) : option N :=
  let n := N_of_ascii c in
  if is_digit c then Some (n - 48)%N
  else if Ascii.leb "a" c && Ascii.leb c "f" then Some (n - 87)%N
  else if Ascii.leb "A" c && Ascii.leb c "F" then Some (n - 55)%N
  else None.

(** The byte of an escape [%XY]; none when [p] is not the percent
    sign or a digit is not hexadecimal. *)
Definition hex_byte (p h1 h2 : ascii) : option N :=
  if Ascii.eqb p "%" then
    match hex_value h1, hex_value h2 with
    | Some a, Some b => Some (16 * a + b)%N
    | _, _ => None
    end
  else None.

(** [unquote(s)]: every escape becomes its byte, a percent sign that
    starts no escape stays, and the bytes are read as UTF-8.  The
    result is [None] when the text leaves the characters below 256: a
    byte from 128 on that is not the two-byte form of such a
    character (Python then yields another character, or U+FFFD for a
    malformed sequence). *)
Fixpoint unquote (s : str) : option str :=
  match s with
  | [] => Some []
  | c :: t =>
      match t with
      | h1 :: h2 :: t2 =>
          match hex_byte c h1 h2 with
          | Some b =>
              if (b <? 128)%N then option_map (cons (ascii_of_N b)) (unquote t2)
              else
                match t2 with
                | p :: k1 :: k2 :: t5 =>
                    match hex_byte p k1 k2 with
                    | Some b2 =>
                        if ((b =? 194) || (b =? 195))%N
                           && (128 <=? b2)%N && (b2 <=? 191)%N
                        then option_map
                               (cons (ascii_of_N ((b - 192) * 64 + (b2 - 128))))
                               (unquote t5)
                        else None
                    | None => None
                    end
                | _ => None
                end
          | None => option_map (cons c) (unquote t)
          end
      | _ => option_map (cons c) (unquote t)
      end
  end.

(** [percent_decode_url(url)]. *)
Definition percent_decode_url (url : string) : option string :=
  option_map string_of_list_ascii (unquote (list_ascii_of_string url)).

(** [url.endswith('/')]. *)
Definition endswith_slash (url : str) : bool :=
  match List.rev url with
  | "/"%char :: _ => true
  | _ => false
  end.

(** [normalize_url(url)]. *)
Definition normalize_url (url : string) : string :=
  if negb (endswith_slash (list_ascii_of_string url)) then url ++ "/" else url.

(** [is_valid_url(url)]: an exception of the parser is caught. *)
Definition is_valid_url (url : string) : bool :=
  match urlparse (list_ascii_of_string url) with
  | Ok result =>
      match scheme result, netloc result with
      | _ :: _, _ :: _ => true
      | _, _ => false
      end
  | Raise _ => false
  end.

(** [get_base_host(url)]. *)
Definition get_base_host (url : string) : result string :=
  parsed <- urlparse (list_ascii_of_string url) ;;
  Ok (string_of_list_ascii (scheme parsed ++ lit "://" ++ netloc parsed)).

End UrlCodec.

(** ** views/author.py: the inbox endpoint over a run of posts *)

Module InboxLog.
Import Resolver Inbox.



End InboxLog.



(** ** views/entry.py: the outcome of one delivery *)

Module Outcomes.
Import Resolver Fanout.

(** The body of the loop with its [except] clause: what the POST to
    one recipient leaves in the log. *)
Definition outcome (net : Network) (nodes : string -> option Node)
           (entry : Entries.Entry) (remote_author : Author) : Delivery :=
  let r := request_for nodes entry remote_author in
  match net r with
  | Ok code =>
      if existsb (Nat.eqb code) [200; 201; 202] then Sent r else Failed r code
  | Raise _ => Errored r
  end.

(** Where a request goes and how it is authenticated. *)
Definition target (d : Delivery) : string * option (string * string) :=
  (inbox_url (request_of d), auth (request_of d)).

End Outcomes.



(** ** views/entry.py: the home feed *)

Module Feed.
Import Models Entries.

(** [feed_entries] for an authenticated user, before pagination:
    the entries of the authors who follow the user and are followed by
    the user, both with ACCEPTED status, the deleted ones left out.
    Authors are told apart by their URL, the key the follow rows
    hold. *)
Definition feed_entries (db : DB) (entries : list Entry) (current_author : string)
  : list Entry :=
  filter
    (fun e =>
       (follows_accepted (follows db) current_author (author e)
        && follows_accepted (follows db) (author e) current_author)
       && negb (visibility e =? DELETED))
    entries.

End Feed.



(** * Properties *)

(** ** The friendship table *)

Lemma string_ltb_irrefl (s : string) : String.ltb s s = false.
Proof.
  unfold String.ltb.
  assert (E : String.compare s s = Eq).
  { induction s as [|c s IH]; cbn; [reflexivity|].
    unfold Ascii.compare. now rewrite N.compare_refl. }
  now rewrite E.
Qed.

Section FriendshipFacts.
Import Models.

Lemma Friendship_insert_no_self frs a1 a2 frs' :
  no_self frs -> Friendship_insert frs a1 a2 = Ok frs' -> no_self frs'.
Proof.
  unfold Friendship_insert; intros Hn H.
  destruct (String.eqb_spec a1 a2) as [|Hne]; [discriminate|].
  destruct (existsb _ frs); [discriminate|].
  injection H as <-. constructor; [exact Hne | exact Hn].
Qed.

Lemma Friendship_get_or_create_no_self frs a1 a2 frs' :
  no_self frs -> Friendship_get_or_create frs a1 a2 = Ok frs' -> no_self frs'.
Proof.
  unfold Friendship_get_or_create; intros Hn H.
  destruct (filter _ frs) as [|x [|y l]].
  - eapply Friendship_insert_no_self; eauto.
  - now injection H as <-.
  - discriminate.
Qed.

Lemma update_friendships_no_self db a b db' :
  no_self (friendships db) -> update_friendships db a b = Ok db' ->
  no_self (friendships db') /\ follows db' = follows db.
Proof.
  unfold update_friendships; intros Hn H.
  destruct (_ && _).
  - destruct (String.ltb a b); cbn in H;
      match type of H with
      | context [Friendship_get_or_create ?f ?x ?y] =>
          destruct (Friendship_get_or_create f x y) as [frs|e] eqn:E
      end; cbn in H; try discriminate; injection H as <-; cbn;
      (split; [eapply Friendship_get_or_create_no_self; eauto | reflexivity]).
  - injection H as <-; cbn. split; [|reflexivity].
    unfold no_self in *. rewrite Forall_forall in *.
    intros fr Hin. apply filter_In in Hin. now apply Hn.
Qed.

Lemma signalled_no_self db r :
  no_self (friendships db) ->
  (forall db', r = Ok db' -> no_self (friendships db')) ->
  no_self (friendships (after (signalled db r))).
Proof.
  intros Hn H. destruct r as [db'|e]; cbn; auto.
Qed.

Lemma apply_no_self db m :
  no_self (friendships db) -> no_self (friendships (after (apply db m))).
Proof.
  intros Hn. destruct m as [f|a b st|a b]; cbn.
  - unfold Follow_create. destruct (existsb _ _); [exact Hn|].
    apply signalled_no_self; [exact Hn|].
    unfold update_friendship_on_follow_save. intros db' H.
    destruct (status_eqb _ _).
    + now apply update_friendships_no_self in H.
    + now injection H as <-.
  - unfold Follow_set_status. destruct (existsb _ _); [|exact Hn].
    apply signalled_no_self; [exact Hn|].
    unfold update_friendship_on_follow_save. intros db' H.
    destruct (status_eqb _ _).
    + now apply update_friendships_no_self in H.
    + now injection H as <-.
  - unfold Follow_delete.
    match goal with
    | |- context [fold_left ?F _ _] =>
        assert (G : forall l o, no_self (friendships (after o)) ->
                                no_self (friendships (after (fold_left F l o))))
    end.
    { induction l as [|f l IH]; intros o Ho; cbn; [exact Ho|].
      apply IH. destruct (raised o); [exact Ho|].
      apply signalled_no_self; [exact Ho|].
      intros db' H. now apply update_friendships_no_self in H. }
    apply G. exact Hn.
Qed.

Lemma run_no_self ms : forall db,
  no_self (friendships db) -> no_self (friendships (run ms db)).
Proof.
  unfold run. induction ms as [|m ms IH]; intros db Hn; cbn; [exact Hn|].
  apply IH. now apply apply_no_self.
Qed.

(** What the maintainer itself guarantees for the pair it is called
    on, whenever it returns. *)
Lemma update_friendships_sound db a b db' :
  update_friendships db a b = Ok db' ->
  is_friend_with db' a b
  = follows_accepted (follows db') a b && follows_accepted (follows db') b a.
Proof.
  unfold is_friend_with. intros H.
  assert (Hf : follows db' = follows db).
  { unfold update_friendships in H. destruct (_ && _).
    - destruct (String.ltb a b); cbn in H;
        match type of H with
        | context [Friendship_get_or_create ?f ?x ?y] =>
            destruct (Friendship_get_or_create f x y)
        end; cbn in H; try discriminate; now injection H as <-.
    - now injection H as <-. }
  rewrite Hf. unfold update_friendships in H.
  destruct (follows_accepted (follows db) a b && follows_accepted (follows db) b a) eqn:E.
  - assert (K : forall x y, (x = a /\ y = b) \/ (x = b /\ y = a) ->
               forall r, Friendship_get_or_create (friendships db) x y = Ok r ->
               existsb (friendship_either a b) r = true).
    { intros x y Hxy r Hr. unfold Friendship_get_or_create in Hr.
      assert (M : friendship_either a b (mkFriendship x y) = true).
      { unfold friendship_either, friendship_is; cbn.
        destruct Hxy as [[-> ->]|[-> ->]]; rewrite !String.eqb_refl; cbn;
          [reflexivity | apply orb_true_r]. }
      destruct (filter (friendship_is x y) (friendships db)) as [|z [|z' l]] eqn:F.
      - unfold Friendship_insert in Hr.
        destruct (x =? y); [discriminate|].
        destruct (existsb _ _); [discriminate|]. injection Hr as <-.
        cbn [existsb]. now rewrite M.
      - injection Hr as <-. apply existsb_exists. exists z.
        assert (Hz : In z (filter (friendship_is x y) (friendships db)))
          by (rewrite F; now left).
        apply filter_In in Hz. destruct Hz as [Hz1 Hz2]. split; [exact Hz1|].
        unfold friendship_is in Hz2. apply andb_prop in Hz2 as [P Q].
        apply String.eqb_eq in P, Q.
        destruct z as [z1 z2]; cbn in P, Q; subst. exact M.
      - discriminate. }
    destruct (String.ltb a b); cbn in H;
      match type of H with
      | context [Friendship_get_or_create ?f ?x ?y] =>
          destruct (Friendship_get_or_create f x y) as [frs|e] eqn:G
      end; cbn in H; try discriminate; injection H as <-; cbn [friendships].
    + eapply K; [left; split; reflexivity | exact G].
    + eapply K; [right; split; reflexivity | exact G].
  - injection H as <-; cbn [friendships].
    apply not_true_is_false. intros C. apply existsb_exists in C as [fr [Hin Hfr]].
    apply filter_In in Hin as [_ Hneg]. rewrite Hfr in Hneg. discriminate.
Qed.

End FriendshipFacts.

(** C1.  The friendship invariant after a status update: with both
    directions ACCEPTED the friendship row exists; when the follow
    a -> b is then saved as REJECTED, the save handler skips the
    recomputation and the row stays although a no longer follows b
    with ACCEPTED status.  Deleting the same follow instead removes
    the row. *)
Theorem C1_reject_keeps_friendship :
  let mutual := [Models.Create (Models.mkFollow "a" "b" Models.ACCEPTED);
                 Models.Create (Models.mkFollow "b" "a" Models.ACCEPTED)] in
  let db := Models.run mutual Models.empty_db in
  let rejected := Models.after (Models.Follow_set_status db "a" "b" Models.REJECTED) in
  let deleted := Models.after (Models.Follow_delete db "a" "b") in
  Models.friendships db = [Models.mkFriendship "a" "b"]
  /\ Models.follows_accepted (Models.follows rejected) "a" "b" = false
  /\ Models.friendships rejected = [Models.mkFriendship "a" "b"]
  /\ Models.is_friend_with rejected "a" "b" = true
  /\ Models.friendships deleted = [].
Proof. cbv. repeat split. Qed.

(** C10.  No stored Friendship row relates an author to themselves:
    whatever sequence of Follow mutations is applied to the empty
    tables, every row has author1 <> author2; the insert of a row
    (a, a) is refused by the no_self_friendship check; and creating
    the self-follow a -> a with ACCEPTED status makes the maintainer's
    write fail on that check, leaving the friendship table as it
    was. *)
Theorem C10_no_self_friendship :
  (forall ms : list Models.Mutation,
      Forall (fun fr => Models.author1 fr <> Models.author2 fr)
             (Models.friendships (Models.run ms Models.empty_db)))
  /\ (forall frs a, Models.Friendship_insert frs a a
                    = Raise (IntegrityError "no_self_friendship"))
  /\ (forall ms a,
         let db := Models.run ms Models.empty_db in
         existsb (Models.follow_between a a) (Models.follows db) = false ->
         let o := Models.Follow_create db (Models.mkFollow a a Models.ACCEPTED) in
         Models.raised o = Some (IntegrityError "no_self_friendship")
         /\ Models.follows_accepted (Models.follows (Models.after o)) a a = true
         /\ Models.friendships (Models.after o) = Models.friendships db).
Proof.
  split; [|split].
  - intros ms. apply run_no_self. constructor.
  - intros frs a. unfold Models.Friendship_insert. now rewrite String.eqb_refl.
  - intros ms a db Hnew.
    assert (Hn : Models.no_self (Models.friendships db)) by (apply run_no_self; constructor).
    assert (F : filter (Models.friendship_is a a) (Models.friendships db) = []).
    { destruct (filter _ _) as [|x l] eqn:F; [reflexivity|exfalso].
      assert (Hx : In x (filter (Models.friendship_is a a) (Models.friendships db)))
        by (rewrite F; now left).
      apply filter_In in Hx as [Hin Hx]. unfold Models.no_self in Hn.
      rewrite Forall_forall in Hn. apply (Hn x Hin).
      unfold Models.friendship_is in Hx. apply andb_prop in Hx as [P Q].
      apply String.eqb_eq in P, Q. congruence. }
    unfold Models.Follow_create. cbn [Models.follower Models.followed].
    rewrite Hnew.
    set (f := Models.mkFollow a a Models.ACCEPTED).
    set (db' := Models.mkDB (f :: Models.follows db) (Models.friendships db)).
    assert (A : Models.follows_accepted (Models.follows db') a a = true).
    { unfold Models.follows_accepted, Models.follow_between. cbn.
      now rewrite String.eqb_refl. }
    assert (U : Models.update_friendship_on_follow_save db' f
                = Raise (IntegrityError "no_self_friendship")).
    { unfold Models.update_friendship_on_follow_save, Models.update_friendships.
      cbn [f Models.status Models.follower Models.followed Models.status_eqb].
      rewrite A. cbn [andb]. rewrite string_ltb_irrefl.
      unfold Models.Friendship_get_or_create. cbn [db' Models.friendships].
      rewrite F. unfold Models.Friendship_insert. now rewrite String.eqb_refl. }
    rewrite U. cbn [Models.signalled Models.raised Models.after].
    split; [reflexivity|]. split; [exact A | reflexivity].
Qed.

Lemma C10_no_self_friendship_witness :
  let db := Models.run [] Models.empty_db in
  let o := Models.Follow_create db (Models.mkFollow "a" "a" Models.ACCEPTED) in
  Models.raised o = Some (IntegrityError "no_self_friendship")
  /\ Models.follows_accepted (Models.follows (Models.after o)) "a" "a" = true
  /\ Models.friendships (Models.after o) = Models.friendships db.
Proof.
  exact (proj2 (proj2 C10_no_self_friendship) [] "a" eq_refl).
Defined.

(** ** The visibility filter *)

Section VisibilityFacts.
Import Models Entries.

Lemma visible_In db entries viewer e :
  In e (visible_to_author db entries viewer)
  <-> In e entries /\ visible_row db viewer e = true.
Proof. unfold visible_to_author. apply filter_In. Qed.

Lemma deleted_hidden db viewer e :
  visibility e = DELETED -> visible_row db viewer e = false.
Proof.
  intros H. unfold visible_row.
  destruct viewer; rewrite H; cbn; rewrite ?andb_false_r; reflexivity.
Qed.


End VisibilityFacts.

(** C6, as stated, fails: an UNLISTED entry is not returned to an
    authenticated viewer who is neither its author, nor an ACCEPTED
    follower, nor a friend of the author. *)
Lemma C6_unlisted_stranger_counterexample :
  ~ (forall (db : Models.DB) (entries : list Entries.Entry) (e : Entries.Entry)
            (viewer : option string),
        In e entries -> Entries.visibility e = Entries.UNLISTED ->
        In e (Entries.visible_to_author db entries viewer)).
Proof.
  intros H.
  pose (e := Entries.mkEntry "2" "http://n/api/authors/1/entries/2"
                             "http://n/api/authors/1" "t" "" "c" "text/plain"
                             Entries.UNLISTED "" "" "" None).
  specialize (H Models.empty_db [e] e (Some "http://n/api/authors/3")
                (or_introl eq_refl) eq_refl).
  cbv in H. exact H.
Qed.

(** C6, amended.  An UNLISTED entry is readable by its link by
    everyone: get_object lets the anonymous viewer and every
    authenticated viewer read it.  The listing query
    visible_to_author returns it to an authenticated viewer exactly
    when the viewer is the entry's author, follows the author with
    ACCEPTED status, or is in a Friendship row with the author. *)
Theorem C6_unlisted_visibility
        (db : Models.DB) (entries : list Entries.Entry) (e : Entries.Entry) :
  In e entries -> Entries.visibility e = Entries.UNLISTED ->
  (forall (is_staff : bool) (viewer : option string),
      Entries.get_object_read db is_staff viewer e = true)
  /\ (forall v : string,
         In e (Entries.visible_to_author db entries (Some v))
         <-> (Entries.author e = v
              \/ Models.follows_accepted (Models.follows db) v (Entries.author e) = true
              \/ Models.is_friend_with db v (Entries.author e) = true)).
Proof.
  intros Hin Hv. split.
  { intros is_staff viewer. unfold Entries.get_object_read. rewrite Hv.
    now destruct is_staff. }
  intros v. rewrite visible_In. unfold Entries.visible_row.
  rewrite Hv. cbn. rewrite !andb_true_r, !orb_false_r.
  unfold Entries.follower_exists, Entries.friendship_exists, Models.is_friend_with.
  split.
  - intros [_ H]. apply orb_prop in H as [H|H].
    + left. now apply String.eqb_eq.
    + apply orb_prop in H as [H|H]; auto.
  - intros H. split; [exact Hin|].
    destruct H as [H|[H|H]].
    + apply String.eqb_eq in H. now rewrite H.
    + rewrite H. now rewrite orb_true_r.
    + rewrite H. now rewrite !orb_true_r.
Qed.

Lemma C6_unlisted_visibility_witness :
  let e := Entries.mkEntry "2" "http://n/api/authors/1/entries/2"
                           "http://n/api/authors/1" "t" "" "c" "text/plain"
                           Entries.UNLISTED "" "" "" None in
  let db := Models.mkDB [Models.mkFollow "http://n/api/authors/3"
                                         "http://n/api/authors/1" Models.ACCEPTED] [] in
  Entries.get_object_read db false None e = true
  /\ In e (Entries.visible_to_author db [e] (Some "http://n/api/authors/3")).
Proof.
  intros e db.
  destruct (C6_unlisted_visibility db [e] e (or_introl eq_refl) eq_refl) as [H1 H2].
  split; [apply H1|]. apply H2. right; left. reflexivity.
Defined.




(** ** The Like table *)

Section LikeFacts.
Import Likes.

Lemma checks_one_target l :
  like_has_target l = true -> like_single_target l = true -> one_target l.
Proof.
  unfold like_has_target, like_single_target, one_target.
  destruct (entry l), (comment l); cbn; intros; try discriminate;
    [left | right]; split; congruence.
Qed.

Lemma with_url_fields S aid l :
  id (with_url S aid l) = id l /\ author (with_url S aid l) = author l
  /\ entry (with_url S aid l) = entry l /\ comment (with_url S aid l) = comment l.
Proof. unfold with_url. destruct (url l =? ""); cbn; auto. Qed.

Lemma filter_length_le {A} (p : A -> bool) (q : A -> bool) (t : list A) :
  List.length (filter p (filter q t)) <= List.length (filter p t).
Proof.
  induction t as [|x t IH]; cbn; [lia|].
  destruct (q x); cbn; destruct (p x); cbn; lia.
Qed.

Lemma NoDup_map_filter {A B} (f : A -> B) (q : A -> bool) (t : list A) :
  NoDup (map f t) -> NoDup (map f (filter q t)).
Proof.
  induction t as [|x t IH]; cbn; intros H; [constructor|].
  inversion H as [|? ? Hx Ht]; subst.
  destruct (q x); cbn; auto. constructor; auto.
  intros C. apply Hx. apply in_map_iff in C as [y [E Hy]].
  apply filter_In in Hy as [Hy _]. apply in_map_iff. eauto.
Qed.

Lemma id_filter_length (t : list Like) (i : string) :
  NoDup (map id t) -> List.length (filter (fun o => id o =? i) t) <= 1.
Proof.
  induction t as [|x t IH]; cbn; intros H; [lia|].
  inversion H as [|? ? Hx Ht]; subst.
  destruct (String.eqb_spec (id x) i) as [E|E]; cbn; auto.
  assert (Z : filter (fun o => id o =? i) t = []).
  { destruct (filter _ t) as [|y l'] eqn:F; [reflexivity|exfalso].
    assert (Hy : In y (filter (fun o => id o =? i) t)) by (rewrite F; now left).
    apply filter_In in Hy as [Hy1 Hy2]. apply String.eqb_eq in Hy2.
    apply Hx. apply in_map_iff. exists y. split; [congruence|exact Hy1]. }
  rewrite Z. cbn. lia.
Qed.

Lemma replace_filter_length (p : Like -> bool) (i : string) (l : Like) (t : list Like) :
  List.length (filter p (map (fun o => if id o =? i then l else o) t))
  = List.length (filter p (filter (fun o => negb (id o =? i)) t))
    + (if p l then List.length (filter (fun o => id o =? i) t) else 0).
Proof.
  induction t as [|x t IH]; cbn; [now destruct (p l)|].
  destruct (id x =? i); cbn.
  - destruct (p l) eqn:P; cbn; rewrite IH, ?P; lia.
  - destruct (p x); cbn; rewrite IH; lia.
Qed.

Lemma replace_ids (i : string) (l : Like) (t : list Like) :
  id l = i -> map id (map (fun o => if id o =? i then l else o) t) = map id t.
Proof.
  intros E. induction t as [|x t IH]; cbn; [reflexivity|].
  rewrite IH. destruct (String.eqb_spec (id x) i); congruence.
Qed.

(** A row that passed the unique checks has its (author, target)
    to itself among the other rows. *)
Lemma unique_checks_free others l a tgt :
  existsb (same_author_entry l) others = false ->
  existsb (same_author_comment l) others = false ->
  (author l =? a) && targets l tgt = true ->
  likes_of others a tgt = [].
Proof.
  intros He Hc Hl. unfold likes_of.
  destruct (filter _ others) as [|o r] eqn:F; [reflexivity|exfalso].
  assert (Ho : In o (filter (fun l0 => (author l0 =? a) && targets l0 tgt) others))
    by (rewrite F; now left).
  apply filter_In in Ho as [Hin Ho].
  apply andb_prop in Hl as [La Lt]. apply andb_prop in Ho as [Oa Ot].
  apply String.eqb_eq in La, Oa.
  destruct tgt as [e|c]; cbn in Lt, Ot.
  - assert (X : existsb (same_author_entry l) others = true).
    { apply existsb_exists. exists o. split; [exact Hin|].
      unfold same_author_entry. destruct (entry l) as [e'|]; [|discriminate].
      cbn in Lt. apply String.eqb_eq in Lt. subst e'.
      rewrite Ot, andb_true_r. apply String.eqb_eq. congruence. }
    congruence.
  - assert (X : existsb (same_author_comment l) others = true).
    { apply existsb_exists. exists o. split; [exact Hin|].
      unfold same_author_comment. destruct (comment l) as [c'|]; [|discriminate].
      cbn in Lt. apply String.eqb_eq in Lt. subst c'.
      rewrite Ot, andb_true_r. apply String.eqb_eq. congruence. }
    congruence.
Qed.

Lemma filter_id_absent (t : list Like) (i : string) :
  existsb (fun o => id o =? i) t = false ->
  filter (fun o => negb (id o =? i)) t = t.
Proof.
  induction t as [|x t IH]; cbn; [reflexivity|].
  intros H. apply orb_false_elim in H as [H1 H2].
  rewrite H1; cbn. now rewrite IH.
Qed.

Lemma save_inv S t adding aid l t' :
  like_inv t -> save S t adding aid l = Ok t' -> like_inv t'.
Proof.
  intros (Hnd & Hone & Hcnt) H. unfold save in H.
  destruct (with_url_fields S aid l) as (Ei & Ea & Ee & Ec).
  set (l' := with_url S aid l) in *.
  set (others := filter (fun o => negb (id o =? id l')) t) in *.
  unfold constraint_violated in H.
  destruct (like_has_target l') eqn:C1; cbn in H; [|discriminate].
  destruct (like_single_target l') eqn:C2; cbn in H; [|discriminate].
  destruct (existsb (fun o => url o =? url l') others); [discriminate|].
  destruct (existsb (same_author_entry l') others) eqn:C4; [discriminate|].
  destruct (existsb (same_author_comment l') others) eqn:C5; [discriminate|].
  assert (Hl : one_target l') by now apply checks_one_target.
  destruct (existsb (fun o => id o =? id l') t) eqn:Ex.
  - destruct adding; [discriminate|]. injection H as <-.
    split; [|split].
    + now rewrite replace_ids.
    + apply Forall_forall. intros x Hx. apply in_map_iff in Hx as [y [E Hy]].
      destruct (id y =? id l'); [now subst|].
      subst. rewrite Forall_forall in Hone. now apply Hone.
    + intros a tgt. unfold likes_of. rewrite replace_filter_length.
      fold others. fold (likes_of others a tgt).
      destruct ((author l' =? a) && targets l' tgt) eqn:M.
      * rewrite (unique_checks_free others l' a tgt C4 C5 M). cbn.
        now apply id_filter_length.
      * rewrite Nat.add_0_r. unfold likes_of, others.
        etransitivity; [apply filter_length_le | apply Hcnt].
  - injection H as <-.
    assert (Eo : others = t) by (apply filter_id_absent; exact Ex).
    rewrite Eo in C4, C5.
    split; [|split].
    + cbn. constructor; [|exact Hnd].
      intros C. apply in_map_iff in C as [y [E Hy]].
      assert (X : existsb (fun o => id o =? id l') t = true).
      { apply existsb_exists. exists y. split; [exact Hy|]. now apply String.eqb_eq. }
      congruence.
    + constructor; assumption.
    + intros a tgt. unfold likes_of. cbn [filter].
      destruct ((author l' =? a) && targets l' tgt) eqn:M.
      * pose proof (unique_checks_free t l' a tgt C4 C5 M) as Z.
        unfold likes_of in Z. rewrite Z. cbn. lia.
      * apply Hcnt.
Qed.

Lemma delete_inv t i : like_inv t -> like_inv (delete t i).
Proof.
  intros (Hnd & Hone & Hcnt). unfold delete. split; [|split].
  - now apply NoDup_map_filter.
  - rewrite Forall_forall in *. intros x Hx. apply filter_In in Hx as [Hx _]. auto.
  - intros a tgt. unfold likes_of.
    etransitivity; [apply filter_length_le | apply Hcnt].
Qed.

Lemma run_inv S ws : forall t, like_inv t -> like_inv (run S ws t).
Proof.
  unfold run. induction ws as [|w ws IH]; intros t Ht; cbn; [exact Ht|].
  apply IH. destruct w as [adding aid l|i]; cbn.
  - destruct (save S t adding aid l) eqn:E; [eapply save_inv; eauto | exact Ht].
  - now apply delete_inv.
Qed.

End LikeFacts.

(** C8.  Saving a Like with both an entry and a comment target, or
    with neither, raises an integrity error and stores nothing; in
    every table reached from the empty one by saves and deletes each
    row has exactly one of the two targets set, and for every author
    and target at most one row exists. *)
Theorem C8_like_exclusivity :
  (forall SITE_URL table adding author_id l,
      (Likes.entry l <> None /\ Likes.comment l <> None)
      \/ (Likes.entry l = None /\ Likes.comment l = None) ->
      exists c, Likes.save SITE_URL table adding author_id l
                = Raise (IntegrityError c))
  /\ (forall SITE_URL (ws : list Likes.LikeOp),
         let table := Likes.run SITE_URL ws [] in
         Forall (fun l => (Likes.entry l <> None /\ Likes.comment l = None)
                          \/ (Likes.entry l = None /\ Likes.comment l <> None)) table
         /\ forall a tgt, List.length (Likes.likes_of table a tgt) <= 1).
Proof.
  split.
  - intros S t adding aid l H. unfold Likes.save, Likes.constraint_violated.
    destruct (with_url_fields S aid l) as (_ & _ & Ee & Ec).
    unfold Likes.like_has_target, Likes.like_single_target. rewrite Ee, Ec.
    destruct H as [[He Hc]|[He Hc]].
    + destruct (Likes.entry l); [|congruence].
      destruct (Likes.comment l); [|congruence]. cbn. eauto.
    + rewrite He, Hc. cbn. eauto.
  - intros S ws table.
    assert (H : Likes.like_inv table).
    { apply run_inv. split; [constructor|]. split; [constructor|].
      intros a tgt. cbn. lia. }
    destruct H as (_ & H1 & H2). split; [exact H1 | exact H2].
Qed.

Lemma C8_like_exclusivity_witness :
  exists c, Likes.save "http://n" [] true "1"
                       (Likes.mkLike "7" "" "http://n/api/authors/1"
                                     (Some "http://n/e") (Some "http://n/c"))
            = Raise (IntegrityError c).
Proof.
  apply (proj1 C8_like_exclusivity).
  left. split; discriminate.
Defined.

(** ** Strings *)

Section PyStrFacts.
Import PyStr.

Lemma break_spec (p : ascii -> bool) (s a b : str) :
  break p s = (a, b) ->
  s = a ++ b /\ Forall (fun c => p c = false) a
  /\ (b = [] \/ exists c r, b = c :: r /\ p c = true).
Proof.
  revert a b. induction s as [|x s IH]; cbn; intros a b H.
  - injection H as <- <-. auto.
  - destruct (p x) eqn:Px.
    + injection H as <- <-. repeat split; auto. right. eauto.
    + destruct (break p s) as [a' b'] eqn:E. injection H as <- <-.
      destruct (IH _ _ eq_refl) as (-> & Fa & Hb).
      repeat split; auto.
Qed.

Lemma break_app (p : ascii -> bool) (a b : str) :
  Forall (fun c => p c = false) a ->
  (b = [] \/ exists c r, b = c :: r /\ p c = true) ->
  break p (a ++ b) = (a, b).
Proof.
  intros Fa Hb. induction Fa as [|x a Px Fa IH]; cbn.
  - destruct Hb as [->|(c & r & -> & Pc)]; cbn; [reflexivity|]. now rewrite Pc.
  - now rewrite Px, IH.
Qed.

Lemma partition_found (sep : ascii) (a b : str) :
  Forall (fun c => Ascii.eqb sep c = false) a ->
  partition sep (a ++ sep :: b) = (a, true, b).
Proof.
  intros Fa. unfold partition. rewrite break_app; auto.
  right. exists sep, b. split; [reflexivity|apply Ascii.eqb_refl].
Qed.

Lemma partition_none (sep : ascii) (s : str) :
  Forall (fun c => Ascii.eqb sep c = false) s ->
  partition sep s = (s, false, []).
Proof.
  intros Fs. unfold partition.
  rewrite <- (app_nil_r s) at 1. rewrite break_app; auto.
Qed.

Lemma partition_spec (sep : ascii) (s a b : str) (found : bool) :
  partition sep s = (a, found, b) ->
  if found
  then s = a ++ sep :: b /\ Forall (fun c => Ascii.eqb sep c = false) a
  else a = s /\ b = [] /\ Forall (fun c => Ascii.eqb sep c = false) s.
Proof.
  unfold partition. destruct (break (Ascii.eqb sep) s) as [x y] eqn:E.
  apply break_spec in E as (-> & Fx & Hy).
  destruct y as [|c r]; intros H; injection H as <- <- <-.
  - rewrite app_nil_r. auto.
  - destruct Hy as [Hy|(c' & r' & Hy & Pc)]; [discriminate|].
    injection Hy as <- <-. apply Ascii.eqb_eq in Pc. subst. auto.
Qed.

Lemma Forall_rev_iff {A} (P : A -> Prop) (l : list A) :
  Forall P (List.rev l) <-> Forall P l.
Proof.
  rewrite !Forall_forall. split; intros H x Hx; apply H.
  - now apply in_rev in Hx.
  - now apply in_rev.
Qed.

Lemma rpartition_found (sep : ascii) (a b : str) :
  Forall (fun c => Ascii.eqb sep c = false) b ->
  rpartition sep (a ++ sep :: b) = (a, true, b).
Proof.
  intros Fb. unfold rpartition.
  rewrite rev_app_distr. cbn. rewrite <- app_assoc. cbn.
  rewrite break_app.
  - now rewrite !rev_involutive.
  - now apply Forall_rev_iff.
  - right. exists sep, (List.rev a). split; [reflexivity|apply Ascii.eqb_refl].
Qed.

Lemma rpartition_none (sep : ascii) (s : str) :
  Forall (fun c => Ascii.eqb sep c = false) s ->
  rpartition sep s = ([], false, s).
Proof.
  intros Fs. unfold rpartition.
  rewrite <- (app_nil_r (List.rev s)). rewrite break_app; auto.
  now apply Forall_rev_iff.
Qed.

Lemma rpartition_spec (sep : ascii) (s a b : str) (found : bool) :
  rpartition sep s = (a, found, b) ->
  if found
  then s = a ++ sep :: b /\ Forall (fun c => Ascii.eqb sep c = false) b
  else a = [] /\ b = s /\ Forall (fun c => Ascii.eqb sep c = false) s.
Proof.
  unfold rpartition. destruct (break (Ascii.eqb sep) (List.rev s)) as [x y] eqn:E.
  apply break_spec in E as (E & Fx & Hy).
  destruct y as [|c r]; intros H; injection H as <- <- <-.
  - rewrite app_nil_r in E. subst x. split; [reflexivity|]. split; [reflexivity|].
    now apply Forall_rev_iff.
  - destruct Hy as [Hy|(c' & r' & Hy & Pc)]; [discriminate|].
    injection Hy as <- <-. apply Ascii.eqb_eq in Pc. subst c.
    split.
    + rewrite <- (rev_involutive s), E, rev_app_distr. cbn.
      now rewrite <- app_assoc.
    + now apply Forall_rev_iff.
Qed.

Lemma contains_false (sep : ascii) (s : str) :
  contains sep s = false <-> Forall (fun c => Ascii.eqb sep c = false) s.
Proof.
  unfold contains. induction s as [|x s IH]; cbn.
  - split; auto.
  - rewrite orb_false_iff, IH. split.
    + intros [H1 H2]. now constructor.
    + intros H. inversion H; subst. auto.
Qed.

Lemma rstrip_cons (c x : ascii) (t : str) :
  rstrip c (x :: t) = [] \/ exists r, rstrip c (x :: t) = x :: r.
Proof.
  cbn. destruct (rstrip c t); [destruct (Ascii.eqb x c)|]; eauto.
Qed.

Lemma rstrip_idem (c : ascii) (s : str) : rstrip c (rstrip c s) = rstrip c s.
Proof.
  induction s as [|x t IH]; cbn; [reflexivity|].
  destruct (rstrip c t) as [|y r] eqn:E.
  - destruct (Ascii.eqb x c) eqn:X; cbn; [reflexivity|]. now rewrite X.
  - cbn [rstrip]. cbn [rstrip] in IH. rewrite IH. reflexivity.
Qed.

Lemma rstrip_Forall (P : ascii -> Prop) (c : ascii) (s : str) :
  Forall P s -> Forall P (rstrip c s).
Proof.
  induction 1 as [|x t Px Ft IH]; cbn; [constructor|].
  destruct (rstrip c t); [destruct (Ascii.eqb x c)|]; auto.
Qed.

Lemma str_eqb_eq (s t : str) : str_eqb s t = true <-> s = t.
Proof.
  revert t. induction s as [|c s IH]; destruct t as [|d t]; cbn;
    try (split; [discriminate|discriminate]); [tauto|].
  rewrite andb_true_iff, Ascii.eqb_eq, IH. split.
  - intros [-> ->]; reflexivity.
  - intros H; injection H; auto.
Qed.

End PyStrFacts.

(** ** Characters *)

Section CharFacts.
Import PyStr UrlLib.

Ltac ascii_cases c :=
  destruct c as [[] [] [] [] [] [] [] []]; vm_compute;
  intros; try reflexivity; try discriminate.

Lemma lower_char_idem (c : ascii) : lower_char (lower_char c) = lower_char c.
Proof. ascii_cases c. Qed.

Lemma lower_idem (s : str) : lower (lower s) = lower s.
Proof.
  unfold lower. rewrite map_map. apply map_ext. intros c. apply lower_char_idem.
Qed.

Lemma lower_app (s t : str) : lower (s ++ t) = lower s ++ lower t.
Proof. unfold lower. apply map_app. Qed.

Lemma lower_char_alpha (c : ascii) : is_alpha (lower_char c) = is_alpha c.
Proof. ascii_cases c. Qed.

Lemma lower_char_scheme (c : ascii) : scheme_char (lower_char c) = scheme_char c.
Proof. ascii_cases c. Qed.

Lemma lower_char_upper (c : ascii) :
  is_upper c = true -> is_alpha c = true /\ is_alpha (lower_char c) = true.
Proof. ascii_cases c; split; reflexivity. Qed.

Lemma lower_char_other (c : ascii) : is_upper c = false -> lower_char c = c.
Proof. unfold lower_char. now intros ->. Qed.

(** Lower-casing never produces, nor removes, a character that is
    not a letter. *)
Lemma lower_char_neq (x c : ascii) :
  is_alpha x = false ->
  Ascii.eqb x (lower_char c) = Ascii.eqb x c.
Proof.
  intros Hx. destruct (is_upper c) eqn:U.
  - destruct (lower_char_upper c U) as [A1 A2].
    assert (E1 : Ascii.eqb x (lower_char c) = false).
    { apply Ascii.eqb_neq. intros ->. congruence. }
    assert (E2 : Ascii.eqb x c = false).
    { apply Ascii.eqb_neq. intros ->. congruence. }
    congruence.
  - now rewrite lower_char_other.
Qed.

Lemma lower_Forall_neq (x : ascii) (s : str) :
  is_alpha x = false ->
  Forall (fun c => Ascii.eqb x c = false) s ->
  Forall (fun c => Ascii.eqb x c = false) (lower s).
Proof.
  intros Hx F. unfold lower. apply Forall_map.
  eapply Forall_impl; [|exact F]. cbn. intros c Hc. now rewrite lower_char_neq.
Qed.

Lemma scheme_char_facts (c : ascii) :
  scheme_char c = true ->
  Ascii.eqb ":" c = false /\ unsafe_byte c = false.
Proof. ascii_cases c; split; reflexivity. Qed.

Lemma alpha_not_space (c : ascii) :
  is_alpha c = true -> c0_control_or_space c = false.
Proof. ascii_cases c. Qed.

Lemma digit_facts (c : ascii) :
  is_digit c = true ->
  unsafe_byte c = false /\ netloc_delim c = false
  /\ Ascii.eqb "[" c = false /\ Ascii.eqb "]" c = false
  /\ Ascii.eqb "@" c = false /\ Ascii.eqb ":" c = false.
Proof. ascii_cases c; repeat split. Qed.

Lemma netloc_delim_false (c : ascii) :
  netloc_delim c = false <->
  Ascii.eqb "/" c = false /\ Ascii.eqb "?" c = false /\ Ascii.eqb "#" c = false.
Proof.
  unfold netloc_delim. rewrite !orb_false_iff, !(Ascii.eqb_sym c). tauto.
Qed.

Lemma unsafe_byte_false (c : ascii) :
  unsafe_byte c = false <->
  Ascii.eqb "009" c = false /\ Ascii.eqb "013" c = false /\ Ascii.eqb "010" c = false.
Proof.
  unfold unsafe_byte. rewrite !orb_false_iff, !(Ascii.eqb_sym c). tauto.
Qed.

Lemma lower_Forall_safe (s : str) :
  Forall (fun c => unsafe_byte c = false) s ->
  Forall (fun c => unsafe_byte c = false) (lower s).
Proof.
  intros F. unfold lower. apply Forall_map.
  eapply Forall_impl; [|exact F]. cbn. intros c Hc.
  apply unsafe_byte_false in Hc as (H1 & H2 & H3).
  apply unsafe_byte_false. rewrite !lower_char_neq by reflexivity. auto.
Qed.

Lemma lower_Forall_delim (s : str) :
  Forall (fun c => netloc_delim c = false) s ->
  Forall (fun c => netloc_delim c = false) (lower s).
Proof.
  intros F. unfold lower. apply Forall_map.
  eapply Forall_impl; [|exact F]. cbn. intros c Hc.
  apply netloc_delim_false in Hc as (H1 & H2 & H3).
  apply netloc_delim_false. rewrite !lower_char_neq by reflexivity. auto.
Qed.

Lemma filter_safe_id (s : str) :
  Forall (fun c => unsafe_byte c = false) s ->
  filter (fun c => negb (unsafe_byte c)) s = s.
Proof.
  induction 1 as [|x s Hx F IH]; cbn; [reflexivity|]. now rewrite Hx, IH.
Qed.

Lemma filter_safe (s : str) :
  Forall (fun c => unsafe_byte c = false) (filter (fun c => negb (unsafe_byte c)) s).
Proof.
  apply Forall_forall. intros c Hc. apply filter_In in Hc as [_ Hc].
  now apply negb_true_iff.
Qed.

End CharFacts.

(** ** The parser *)

Section UrlParseFacts.
Import PyStr UrlLib UrlUtils.

Local Abbreviation safe := (fun c : ascii => unsafe_byte c = false).
Local Abbreviation avoids x := (fun c : ascii => Ascii.eqb x c = false).

Lemma lower_valid_scheme (c : ascii) (pre : str) :
  is_alpha c = true -> forallb scheme_char (c :: pre) = true ->
  valid_scheme (lower (c :: pre)).
Proof.
  intros A F. exists (lower_char c), (lower pre).
  split; [reflexivity|]. split; [now rewrite lower_char_alpha|]. split.
  - unfold lower. rewrite forallb_forall in *. intros x Hx.
    apply in_map_iff in Hx as [y [<- Hy]]. rewrite lower_char_scheme. auto.
  - apply lower_idem.
Qed.

Lemma split_scheme_spec (P : ascii -> Prop) (u s r : str) :
  split_scheme u = (s, r) -> Forall P u ->
  Forall P r /\ (s = [] \/ valid_scheme s).
Proof.
  unfold split_scheme. destruct (break (Ascii.eqb ":") u) as [a b] eqn:E.
  apply break_spec in E as (-> & _ & _). intros H F.
  destruct a as [|c pre]; [injection H as <- <-; auto|].
  destruct b as [|colon rest]; [injection H as <- <-; auto|].
  destruct (is_alpha c && forallb scheme_char (c :: pre)) eqn:C.
  - injection H as <- <-. apply andb_prop in C as [C1 C2]. split.
    + apply Forall_app in F as [_ F]. now inversion F.
    + right. now apply lower_valid_scheme.
  - injection H as <- <-. auto.
Qed.

Lemma split_netloc_spec (P : ascii -> Prop) (u nl r : str) :
  split_netloc u = Ok (nl, r) -> Forall P u ->
  Forall P nl /\ Forall P r
  /\ Forall (fun c => netloc_delim c = false) nl /\ bracket_mismatch nl = false.
Proof.
  unfold split_netloc. intros H F.
  assert (D : Ok (@nil ascii, u) = Ok (nl, r) ->
              Forall P nl /\ Forall P r
              /\ Forall (fun c => netloc_delim c = false) nl
              /\ bracket_mismatch nl = false).
  { intros X. injection X as <- <-. repeat split; auto. }
  destruct u as [|c1 u]; [auto|].
  destruct (Ascii.eqb_spec c1 "/") as [->|N1];
    [|destruct c1 as [[] [] [] [] [] [] [] []]; try (now apply D); now elim N1].
  destruct u as [|c2 u]; [now apply D|].
  destruct (Ascii.eqb_spec c2 "/") as [->|N2];
    [|destruct c2 as [[] [] [] [] [] [] [] []]; try (now apply D); now elim N2].
  clear D. destruct (break netloc_delim u) as [a b] eqn:E.
  apply break_spec in E as (-> & Fa & _).
  destruct (bracket_mismatch a) eqn:B; [discriminate|].
  injection H as <- <-. inversion F as [|? ? _ F1]; subst.
  inversion F1 as [|? ? _ F2]; subst. apply Forall_app in F2 as [F3 F4]. auto.
Qed.

Lemma split_once_spec (P : ascii -> Prop) (sep : ascii) (u a b : str) :
  split_once sep u = (a, b) -> Forall P u ->
  Forall P a /\ Forall P b /\ Forall (avoids sep) a.
Proof.
  unfold split_once. destruct (partition sep u) as [[x found] y] eqn:E.
  apply partition_spec in E. intros H F. destruct found.
  - injection H as <- <-. destruct E as [-> Fx].
    apply Forall_app in F as [F1 F2]. inversion F2; subst. auto.
  - injection H as <- <-. destruct E as (_ & _ & Fs). auto.
Qed.

Lemma splitparams_spec (P : ascii -> Prop) (u a b : str) :
  _splitparams u = (a, b) -> Forall P u -> Forall P a /\ Forall P b.
Proof.
  unfold _splitparams. intros H F.
  destruct (rpartition "/" u) as [[d found] seg] eqn:E.
  apply rpartition_spec in E. destruct found.
  - destruct E as [-> _]. apply Forall_app in F as [F1 F2].
    inversion F2 as [|? ? Fs F3]; subst.
    destruct (partition ";" seg) as [[x f2] y] eqn:E2.
    apply partition_spec in E2. destruct f2.
    + injection H as <- <-. destruct E2 as [-> _].
      apply Forall_app in F3 as [F4 F5]. inversion F5; subst.
      split; [|assumption]. apply Forall_app. split; [assumption|].
      constructor; assumption.
    + injection H as <- <-. split; [|constructor].
      apply Forall_app. split; [assumption|]. now constructor.
  - destruct (partition ";" u) as [[x f2] y] eqn:E2.
    apply partition_spec in E2. destruct f2.
    + injection H as <- <-. destruct E2 as [-> _].
      apply Forall_app in F as [F4 F5]. inversion F5; subst. auto.
    + injection H as <- <-. auto.
Qed.

(** What [urlparse] guarantees about the parts it returns. *)
Lemma urlparse_spec (u : str) (p : ParseResult) :
  urlparse u = Ok p ->
  (scheme p = [] \/ valid_scheme (scheme p))
  /\ Forall safe (netloc p) /\ Forall (fun c => netloc_delim c = false) (netloc p)
  /\ bracket_mismatch (netloc p) = false
  /\ Forall safe (path p) /\ Forall (avoids "#"%char) (path p)
  /\ Forall (avoids "?"%char) (path p)
  /\ Forall safe (query p) /\ Forall (avoids "#"%char) (query p)
  /\ Forall safe (fragment p).
Proof.
  unfold urlparse.
  set (u1 := filter (fun c => negb (unsafe_byte c)) (lstrip c0_control_or_space u)).
  assert (F1 : Forall safe u1) by apply filter_safe.
  destruct (split_scheme u1) as [sch r1] eqn:E1.
  destruct (split_scheme_spec safe _ _ _ E1 F1) as [F2 Hs].
  destruct (split_netloc r1) as [[nl r2]|e] eqn:E2; [|discriminate]. cbn [bind].
  destruct (split_netloc_spec safe _ _ _ E2 F2) as (Fn & F3 & Fd & Fb).
  destruct (split_once "#" r2) as [r3 fr] eqn:E3.
  destruct (split_once_spec safe _ _ _ _ E3 F3) as (F4 & Ff & Fh).
  destruct (split_once "?" r3) as [r4 qu] eqn:E4.
  assert (F4' : Forall (fun c => safe c /\ avoids "#"%char c) r3).
  { apply Forall_and; assumption. }
  destruct (split_once_spec _ _ _ _ _ E4 F4') as (F5 & Fq & Fqm).
  assert (F5' : Forall (fun c => (safe c /\ avoids "#"%char c) /\ avoids "?"%char c) r4).
  { apply Forall_and; assumption. }
  destruct (if in_uses_params sch && contains ";" r4 then _splitparams r4 else (r4, []))
    as [pa prm] eqn:E5.
  assert (F6 : Forall (fun c => (safe c /\ avoids "#"%char c) /\ avoids "?"%char c) pa).
  { destruct (in_uses_params sch && contains ";" r4).
    - now destruct (splitparams_spec _ _ _ _ E5 F5').
    - now injection E5 as <- <-. }
  intros H. injection H as <-. cbn.
  split; [exact Hs|]. split; [exact Fn|]. split; [exact Fd|]. split; [exact Fb|].
  split; [eapply Forall_impl; [|exact F6]; cbn; tauto|].
  split; [eapply Forall_impl; [|exact F6]; cbn; tauto|].
  split; [eapply Forall_impl; [|exact F6]; cbn; tauto|].
  split; [eapply Forall_impl; [|exact Fq]; cbn; tauto|].
  split; [eapply Forall_impl; [|exact Fq]; cbn; tauto|].
  exact Ff.
Qed.

Lemma assemble_eq (sch nl pa q f : str) :
  assemble sch nl pa q f
  = sch ++ ":"%char :: "/"%char :: "/"%char ::
        nl ++ (pa ++ match q with [] => [] | _ => "?"%char :: q end)
           ++ match f with [] => [] | _ => "#"%char :: f end.
Proof.
  unfold assemble, lit. cbn [list_ascii_of_string].
  destruct q, f; cbn [app]; rewrite ?app_nil_r, <- ?app_assoc; cbn [app];
    rewrite <- ?app_assoc; reflexivity.
Qed.

Lemma lstrip_head (p : ascii -> bool) (c : ascii) (t : str) :
  p c = false -> lstrip p (c :: t) = c :: t.
Proof. intros H. cbn. now rewrite H. Qed.

(** Parsing a URL put together from well-formed parts gives the
    parts back. *)
Lemma urlparse_assemble (sch nl pa q f : str) :
  valid_scheme sch ->
  Forall safe nl -> Forall (fun c => netloc_delim c = false) nl ->
  bracket_mismatch nl = false ->
  (pa = [] \/ exists r, pa = "/"%char :: r) ->
  Forall safe pa -> Forall (avoids "#"%char) pa -> Forall (avoids "?"%char) pa ->
  (in_uses_params sch && contains ";" pa = true -> _splitparams pa = (pa, [])) ->
  Forall safe q -> Forall (avoids "#"%char) q -> Forall safe f ->
  urlparse (assemble sch nl pa q f) = Ok (mkParseResult sch nl pa [] q f).
Proof.
  intros (c & pre & Es & Ac & Fs & Ls) Sn Dn Bn Hpa Sp Hp Qp Prm Sq Hq Sf.
  rewrite assemble_eq. subst sch.
  set (qpart := match q with [] => [] | _ => "?"%char :: q end).
  set (fpart := match f with [] => [] | _ => "#"%char :: f end).
  assert (Fsch : Forall (fun x => Ascii.eqb ":" x = false /\ unsafe_byte x = false)
                        (c :: pre)).
  { apply Forall_forall. intros x Hx. apply scheme_char_facts.
    rewrite forallb_forall in Fs. now apply Fs. }
  assert (Sqp : Forall safe qpart).
  { unfold qpart. destruct q; [constructor|]. constructor; [reflexivity|exact Sq]. }
  assert (Sfp : Forall safe fpart).
  { unfold fpart. destruct f; [constructor|]. constructor; [reflexivity|exact Sf]. }
  assert (Sall : Forall safe
            ((c :: pre) ++ ":"%char :: "/"%char :: "/"%char :: nl ++ (pa ++ qpart) ++ fpart)).
  { apply Forall_app. split; [eapply Forall_impl; [|exact Fsch]; cbn; tauto|].
    repeat (constructor; [reflexivity|]).
    repeat (apply Forall_app; split); assumption. }
  unfold urlparse.
  assert (L : lstrip c0_control_or_space
                ((c :: pre) ++ ":"%char :: "/"%char :: "/"%char :: nl ++ (pa ++ qpart) ++ fpart)
              = (c :: pre) ++ ":"%char :: "/"%char :: "/"%char :: nl ++ (pa ++ qpart) ++ fpart).
  { cbn [app]. apply lstrip_head. now apply alpha_not_space. }
  rewrite L, (filter_safe_id _ Sall).
  assert (E1 : split_scheme
                 ((c :: pre) ++ ":"%char :: "/"%char :: "/"%char :: nl ++ (pa ++ qpart) ++ fpart)
               = (c :: pre, "/"%char :: "/"%char :: nl ++ (pa ++ qpart) ++ fpart)).
  { unfold split_scheme. rewrite break_app.
    - rewrite Ac, Fs. cbn [andb]. now rewrite Ls.
    - eapply Forall_impl; [|exact Fsch]; cbn; tauto.
    - right. eexists _, _. split; [reflexivity|reflexivity]. }
  rewrite E1.
  assert (E2 : split_netloc ("/"%char :: "/"%char :: nl ++ (pa ++ qpart) ++ fpart)
               = Ok (nl, (pa ++ qpart) ++ fpart)).
  { unfold split_netloc. rewrite break_app; [now rewrite Bn|exact Dn|].
    destruct Hpa as [->|(r & ->)]; [|right; eexists _, _; split; reflexivity].
    unfold qpart, fpart. destruct q; [|right; eexists _, _; split; reflexivity].
    destruct f; [left; reflexivity|right; eexists _, _; split; reflexivity]. }
  rewrite E2. cbn [bind].
  assert (Hqp : Forall (avoids "#"%char) (pa ++ qpart)).
  { apply Forall_app. split; [exact Hp|]. unfold qpart.
    destruct q; [constructor|]. constructor; [reflexivity|exact Hq]. }
  assert (E3 : split_once "#" ((pa ++ qpart) ++ fpart) = (pa ++ qpart, f)).
  { unfold split_once, fpart. destruct f as [|f0 f'].
    - rewrite app_nil_r, partition_none; auto.
    - rewrite partition_found; auto. }
  rewrite E3.
  assert (E4 : split_once "?" (pa ++ qpart) = (pa, q)).
  { unfold split_once, qpart. destruct q as [|q0 q'].
    - rewrite app_nil_r, partition_none; auto.
    - rewrite partition_found; auto. }
  rewrite E4.
  destruct (in_uses_params (c :: pre) && contains ";" pa) eqn:U.
  - now rewrite (Prm eq_refl).
  - reflexivity.
Qed.

End UrlParseFacts.

(** ** The network location *)

Section NetlocFacts.
Import PyStr UrlLib UrlUtils.

Local Abbreviation avoids x := (fun c : ascii => Ascii.eqb x c = false).

Lemma int_of_digits_of_int (n : N) : int_of_digits (digits_of_int n) = Some n.
Proof.
  unfold int_of_digits, digits_of_int.
  rewrite string_of_list_ascii_of_string, NilEmpty.usu. cbn.
  now rewrite DecimalN.Unsigned.of_to.
Qed.

Lemma digits_of_int_nonempty (n : N) : digits_of_int n <> [].
Proof.
  intros E. pose proof (int_of_digits_of_int n) as H. rewrite E in H.
  cbn in H. injection H as <-. discriminate.
Qed.

Lemma string_of_uint_digits (d : Decimal.uint) :
  Forall (fun c => is_digit c = true)
         (list_ascii_of_string (NilEmpty.string_of_uint d)).
Proof.
  induction d; cbn; constructor; try reflexivity; assumption.
Qed.

Lemma digits_of_int_digits (n : N) :
  Forall (fun c => is_digit c = true) (digits_of_int n).
Proof. apply string_of_uint_digits. Qed.

Lemma accessors_assemble (sch pa pr q f h : str) (po : option N)
      (un pw : option str) :
  Forall (avoids "@"%char) h -> Forall (avoids ":"%char) h ->
  Forall (avoids "["%char) h ->
  (truthy_str un = true -> Forall (avoids ":"%char) (or_empty un)) ->
  let p' := mkParseResult sch (assemble_netloc h po un pw) pa pr q f in
  _hostinfo p' = (h, option_map digits_of_int (shown_port po))
  /\ username p' = (if truthy_str un then un else None)
  /\ password p' = (if truthy_str un && truthy_str pw then pw else None).
Proof.
  intros Hat Hco Hbr Hun p'.
  set (pp := match shown_port po with
             | Some n => ":"%char :: digits_of_int n
             | None => []
             end).
  assert (Enl : match po with
                | Some n => if (n =? 0)%N then h else h ++ ":"%char :: digits_of_int n
                | None => h
                end = h ++ pp).
  { unfold pp, shown_port. destruct po as [n|]; [destruct (n =? 0)%N|];
      now rewrite ?app_nil_r. }
  assert (Dg : forall n, Forall (avoids "@"%char) (digits_of_int n)
                         /\ Forall (avoids "["%char) (digits_of_int n)).
  { intros n. split; (eapply Forall_impl; [|apply digits_of_int_digits]);
      cbn; intros c Hc; now destruct (digit_facts c Hc) as (_ & _ & ? & ? & ? & ?). }
  assert (Fat : Forall (avoids "@"%char) (h ++ pp)).
  { apply Forall_app. split; [exact Hat|]. unfold pp.
    destruct (shown_port po); [|constructor].
    constructor; [reflexivity|apply Dg]. }
  assert (Fbr : Forall (avoids "["%char) (h ++ pp)).
  { apply Forall_app. split; [exact Hbr|]. unfold pp.
    destruct (shown_port po); [|constructor].
    constructor; [reflexivity|apply Dg]. }
  assert (Hhost : forall x,
             (let '(_, have_open_br, bracketed) := partition "[" (h ++ pp) in
              let '(hostname, port) :=
                if have_open_br then
                  let '(hostname, _, port) := partition "]" bracketed in
                  let '(_, _, port) := partition ":" port in (hostname, port)
                else
                  let '(hostname, _, port) := partition ":" (h ++ pp) in
                  (hostname, port) in
              (hostname, match port with [] => None | _ => Some port end))
             = x -> x = (h, option_map digits_of_int (shown_port po))).
  { intros x <-. rewrite (partition_none _ _ Fbr). cbv beta iota.
    unfold pp. destruct (shown_port po) as [n|]; cbn [option_map].
    - rewrite (partition_found _ _ _ Hco).
      destruct (digits_of_int n) eqn:E; [now apply digits_of_int_nonempty in E|].
      reflexivity.
    - rewrite app_nil_r, (partition_none _ _ Hco). reflexivity. }
  unfold username, password, _userinfo, _hostinfo, p'. cbn [netloc].
  unfold assemble_netloc. rewrite Enl.
  destruct (truthy_str un) eqn:Tu.
  - destruct un as [[|u0 u]|]; try discriminate. cbn [or_empty] in *.
    specialize (Hun eq_refl).
    destruct (truthy_str pw) eqn:Tp.
    + destruct pw as [[|w0 w]|]; try discriminate. cbn [or_empty].
      replace ((u0 :: u) ++ ":"%char :: (w0 :: w) ++ "@"%char :: h ++ pp)
        with (((u0 :: u) ++ ":"%char :: (w0 :: w)) ++ "@"%char :: (h ++ pp))
        by (now rewrite <- app_assoc).
      rewrite (rpartition_found _ _ _ Fat), (partition_found _ _ _ Hun).
      cbn [fst snd andb]. split; [|split; reflexivity].
      now apply Hhost.
    + rewrite (rpartition_found _ _ _ Fat), (partition_none _ _ Hun).
      cbn [fst snd andb]. split; [|split; reflexivity].
      now apply Hhost.
  - rewrite (rpartition_none _ _ Fat). cbn [fst snd andb].
    split; [|split; reflexivity]. now apply Hhost.
Qed.

(** The accessors on a parsed location without brackets. *)
Lemma accessors_spec (Q : ascii -> Prop) (p : ParseResult) :
  contains "[" (netloc p) = false -> Forall Q (netloc p) ->
  Forall Q (fst (_hostinfo p))
  /\ Forall (avoids "@"%char) (fst (_hostinfo p))
  /\ Forall (avoids ":"%char) (fst (_hostinfo p))
  /\ Forall (avoids "["%char) (fst (_hostinfo p))
  /\ Forall Q (or_empty (username p)) /\ Forall (avoids ":"%char) (or_empty (username p))
  /\ Forall Q (or_empty (password p)).
Proof.
  intros Hbr FQ. apply contains_false in Hbr.
  unfold username, password, _userinfo, _hostinfo.
  destruct (rpartition "@" (netloc p)) as [[ui fnd] hi] eqn:E.
  apply rpartition_spec in E.
  assert (X : Forall Q hi /\ Forall (avoids "@"%char) hi /\ Forall (avoids "["%char) hi
              /\ Forall Q ui
              /\ (fnd = false -> ui = [])).
  { destruct fnd.
    - destruct E as [E Fh]. rewrite E in FQ, Hbr.
      apply Forall_app in FQ as [F1 F2]. inversion F2; subst.
      apply Forall_app in Hbr as [B1 B2]. inversion B2; subst.
      repeat split; auto. discriminate.
    - destruct E as (-> & -> & Fh). repeat split; auto. }
  destruct X as (Qh & Ah & Bh & Qu & Eu).
  rewrite (partition_none _ _ Bh).
  destruct (partition ":" hi) as [[h f1] po] eqn:E1. apply partition_spec in E1.
  assert (Y : Forall Q h /\ Forall (avoids "@"%char) h /\ Forall (avoids ":"%char) h
              /\ Forall (avoids "["%char) h).
  { destruct f1.
    - destruct E1 as [-> Fc]. apply Forall_app in Qh as [? _].
      apply Forall_app in Ah as [? _]. apply Forall_app in Bh as [? _]. auto.
    - destruct E1 as (-> & _ & Fc). auto. }
  destruct Y as (Y1 & Y2 & Y3 & Y4). cbn [fst].
  split; [exact Y1|]. split; [exact Y2|]. split; [exact Y3|]. split; [exact Y4|].
  destruct fnd.
  - destruct (partition ":" ui) as [[un f2] pw] eqn:E2. apply partition_spec in E2.
    destruct f2.
    + destruct E2 as [-> Fc]. apply Forall_app in Qu as [Q1 Q2].
      inversion Q2; subst. cbn. auto.
    + destruct E2 as (-> & -> & Fc). cbn. auto.
  - cbn. auto.
Qed.

Lemma normalized_hostname_eq (p : ParseResult) :
  normalized_hostname p = lower (fst (_hostinfo p)).
Proof.
  unfold normalized_hostname, hostname.
  destruct (fst (_hostinfo p)) as [|c h] eqn:E; [reflexivity|].
  destruct (partition "%" (c :: h)) as [[a f1] z] eqn:E1.
  apply partition_spec in E1. destruct f1.
  - destruct E1 as [-> _]. now rewrite !lower_app, lower_idem.
  - destruct E1 as (-> & _ & _). now rewrite app_nil_r, lower_idem.
Qed.

Lemma port_bound (p : ParseResult) (n : N) :
  port p = Ok (Some n) -> (n <=? 65535)%N = true.
Proof.
  unfold port. destruct (snd (_hostinfo p)); [|discriminate].
  destruct (int_of_digits s) as [m|]; [|discriminate].
  destruct (m <=? 65535)%N eqn:B; [|discriminate].
  intros H. injection H as <-. exact B.
Qed.

Lemma kept_port_cases (sch : str) (po : option N) :
  kept_port sch po = None \/ kept_port sch po = po.
Proof. unfold kept_port. destruct po; auto. destruct (_ && _); auto. Qed.

Lemma kept_port_idem (sch : str) (po : option N) :
  kept_port sch (kept_port sch po) = kept_port sch po.
Proof.
  unfold kept_port. destruct po as [n|]; [|reflexivity].
  destruct (negb (n =? 0)%N && _) eqn:E; [reflexivity|]. now rewrite E.
Qed.

Lemma kept_port_shown (sch : str) (po : option N) :
  kept_port sch po = po -> kept_port sch (shown_port po) = shown_port po.
Proof.
  unfold shown_port. destruct po as [n|]; [|reflexivity].
  destruct (n =? 0)%N; [reflexivity|auto].
Qed.

Lemma assemble_netloc_shown (h : str) (po : option N) (un pw : option str) :
  assemble_netloc h (shown_port po) un pw = assemble_netloc h po un pw.
Proof.
  unfold assemble_netloc, shown_port. destruct po as [n|]; [|reflexivity].
  destruct (n =? 0)%N eqn:E; [reflexivity|]. now rewrite E.
Qed.

Lemma assemble_netloc_truthy (h : str) (po : option N) (un pw : option str) :
  assemble_netloc h po (if truthy_str un then un else None)
                  (if truthy_str un && truthy_str pw then pw else None)
  = assemble_netloc h po un pw.
Proof.
  unfold assemble_netloc.
  destruct (truthy_str un) eqn:Tu; cbn [andb]; [rewrite Tu|reflexivity].
  destruct (truthy_str pw) eqn:Tp; [now rewrite Tp|reflexivity].
Qed.

Lemma assemble_netloc_Forall (Q : ascii -> Prop) (h : str) (po : option N)
      (un pw : option str) :
  Q ":"%char -> Q "@"%char -> (forall c, is_digit c = true -> Q c) ->
  Forall Q h -> Forall Q (or_empty un) -> Forall Q (or_empty pw) ->
  Forall Q (assemble_netloc h po un pw).
Proof.
  intros Qc Qa Qd Fh Fu Fp. unfold assemble_netloc.
  assert (X : Forall Q match po with
                       | Some n => if (n =? 0)%N then h
                                   else h ++ ":"%char :: digits_of_int n
                       | None => h
                       end).
  { destruct po as [n|]; [|exact Fh]. destruct (n =? 0)%N; [exact Fh|].
    apply Forall_app. split; [exact Fh|]. constructor; [exact Qc|].
    eapply Forall_impl; [|apply digits_of_int_digits]. exact Qd. }
  destruct (truthy_str un); [|exact X].
  destruct (truthy_str pw).
  - apply Forall_app. split; [exact Fu|]. constructor; [exact Qc|].
    apply Forall_app. split; [exact Fp|]. constructor; [exact Qa|exact X].
  - apply Forall_app. split; [exact Fu|]. constructor; [exact Qa|exact X].
Qed.

End NetlocFacts.

(** ** The normalizer *)

Section NormalizeFacts.
Import PyStr UrlLib UrlUtils.

Local Abbreviation safe := (fun c : ascii => unsafe_byte c = false).
Local Abbreviation avoids x := (fun c : ascii => Ascii.eqb x c = false).

Lemma port_assembled (sch pa pr q f h : str) (po : option N) (un pw : option str) :
  _hostinfo (mkParseResult sch (assemble_netloc h po un pw) pa pr q f)
  = (h, option_map digits_of_int (shown_port po)) ->
  (forall n, po = Some n -> (n <=? 65535)%N = true) ->
  port (mkParseResult sch (assemble_netloc h po un pw) pa pr q f)
  = Ok (shown_port po).
Proof.
  intros E B. unfold port. rewrite E. cbn [snd].
  unfold shown_port in *. destruct po as [n|]; [|reflexivity].
  destruct (n =? 0)%N; [reflexivity|]. cbn [option_map].
  now rewrite int_of_digits_of_int, (B n eq_refl).
Qed.

(** The normalized URL parses back into the normalized parts, and
    normalizing it again changes nothing. *)
Lemma normalize_regular (u : str) (p : ParseResult) (po : option N) :
  urlparse u = Ok p -> port p = Ok po ->
  scheme p <> [] -> contains "[" (netloc p) = false ->
  (path p = [] \/ exists r, path p = "/"%char :: r) ->
  (in_uses_params (scheme p) && contains ";" (rstrip "/" (path p)) = true ->
   _splitparams (rstrip "/" (path p)) = (rstrip "/" (path p), [])) ->
  let nl' := assemble_netloc (normalized_hostname p) (kept_port (scheme p) po)
                             (username p) (password p) in
  let p' := mkParseResult (scheme p) nl' (rstrip "/" (path p)) []
                          (query p) (fragment p) in
  let v := assemble (scheme p) nl' (rstrip "/" (path p)) (query p) (fragment p) in
  normalize u = Ok v
  /\ urlparse v = Ok p'
  /\ normalize v = Ok v
  /\ lower (scheme p) = scheme p
  /\ normalized_hostname p' = lower (fst (_hostinfo p))
  /\ port p' = Ok (shown_port (kept_port (scheme p) po))
  /\ username p' = (if truthy_str (username p) then username p else None)
  /\ password p' = (if truthy_str (username p) && truthy_str (password p)
                    then password p else None).
Proof.
  intros Hp Hport Hs Hbr Hpath Hprm nl' p' v.
  destruct (urlparse_spec u p Hp)
    as (Vs & Sn & Dn & Bn & Sp & Hhp & Hqp & Sq & Hhq & Sf).
  destruct Vs as [Vs|Vs]; [contradiction|].
  assert (Ls : lower (scheme p) = scheme p) by (now destruct Vs as (? & ? & _ & _ & _ & ?)).
  assert (Hbr2 : contains "]" (netloc p) = false).
  { unfold bracket_mismatch in Bn. rewrite Hbr in Bn. cbn in Bn.
    now rewrite andb_true_r in Bn. }
  destruct (accessors_spec safe p Hbr Sn) as (S1 & A1 & C1 & B1 & S2 & C2 & S3).
  destruct (accessors_spec (fun c => netloc_delim c = false) p Hbr Dn)
    as (D1 & _ & _ & _ & D2 & _ & D3).
  destruct (accessors_spec (avoids "]"%char) p Hbr (proj1 (contains_false _ _) Hbr2))
    as (R1 & _ & _ & _ & R2 & _ & R3).
  destruct (accessors_spec (avoids "["%char) p Hbr (proj1 (contains_false _ _) Hbr))
    as (_ & _ & _ & _ & L2 & _ & L3).
  set (h := normalized_hostname p) in *.
  assert (Eh : h = lower (fst (_hostinfo p))) by apply normalized_hostname_eq.
  assert (Snl : Forall safe nl').
  { apply assemble_netloc_Forall; auto.
    - intros c Hc. now destruct (digit_facts c Hc).
    - rewrite Eh. now apply lower_Forall_safe. }
  assert (Dnl : Forall (fun c => netloc_delim c = false) nl').
  { apply assemble_netloc_Forall; auto.
    - intros c Hc. now destruct (digit_facts c Hc) as (_ & ? & _).
    - rewrite Eh. now apply lower_Forall_delim. }
  assert (Lnl : Forall (avoids "["%char) nl').
  { apply assemble_netloc_Forall; auto.
    - intros c Hc. now destruct (digit_facts c Hc) as (_ & _ & ? & _).
    - rewrite Eh. now apply lower_Forall_neq. }
  assert (Rnl : Forall (avoids "]"%char) nl').
  { apply assemble_netloc_Forall; auto.
    - intros c Hc. now destruct (digit_facts c Hc) as (_ & _ & _ & ? & _).
    - rewrite Eh. now apply lower_Forall_neq. }
  assert (Bnl : bracket_mismatch nl' = false).
  { unfold bracket_mismatch.
    now rewrite (proj2 (contains_false _ _) Lnl), (proj2 (contains_false _ _) Rnl). }
  assert (Hpa' : rstrip "/" (path p) = [] \/ exists r, rstrip "/" (path p) = "/"%char :: r).
  { destruct Hpath as [->|(r & ->)]; [now left|].
    destruct (rstrip_cons "/" "/" r) as [E|E]; auto. }
  assert (Ev : urlparse v = Ok p').
  { apply urlparse_assemble; auto using rstrip_Forall. }
  assert (Acc : _hostinfo p' = (h, option_map digits_of_int
                                     (shown_port (kept_port (scheme p) po)))
                /\ username p' = (if truthy_str (username p) then username p else None)
                /\ password p' = (if truthy_str (username p) && truthy_str (password p)
                                  then password p else None)).
  { apply accessors_assemble.
    - rewrite Eh. now apply lower_Forall_neq.
    - rewrite Eh. now apply lower_Forall_neq.
    - rewrite Eh. now apply lower_Forall_neq.
    - intros _. exact C2. }
  destruct Acc as (Ah & Au & Ap).
  assert (Ep : port p' = Ok (shown_port (kept_port (scheme p) po))).
  { apply port_assembled; [exact Ah|].
    intros n Hn. destruct (kept_port_cases (scheme p) po) as [K|K].
    - congruence.
    - rewrite K in Hn. subst po. now apply port_bound in Hport. }
  assert (Eh' : normalized_hostname p' = h).
  { rewrite normalized_hostname_eq, Ah. cbn [fst]. rewrite Eh. apply lower_idem. }
  assert (Nu : normalize u = Ok v).
  { unfold normalize. destruct u as [|c u].
    - cbn in Hp. injection Hp as <-. now elim Hs.
    - rewrite Hp. cbn [bind]. rewrite Hport. cbn [bind]. now rewrite Ls. }
  assert (Nv : normalize v = Ok v).
  { assert (G : forall w, w = v -> normalize w = Ok w); [|now apply G].
    intros w Ew. unfold normalize. destruct w as [|c0 w0]; [reflexivity|].
    rewrite Ew at 1. rewrite Ev. cbn [bind]. rewrite Ep. cbn [bind].
    change (scheme p') with (scheme p).
    change (path p') with (rstrip "/" (path p)).
    change (query p') with (query p). change (fragment p') with (fragment p).
    rewrite Ls, Eh', Au, Ap, rstrip_idem.
    rewrite kept_port_shown by apply kept_port_idem.
    rewrite assemble_netloc_shown, assemble_netloc_truthy.
    now rewrite Ew. }
  split; [exact Nu|]. split; [exact Ev|]. split; [exact Nv|]. split; [exact Ls|].
  split; [now rewrite Eh', Eh|]. split; [exact Ep|]. split; [exact Au|exact Ap].
Qed.

End NormalizeFacts.

(** C2, as stated, fails: normalizing twice is not always the same
    as normalizing once.  The path "/a;b/" loses its slash, and on the
    second pass the parser cuts ";b" off the now last segment as
    parameters, which the normalizer drops. *)
Lemma C2_params_counterexample :
  ~ (forall u : string,
        (v <- UrlUtils.normalize_author_url u ;; UrlUtils.normalize_author_url v)
        = UrlUtils.normalize_author_url u).
Proof.
  intros H. specialize (H "http://host/a;b/"). vm_compute in H. discriminate.
Qed.

(** C2, amended.  normalize_author_url is a function of the URL with
    normalize("HTTP://Host:80/x/") = normalize("http://host/x").  On
    every URL that parses with a scheme, without a bracketed host,
    with a path that is empty or starts with "/", and whose path has
    no parameters left in its last segment once the trailing slashes
    are removed, a result v is a fixed point (normalizing v gives v
    again), and v parses into: the scheme of u (lower case), the
    lower-cased host, the port unless it is 0 or the default of the
    scheme (80 for http, 443 for https), the user name and password
    when they are not empty, the path without its trailing slashes,
    and the query and fragment of u. *)
Theorem C2_normalize_regular_idempotent :
  (forall u v : string,
      UrlUtils.regular (list_ascii_of_string u) ->
      UrlUtils.normalize_author_url u = Ok v ->
      UrlUtils.normalize_author_url v = Ok v
      /\ exists p po p',
          UrlLib.urlparse (list_ascii_of_string u) = Ok p
          /\ UrlLib.port p = Ok po
          /\ UrlLib.urlparse (list_ascii_of_string v) = Ok p'
          /\ UrlLib.scheme p' = PyStr.lower (UrlLib.scheme p)
          /\ UrlUtils.normalized_hostname p' = PyStr.lower (fst (UrlLib._hostinfo p))
          /\ UrlLib.port p'
             = Ok (UrlUtils.shown_port (UrlUtils.kept_port (UrlLib.scheme p') po))
          /\ (UrlUtils.truthy_str (UrlLib.username p) = true ->
              UrlLib.username p' = UrlLib.username p)
          /\ (UrlUtils.truthy_str (UrlLib.username p) = true ->
              UrlUtils.truthy_str (UrlLib.password p) = true ->
              UrlLib.password p' = UrlLib.password p)
          /\ UrlLib.path p' = PyStr.rstrip "/" (UrlLib.path p)
          /\ UrlLib.params p' = []
          /\ UrlLib.query p' = UrlLib.query p
          /\ UrlLib.fragment p' = UrlLib.fragment p)
  /\ UrlUtils.normalize_author_url "HTTP://Host:80/x/"
     = UrlUtils.normalize_author_url "http://host/x".
Proof.
  split; [|reflexivity].
  intros u v (p & Hp & Hs & Hbr & Hpath & Hprm) H.
  unfold UrlUtils.normalize_author_url in H.
  destruct (UrlUtils.normalize (list_ascii_of_string u)) as [s|e] eqn:E;
    [|discriminate]. cbn in H. injection H as <-.
  assert (Hport : exists po, UrlLib.port p = Ok po).
  { unfold UrlUtils.normalize in E. destruct (list_ascii_of_string u) as [|c l].
    - cbn in Hp. injection Hp as <-. now elim Hs.
    - rewrite Hp in E. cbn [bind] in E.
      destruct (UrlLib.port p) as [po|e]; [eauto|discriminate]. }
  destruct Hport as [po Hport].
  destruct (normalize_regular _ p po Hp Hport Hs Hbr Hpath Hprm)
    as (Nu & Ev & Nv & Ls & Eh & Ep & Eu & Ew).
  rewrite E in Nu. injection Nu as ->.
  split.
  - unfold UrlUtils.normalize_author_url.
    rewrite list_ascii_of_string_of_list_ascii, Nv. reflexivity.
  - exists p, po. eexists. rewrite list_ascii_of_string_of_list_ascii.
    split; [exact Hp|]. split; [exact Hport|]. split; [exact Ev|].
    cbn [UrlLib.scheme UrlLib.path UrlLib.params UrlLib.query UrlLib.fragment].
    split; [now rewrite Ls|]. split; [exact Eh|]. split; [exact Ep|].
    split; [intros T; rewrite Eu; now rewrite T|].
    split; [intros T1 T2; rewrite Ew; now rewrite T1, T2|].
    repeat split.
Qed.

Lemma C2_normalize_regular_idempotent_witness :
  UrlUtils.normalize_author_url "https://User:Pw@example.com/api/authors/1?q=1#Frag"
  = Ok "https://User:Pw@example.com/api/authors/1?q=1#Frag".
Proof.
  refine (proj1 (proj1 C2_normalize_regular_idempotent
                   "https://User:Pw@EXAMPLE.com:443/api/authors/1//?q=1#Frag"
                   "https://User:Pw@example.com/api/authors/1?q=1#Frag" _ _)).
  - eexists. split; [vm_compute; reflexivity|]. cbn.
    split; [discriminate|]. split; [reflexivity|].
    split; [right; eexists; reflexivity|]. intros _. vm_compute. reflexivity.
  - vm_compute. reflexivity.
Defined.

(** ** The resolvers *)

Section ResolverFacts.
Import Resolver.



Lemma key_absent_not_in {A} (f : A -> string) (t : list A) (k : string) :
  existsb (fun o => f o =? k) t = false -> ~ In k (map f t).
Proof.
  intros H C. apply in_map_iff in C as [y [E Hy]].
  assert (X : existsb (fun o => f o =? k) t = true).
  { apply existsb_exists. exists y. split; [exact Hy|]. now apply String.eqb_eq. }
  congruence.
Qed.

Lemma key_absent_replace {A} (f : A -> string) (t : list A) (k : string) (a : A) :
  ~ In k (map f t) -> map (fun o => if f o =? k then a else o) t = t.
Proof.
  induction t as [|x t IH]; cbn; intros H; [reflexivity|].
  destruct (String.eqb_spec (f x) k) as [E|E]; [elim H; now left|].
  rewrite IH; [reflexivity|]. intros C. apply H. now right.
Qed.

(** Replacing the row of key [k] keeps another column free of
    duplicates when the new value is not held by another row. *)
Lemma replace_NoDup {A} (key g : A -> string) (t : list A) (k : string) (a : A) :
  NoDup (map key t) -> NoDup (map g t) ->
  (forall o, In o t -> key o <> k -> g o <> g a) ->
  NoDup (map g (map (fun o => if key o =? k then a else o) t)).
Proof.
  induction t as [|x t IH]; cbn; intros Hk Hg Ha; [constructor|].
  inversion Hk as [|? ? Kx Kt]; subst. inversion Hg as [|? ? Gx Gt]; subst.
  destruct (String.eqb_spec (key x) k) as [E|E].
  - subst k. rewrite key_absent_replace by exact Kx.
    constructor; [|exact Gt].
    intros C. apply in_map_iff in C as [y [Ey Hy]].
    apply (Ha y); [now right| |exact Ey].
    intros Ek. apply Kx. apply in_map_iff. eauto.
  - constructor.
    + intros C. apply in_map_iff in C as [y [Ey Hy]].
      apply in_map_iff in Hy as [z [Ez Hz]].
      destruct (key z =? k).
      * subst y. apply (Ha x); [now left|exact E|now symmetry].
      * subst y. apply Gx. apply in_map_iff. eauto.
    + apply IH; auto.
Qed.



Lemma generated_fields cfg a :
  a_id (generated cfg a) = a_id a /\ username (generated cfg a) = username a
  /\ displayName (generated cfg a) = displayName a
  /\ profileImage (generated cfg a) = profileImage a
  /\ node (generated cfg a) = node a
  /\ (a_url a <> "" -> a_url (generated cfg a) = a_url a)
  /\ (host a <> "" -> host (generated cfg a) = host a)
  /\ (a_web a <> "" -> a_web (generated cfg a) = a_web a).
Proof.
  unfold generated. destruct (node a) eqn:N; cbn; [tauto|].
  repeat split; auto; intros H.
  - destruct (String.eqb_spec (a_url a) ""); congruence.
  - destruct (String.eqb_spec (host a) ""); congruence.
  - destruct (String.eqb_spec (a_web a) ""); congruence.
Qed.





Lemma normalize_nonempty (au u : string) :
  UrlUtils.normalize_author_url au = Ok u -> au <> "" -> u <> "".
Proof.
  unfold UrlUtils.normalize_author_url, UrlUtils.normalize. intros H Hne.
  destruct au as [|c au]; [now elim Hne|]. cbn [list_ascii_of_string] in H.
  destruct (UrlLib.urlparse (c :: list_ascii_of_string au)) as [p|e];
    [|discriminate]. cbn [bind] in H.
  destruct (UrlLib.port p) as [po|e]; [|discriminate]. cbn [bind] in H.
  injection H as <-. rewrite assemble_eq.
  destruct (PyStr.lower (UrlLib.scheme p)); cbn; discriminate.
Qed.


Lemma entry_generated_fields cfg a e :
  Entries.id (entry_generated cfg a e) = Entries.id e
  /\ (Entries.url e <> "" -> Entries.url (entry_generated cfg a e) = Entries.url e)
  /\ Entries.author (entry_generated cfg a e) = Entries.author e
  /\ Entries.title (entry_generated cfg a e) = Entries.title e
  /\ Entries.description (entry_generated cfg a e) = Entries.description e
  /\ Entries.content (entry_generated cfg a e) = Entries.content e
  /\ Entries.content_type (entry_generated cfg a e) = Entries.content_type e
  /\ Entries.visibility (entry_generated cfg a e) = Entries.visibility e
  /\ Entries.source (entry_generated cfg a e) = Entries.source e
  /\ Entries.origin (entry_generated cfg a e) = Entries.origin e
  /\ Entries.published (entry_generated cfg a e) = Entries.published e.
Proof.
  unfold entry_generated. destruct (node a); cbn; [tauto|].
  repeat split. intros H. destruct (String.eqb_spec (Entries.url e) ""); congruence.
Qed.



End ResolverFacts.




(** ** The inbox *)

Section InboxFacts.
Import Resolver Inbox.



End InboxFacts.



(** C5.  An undo activity with a nested like never reaches its
    handler: the type validator of the inbox serializer knows entry,
    follow, like and comment only, so the endpoint answers 400 and
    changes nothing, whatever the handlers do.  The undo handler
    itself, called on the same activity when no such like is stored,
    answers with the status "not_found_but_success". *)
Theorem C5_undo_rejected_by_validator :
  (forall (St : Type) (h : Inbox.Handlers St) (st : St)
          (inbox : list Inbox.InboxItem) (recipient : Resolver.Author)
          (fields : Resolver.EntryData) (actor : option Resolver.AuthorData)
          (object : option Inbox.ObjectField) (entry comment : option string),
      Inbox._post_to_inbox h st inbox recipient
        (Inbox.mkActivity "undo" fields actor object entry comment)
      = (Inbox.mkResponse Inbox.HTTP_400_BAD_REQUEST "errors", st, inbox))
  /\ (let cfg := Resolver.mkSettings "http://local" "http://local" in
      let ann := Resolver.mkAuthor "id-7" "http://node1/api/authors/7" "ann" "Ann" ""
                   "http://node1/api/" "http://node1/authors/7" (Some "node1") in
      let bob := Resolver.mkAuthor "id-1" "http://local/api/authors/id-1" "bob" "Bob" ""
                   "http://local/api/" "http://local/authors/id-1" None in
      let st := Undo.mkStore [ann; bob] [] [] [] in
      let a := Inbox.mkActivity "undo" Inbox.no_fields
                 (Some (Resolver.mkAuthorData (Some "http://node1/api/authors/7")
                                              (Some "Ann") None
                                              (Some "http://node1/api/")
                                              (Some "http://node1/authors/7")))
                 (Some (Inbox.ObjDict
                          (Inbox.mkObjectDict
                             (Some "like")
                             (Some "http://node1/api/authors/7/liked/166")
                             (Some "http://local/api/authors/id-1/entries/249"))))
                 None None in
      fst (Undo._process_undo_activity cfg "id-9" st a bob)
      = Some (Undo.unlike_result ann "http://local/api/authors/id-1/entries/249"
                                 "not_found_but_success")).
Proof.
  split.
  - intros. reflexivity.
  - vm_compute. reflexivity.
Qed.

(** ** The fan-out *)

Section FanoutFacts.
Import Resolver Fanout.

Lemma send_log net nodes entry (remote : list Author) : forall log0,
  map request_of
      (fold_left
         (fun log remote_author =>
            match send_one net nodes entry remote_author with
            | Ok d => log ++ [d]
            | Raise _ => log ++ [Errored (request_for nodes entry remote_author)]
            end) remote log0)
  = map request_of log0 ++ map (request_for nodes entry) remote.
Proof.
  induction remote as [|ra remote IH]; intros log0; cbn [fold_left map].
  - now rewrite app_nil_r.
  - rewrite IH. unfold send_one.
    destruct (net (request_for nodes entry ra)) as [code|e]; cbn [bind];
      rewrite map_app, <- app_assoc; cbn [map app request_of]; [|reflexivity].
    now destruct (existsb (Nat.eqb code) [200; 201; 202]).
Qed.

(** Every remote author is tried once, in order, whatever the
    network does. *)
Lemma send_to_all net nodes authors entry :
  map request_of (_send_to_remote_authors net nodes authors entry)
  = map (request_for nodes entry) (remote_authors authors).
Proof.
  unfold _send_to_remote_authors.
  destruct (remote_authors authors) as [|ra remote] eqn:E; [reflexivity|].
  cbn [List.length Nat.eqb]. now rewrite send_log.
Qed.

Lemma Entry_save_In cfg table adding ua e e' table' :
  Entry_save cfg table adding ua e = Ok (e', table') -> In e' table'.
Proof.
  unfold Entry_save. set (g := entry_generated cfg ua e).
  destruct (adding && _); [discriminate|].
  destruct (existsb (fun o => Entries.url o =? Entries.url g) _); [discriminate|].
  destruct (existsb (fun o => Entries.id o =? Entries.id g) table) eqn:Ex;
    intros H; injection H as <- <-; [|now left].
  apply existsb_exists in Ex as [o [Ho Eo]]. apply in_map_iff.
  exists o. now rewrite Eo.
Qed.

Lemma operation_facts (save_arg : Entries.Entry -> Entries.Entry) (adding : bool)
      net nodes cfg w ua e :
  let op net :=
    r <- Entry_save cfg (entries w) adding ua (save_arg e) ;;
    let '(entry, entries') := r in
    Ok (entry, mkWorld (authors w) entries',
        _send_to_remote_authors net nodes (authors w) entry) in
  (forall net', committed (op net') = committed (op net))
  /\ forall entry w' log,
       op net = Ok (entry, w', log) ->
       In entry (entries w') /\ authors w' = authors w
       /\ map request_of log
          = map (request_for nodes entry) (remote_authors (authors w)).
Proof.
  intros op. unfold op. split.
  - intros net'. destruct (Entry_save cfg (entries w) adding ua (save_arg e))
      as [[e' t']|x]; reflexivity.
  - intros entry w' log H.
    destruct (Entry_save cfg (entries w) adding ua (save_arg e))
      as [[e' t']|x] eqn:S; [|discriminate].
    cbn [bind] in H. injection H as <- <- <-. cbn [entries authors].
    split; [eapply Entry_save_In; eauto|]. split; [reflexivity|].
    apply send_to_all.
Qed.

End FanoutFacts.

(** C9.  For the creation, the update and the soft delete of an
    entry: what is committed locally (the stored entry and the
    tables, or the error of the save) is the same under every
    behaviour of the network; and when the operation succeeds the
    entry is in the table and one POST was attempted for each remote
    author, in order, whichever of them failed. *)
Theorem C9_fanout_best_effort
        (op : Fanout.Network -> (string -> option Fanout.Node) -> Resolver.Settings ->
              Fanout.World -> Resolver.Author -> Entries.Entry ->
              result (Entries.Entry * Fanout.World * list Fanout.Delivery)) :
  In op [Fanout.perform_create; Fanout.perform_update; Fanout.destroy] ->
  forall net nodes cfg w user_author e,
    (forall net', Fanout.committed (op net' nodes cfg w user_author e)
                  = Fanout.committed (op net nodes cfg w user_author e))
    /\ forall entry w' log,
         op net nodes cfg w user_author e = Ok (entry, w', log) ->
         In entry (Fanout.entries w')
         /\ Fanout.authors w' = Fanout.authors w
         /\ map Fanout.request_of log
            = map (Fanout.request_for nodes entry)
                  (Fanout.remote_authors (Fanout.authors w)).
Proof.
  intros [<-|[<-|[<-|[]]]] net nodes cfg w ua e.
  - exact (operation_facts (fun x => x) true net nodes cfg w ua e).
  - exact (operation_facts (fun x => x) false net nodes cfg w ua e).
  - exact (operation_facts (fun x => Fanout.with_visibility x Entries.DELETED)
                           false net nodes cfg w ua e).
Qed.

Lemma C9_fanout_best_effort_witness :
  let cfg := Resolver.mkSettings "http://local" "http://local" in
  let bob := Resolver.mkAuthor "id-1" "http://local/api/authors/id-1" "bob" "Bob" ""
               "http://local/api/" "http://local/authors/id-1" None in
  let ann := Resolver.mkAuthor "id-7" "http://node1/api/authors/7/" "ann" "Ann" ""
               "http://node1/api/" "http://node1/authors/7" (Some "node1") in
  let cat := Resolver.mkAuthor "id-8" "http://node2/api/authors/8" "cat" "Cat" ""
               "http://node2/api/" "http://node2/authors/8" (Some "node2") in
  let e := Entries.mkEntry "249" "" "http://local/api/authors/id-1" "t" "" "c"
             "text/plain" Entries.PUBLIC "" "" "" None in
  let net : Fanout.Network :=
    fun r => if Fanout.inbox_url r =? "http://node1/api/authors/7/inbox/"
             then Raise (RequestException "timeout") else Ok 201 in
  let nodes := fun _ : string => Some (Fanout.mkNode "u" "p") in
  exists entry w' log,
    Fanout.perform_create net nodes cfg (Fanout.mkWorld [bob; ann; cat] []) bob e
    = Ok (entry, w', log)
    /\ In entry (Fanout.entries w')
    /\ map Fanout.inbox_url (map Fanout.request_of log)
       = ["http://node1/api/authors/7/inbox/"; "http://node2/api/authors/8/inbox/"].
Proof.
  intros cfg bob ann cat e net nodes.
  destruct (Fanout.perform_create net nodes cfg (Fanout.mkWorld [bob; ann; cat] []) bob e)
    as [[[entry w'] log]|x] eqn:E; [|vm_compute in E; discriminate].
  exists entry, w', log. split; [reflexivity|].
  destruct (C9_fanout_best_effort Fanout.perform_create (or_introl eq_refl)
              net nodes cfg (Fanout.mkWorld [bob; ann; cat] []) bob e)
    as [_ K].
  destruct (K entry w' log E) as (H1 & _ & H3).
  split; [exact H1|]. rewrite H3. reflexivity.
Defined.

(** * Further properties *)

(** ** Follows and friendships: the effect of a write *)

Section FriendshipInvariants.
Import Models.

Lemma follow_between_iff a b f :
  follow_between a b f = true <-> follower f = a /\ followed f = b.
Proof.
  unfold follow_between. rewrite andb_true_iff, !String.eqb_eq. tauto.
Qed.

Lemma follow_between_other a b c d f :
  ~ (c = a /\ d = b) -> follow_between a b f = true -> follow_between c d f = false.
Proof.
  intros N H. apply follow_between_iff in H as [E1 E2].
  apply not_true_is_false. intros C. apply follow_between_iff in C as [E3 E4].
  apply N. split; congruence.
Qed.

Lemma friendship_either_sym a b fr :
  friendship_either a b fr = friendship_either b a fr.
Proof. unfold friendship_either. apply orb_comm. Qed.

Lemma is_friend_with_sym db a b : is_friend_with db a b = is_friend_with db b a.
Proof.
  unfold is_friend_with. induction (friendships db) as [|fr l IH]; cbn; [reflexivity|].
  now rewrite IH, friendship_either_sym.
Qed.

Lemma friendship_either_iff a b fr :
  friendship_either a b fr = true
  <-> fr = mkFriendship a b \/ fr = mkFriendship b a.
Proof.
  unfold friendship_either, friendship_is. destruct fr as [x y]; cbn.
  rewrite orb_true_iff, !andb_true_iff, !String.eqb_eq.
  split.
  - intros [[-> ->]|[-> ->]]; auto.
  - intros [H|H]; injection H as -> ->; auto.
Qed.

Lemma friendship_either_other a b c d fr :
  ~ ((c = a /\ d = b) \/ (c = b /\ d = a)) ->
  friendship_either a b fr = true -> friendship_either c d fr = false.
Proof.
  intros N H. apply not_true_is_false. intros C.
  apply friendship_either_iff in H, C.
  destruct H as [->| ->], C as [C|C]; injection C as -> ->; tauto.
Qed.

Lemma update_friendships_follows db a b db' :
  update_friendships db a b = Ok db' -> follows db' = follows db.
Proof.
  unfold update_friendships. intros H. destruct (_ && _).
  - destruct (String.ltb a b); cbn in H;
      match type of H with
      | context [Friendship_get_or_create ?f ?x ?y] =>
          destruct (Friendship_get_or_create f x y)
      end; cbn in H; try discriminate; now injection H as <-.
  - now injection H as <-.
Qed.

Lemma get_or_create_cases frs x y r :
  Friendship_get_or_create frs x y = Ok r ->
  (r = frs /\ exists fr, filter (friendship_is x y) frs = [fr])
  \/ (r = mkFriendship x y :: frs /\ x <> y /\ filter (friendship_is x y) frs = []).
Proof.
  unfold Friendship_get_or_create, Friendship_insert. intros H.
  destruct (filter (friendship_is x y) frs) as [|z [|z' l]] eqn:F.
  - destruct (String.eqb_spec x y); [discriminate|].
    destruct (existsb _ _); [discriminate|]. injection H as <-. now right.
  - injection H as <-. left. eauto.
  - discriminate.
Qed.

Lemma get_or_create_raise frs x y e :
  Friendship_get_or_create frs x y = Raise e ->
  x = y \/ existsb (friendship_is x y) frs = true.
Proof.
  unfold Friendship_get_or_create, Friendship_insert. intros H.
  destruct (filter (friendship_is x y) frs) as [|z [|z' l]] eqn:F.
  - destruct (String.eqb_spec x y); [now left|].
    destruct (existsb _ _); [now right | discriminate].
  - discriminate.
  - right. apply existsb_exists. exists z.
    assert (Hz : In z (filter (friendship_is x y) frs)) by (rewrite F; now left).
    now apply filter_In in Hz.
Qed.

(** The branch the maintainer takes, and what it writes. *)
Lemma update_friendships_cases db a b :
  let both := follows_accepted (follows db) a b && follows_accepted (follows db) b a in
  let x := if String.ltb a b then a else b in
  let y := if String.ltb a b then b else a in
  (both = true /\
   update_friendships db a b
   = (frs <- Friendship_get_or_create (friendships db) x y ;;
      Ok (mkDB (follows db) frs)))
  \/ (both = false /\
      update_friendships db a b
      = Ok (mkDB (follows db)
                 (filter (fun fr => negb (friendship_either a b fr)) (friendships db)))).
Proof.
  cbn zeta. unfold update_friendships.
  destruct (_ && _); [left | right]; (split; [reflexivity|]); [|reflexivity].
  now destruct (String.ltb a b).
Qed.

Lemma update_friendships_raise db a b e :
  update_friendships db a b = Raise e ->
  follows_accepted (follows db) a b && follows_accepted (follows db) b a = true
  /\ (a = b \/ is_friend_with db a b = true).
Proof.
  intros H. destruct (update_friendships_cases db a b) as [[B E]|[B E]];
    rewrite E in H; [|discriminate].
  split; [exact B|].
  destruct (Friendship_get_or_create _ _ _) as [r|e'] eqn:G; [discriminate|].
  apply get_or_create_raise in G as [G|G].
  - left. destruct (String.ltb a b); congruence.
  - right. unfold is_friend_with. apply existsb_exists in G as [fr [Hin Hfr]].
    apply existsb_exists. exists fr. split; [exact Hin|].
    unfold friendship_either. destruct (String.ltb a b); rewrite Hfr; auto using orb_true_r.
Qed.

Lemma existsb_filter_other {A} (p q : A -> bool) (l : list A) :
  (forall x, p x = true -> q x = true) ->
  existsb p (filter q l) = existsb p l.
Proof.
  intros H. induction l as [|x l IH]; cbn; [reflexivity|].
  destruct (q x) eqn:Q; cbn; rewrite IH; [reflexivity|].
  destruct (p x) eqn:P; [|reflexivity]. apply H in P. congruence.
Qed.

(** The maintainer touches the rows of the pair it is called on, and
    no other. *)
Lemma update_friendships_frame db a b db' c d :
  update_friendships db a b = Ok db' ->
  ~ ((c = a /\ d = b) \/ (c = b /\ d = a)) ->
  is_friend_with db' c d = is_friend_with db c d.
Proof.
  intros H N. unfold is_friend_with.
  destruct (update_friendships_cases db a b) as [[B E]|[B E]]; rewrite E in H.
  - destruct (Friendship_get_or_create _ _ _) as [r|e'] eqn:G; [|discriminate].
    injection H as <-. cbn [friendships].
    apply get_or_create_cases in G as [[-> _]|[-> _]]; [reflexivity|].
    cbn [existsb].
    match goal with
    | |- ?t || _ = _ => assert (T : t = false); [|now rewrite T]
    end.
    apply friendship_either_other with (a := a) (b := b); [exact N|].
    apply friendship_either_iff. destruct (String.ltb a b); auto.
  - injection H as <-. cbn [friendships].
    apply existsb_filter_other. intros fr C.
    destruct (friendship_either a b fr) eqn:F; [|reflexivity].
    apply friendship_either_other with (c := c) (d := d) in F; [congruence | exact N].
Qed.

Local Abbreviation accepted db a b := (follows_accepted (follows db) a b).

Local Abbreviation complete db :=
  (forall a b, a <> b -> accepted db a b = true -> accepted db b a = true ->
               is_friend_with db a b = true).

Local Abbreviation exact db :=
  (forall a b, a <> b ->
               is_friend_with db a b = accepted db a b && accepted db b a).

Local Abbreviation apart a b c d := (~ ((c = a /\ d = b) \/ (c = b /\ d = a))).

Lemma same_pair_dec (a b c d : string) :
  ((c = a /\ d = b) \/ (c = b /\ d = a)) \/ apart a b c d.
Proof.
  destruct (string_dec c a), (string_dec d b), (string_dec c b), (string_dec d a);
    tauto.
Qed.

(** After the maintainer has run for (a, b), raised or not, the pair
    is exact; the other pairs are as before. *)
Lemma maintained_pair db a b :
  a <> b ->
  let db' := after (signalled db (update_friendships db a b)) in
  follows db' = follows db
  /\ is_friend_with db' a b = accepted db a b && accepted db b a
  /\ forall c d, apart a b c d -> is_friend_with db' c d = is_friend_with db c d.
Proof.
  intros Hab. cbn zeta.
  destruct (update_friendships db a b) as [db'|e] eqn:U; cbn [signalled after].
  - pose proof (update_friendships_follows _ _ _ _ U) as Hf.
    split; [exact Hf|]. split.
    + rewrite (update_friendships_sound _ _ _ _ U). now rewrite Hf.
    + intros c d N. now apply update_friendships_frame with (a := a) (b := b).
  - split; [reflexivity|]. split; [|reflexivity].
    apply update_friendships_raise in U as [-> [U|U]]; [contradiction | exact U].
Qed.

(** The same for a self-pair: the friendship table is left alone as
    far as the pairs of distinct authors go. *)
Lemma maintained_self db a :
  let db' := after (signalled db (update_friendships db a a)) in
  follows db' = follows db
  /\ forall c d, c <> d -> is_friend_with db' c d = is_friend_with db c d.
Proof.
  cbn zeta.
  destruct (update_friendships db a a) as [db'|e] eqn:U; cbn [signalled after].
  - split; [now apply update_friendships_follows in U|].
    intros c d N. apply update_friendships_frame with (a := a) (b := a); [exact U|].
    intros [[-> ->]|[-> ->]]; contradiction.
  - split; reflexivity.
Qed.

Lemma accepted_cons f fs c d :
  follows_accepted (f :: fs) c d
  = (follow_between c d f && status_eqb (status f) ACCEPTED) || follows_accepted fs c d.
Proof. reflexivity. Qed.

Lemma accepted_map fs a b st c d :
  follows_accepted
    (map (fun f => if follow_between a b f then mkFollow a b st else f) fs) c d
  = if follow_between c d (mkFollow a b ACCEPTED)
    then existsb (follow_between a b) fs && status_eqb st ACCEPTED
    else follows_accepted fs c d.
Proof.
  unfold follows_accepted.
  induction fs as [|f fs IH]; cbn [map existsb].
  - now destruct (follow_between c d _).
  - rewrite IH. clear IH.
    destruct (follow_between c d (mkFollow a b ACCEPTED)) eqn:K.
    + apply follow_between_iff in K as [K1 K2]; cbn in K1, K2; subst c d.
      destruct (follow_between a b f) eqn:F; cbn.
      * unfold follow_between at 1; cbn. rewrite !String.eqb_refl. cbn.
        now destruct (status_eqb st ACCEPTED), (existsb _ fs).
      * rewrite F. reflexivity.
    + destruct (follow_between a b f) eqn:F; [|reflexivity].
      assert (E : follow_between c d f = false).
      { apply follow_between_iff in F as [F1 F2].
        unfold follow_between in *. cbn in K. now rewrite F1, F2. }
      rewrite E. cbn [andb orb].
      unfold follow_between at 1. cbn [follower followed].
      unfold follow_between in K. cbn in K. now rewrite K.
Qed.

Lemma accepted_filter fs a b c d :
  follows_accepted (filter (fun f => negb (follow_between a b f)) fs) c d
  = if follow_between c d (mkFollow a b ACCEPTED) then false
    else follows_accepted fs c d.
Proof.
  unfold follows_accepted.
  induction fs as [|f fs IH]; cbn [filter existsb].
  - now destruct (follow_between c d _).
  - destruct (follow_between a b f) eqn:F; cbn [negb existsb]; rewrite IH; clear IH.
    + destruct (follow_between c d (mkFollow a b ACCEPTED)) eqn:K; [reflexivity|].
      assert (E : follow_between c d f = false).
      { apply follow_between_iff in F as [F1 F2].
        unfold follow_between in *. cbn in K. now rewrite F1, F2. }
      now rewrite E.
    + destruct (follow_between c d (mkFollow a b ACCEPTED)) eqn:K; [|reflexivity].
      apply follow_between_iff in K as [K1 K2]; cbn in K1, K2; subst c d.
      now rewrite F.
Qed.

Lemma between_mk a b st c d :
  follow_between c d (mkFollow a b st) = true <-> c = a /\ d = b.
Proof. rewrite follow_between_iff. cbn. split; intros [? ?]; auto. Qed.


Lemma no_row_not_accepted fs a b :
  existsb (follow_between a b) fs = false -> follows_accepted fs a b = false.
Proof.
  unfold follows_accepted. induction fs as [|f fs IH]; cbn; [reflexivity|].
  intros H. apply orb_false_iff in H as [H1 H2]. now rewrite H1, IH.
Qed.

(** The save handler after the row (a, b, st) was written in [db]. *)
Lemma saved_effect db a b st :
  let db' := after (signalled db (update_friendship_on_follow_save db (mkFollow a b st))) in
  follows db' = follows db
  /\ (forall c d, c <> d -> apart a b c d ->
                  is_friend_with db' c d = is_friend_with db c d)
  /\ (a <> b ->
      (st = ACCEPTED
       /\ is_friend_with db' a b = accepted db a b && accepted db b a)
      \/ (st <> ACCEPTED /\ db' = db)).
Proof.
  cbn zeta. unfold update_friendship_on_follow_save. cbn [status follower followed].
  destruct st; cbn [status_eqb signalled after];
    try (split; [reflexivity|]; split; [reflexivity|]; intros _; right;
         split; [discriminate | reflexivity]).
  destruct (string_dec a b) as [->|Hab].
  - destruct (maintained_self db b) as [F G]. split; [exact F|]. split.
    + intros c d N _. now apply G.
    + intros C. contradiction.
  - destruct (maintained_pair db a b Hab) as [F [P G]]. split; [exact F|]. split.
    + intros c d _ N. now apply G.
    + intros _. left. split; [reflexivity | exact P].
Qed.

(** The delete handler, sent for each row that went. *)
Lemma deleted_effect a b (gone : list Follow) : forall o,
  Forall (fun f => follower f = a /\ followed f = b) gone ->
  let o' :=
    fold_left
      (fun o f =>
         match raised o with
         | Some _ => o
         | None => signalled (after o) (update_friendship_on_follow_delete (after o) f)
         end) gone o in
  follows (after o') = follows (after o)
  /\ (forall c d, c <> d -> apart a b c d ->
                  is_friend_with (after o') c d = is_friend_with (after o) c d)
  /\ (gone = [] -> o' = o)
  /\ (a <> b -> raised o = None -> gone <> [] ->
      is_friend_with (after o') a b
      = accepted (after o) a b && accepted (after o) b a).
Proof.
  induction gone as [|f gone IH]; intros o Hg; cbn zeta.
  - cbn. repeat split; auto. intros _ _ C. contradiction.
  - cbn [fold_left]. inversion Hg as [|f' g' [Hf1 Hf2] Hg']; subst f' g'.
    set (o1 := match raised o with
               | Some _ => o
               | None => signalled (after o) (update_friendship_on_follow_delete (after o) f)
               end).
    specialize (IH o1 Hg'). cbn zeta in IH. destruct IH as [F [G [E X]]].
    assert (S1 : follows (after o1) = follows (after o)
                 /\ (forall c d, c <> d -> apart a b c d ->
                        is_friend_with (after o1) c d = is_friend_with (after o) c d)
                 /\ (a <> b -> raised o = None ->
                     is_friend_with (after o1) a b
                     = accepted (after o) a b && accepted (after o) b a)).
    { unfold o1. destruct (raised o) eqn:R.
      - repeat split; auto. intros _ C. discriminate.
      - unfold update_friendship_on_follow_delete. rewrite Hf1, Hf2.
        destruct (string_dec a b) as [->|Hab].
        + destruct (maintained_self (after o) b) as [F1 G1]. split; [exact F1|]. split.
          * intros c d N _. now apply G1.
          * intros C. contradiction.
        + destruct (maintained_pair (after o) a b Hab) as [F1 [P1 G1]].
          split; [exact F1|]. split.
          * intros c d _ N. now apply G1.
          * intros _ _. exact P1. }
    destruct S1 as [F1 [G1 P1]].
    split; [now rewrite F, F1|]. split.
    { intros c d N A. now rewrite G, G1. }
    split; [discriminate|].
    intros Hab R _. destruct gone as [|g gone'].
    + rewrite (E eq_refl). now apply P1.
    + destruct (raised o1) eqn:R1.
      * (* the first signal raised: the later ones are not sent *)
        assert (K : forall l,
                   fold_left
                     (fun o f =>
                        match raised o with
                        | Some _ => o
                        | None => signalled (after o)
                                    (update_friendship_on_follow_delete (after o) f)
                        end) l o1 = o1).
        { induction l as [|x l IHl]; cbn; [reflexivity|]. now rewrite R1. }
        rewrite K. now apply P1.
      * rewrite X by (auto; discriminate). now rewrite F1.
Qed.

(** The pair a mutation is about. *)
Local Abbreviation pair_of m :=
  (match m with
   | Create f => (follower f, followed f)
   | SetStatus a b _ => (a, b)
   | Delete a b => (a, b)
   end).

Lemma apply_effect db m a b :
  pair_of m = (a, b) ->
  let db' := after (apply db m) in
  (forall c d, ~ (c = a /\ d = b) -> accepted db' c d = accepted db c d)
  /\ (forall c d, c <> d -> apart a b c d ->
                  is_friend_with db' c d = is_friend_with db c d)
  /\ (a <> b ->
      is_friend_with db' a b = accepted db' a b && accepted db' b a
      \/ (is_friend_with db' a b = is_friend_with db a b
          /\ accepted db' a b = false
          /\ (accepted db a b = false
              \/ exists st, m = SetStatus a b st /\ st <> ACCEPTED))
      \/ db' = db).
Proof.
  intros Hp. cbn zeta.
  destruct m as [f|x y st|x y]; cbn [apply].
  - (* create *)
    destruct f as [x y st]. cbn in Hp. injection Hp as -> ->.
    unfold Follow_create. cbn [follower followed].
    destruct (existsb (follow_between a b) (follows db)) eqn:Ex.
    { cbn [after]. repeat split; auto. }
    set (db1 := mkDB (mkFollow a b st :: follows db) (friendships db)).
    destruct (saved_effect db1 a b st) as [F [G P]]. cbn zeta in F, G, P.
    assert (A : forall c d, ~ (c = a /\ d = b) -> accepted db1 c d = accepted db c d).
    { intros c d N. unfold db1. cbn [follows]. rewrite accepted_cons.
      destruct (follow_between c d (mkFollow a b st)) eqn:K; [|reflexivity].
      apply between_mk in K. contradiction. }
    split; [intros c d N; rewrite F; now apply A|].
    split; [intros c d N Ap; now rewrite G|].
    intros Hab. destruct (P Hab) as [[-> P1]|[Hst P1]].
    + left. now rewrite P1, F.
    + right. left. rewrite P1. split; [reflexivity|].
      assert (Z : accepted db a b = false) by now apply no_row_not_accepted.
      split; [|now left].
      unfold db1. cbn [follows]. rewrite accepted_cons, Z.
      destruct st; try contradiction; cbn; now rewrite andb_false_r.
  - (* status *)
    cbn in Hp. injection Hp as -> ->.
    unfold Follow_set_status.
    destruct (existsb (follow_between a b) (follows db)) eqn:Ex.
    2:{ cbn [after]. repeat split; auto. }
    set (db1 := mkDB (map (fun f => if follow_between a b f then mkFollow a b st else f)
                          (follows db)) (friendships db)).
    destruct (saved_effect db1 a b st) as [F [G P]]. cbn zeta in F, G, P.
    assert (A : forall c d, ~ (c = a /\ d = b) -> accepted db1 c d = accepted db c d).
    { intros c d N. unfold db1. cbn [follows]. rewrite accepted_map.
      destruct (follow_between c d (mkFollow a b ACCEPTED)) eqn:K; [|reflexivity].
      apply between_mk in K. contradiction. }
    split; [intros c d N; rewrite F; now apply A|].
    split; [intros c d N Ap; now rewrite G|].
    intros Hab. destruct (P Hab) as [[-> P1]|[Hst P1]].
    + left. now rewrite P1, F.
    + right. left. rewrite P1. split; [reflexivity|].
      split; [|right; now exists st].
      unfold db1. cbn [follows]. rewrite accepted_map.
      assert (K : follow_between a b (mkFollow a b ACCEPTED) = true)
        by now apply between_mk.
      rewrite K. destruct st; try contradiction; cbn; now rewrite andb_false_r.
  - (* delete *)
    cbn in Hp. injection Hp as -> ->.
    unfold Follow_delete.
    set (db1 := mkDB (filter (fun f => negb (follow_between a b f)) (follows db))
                     (friendships db)).
    remember (filter (follow_between a b) (follows db)) as gone eqn:Eg0.
    assert (Hg : Forall (fun f => follower f = a /\ followed f = b) gone).
    { apply Forall_forall. intros f Hin. rewrite Eg0 in Hin.
      apply filter_In in Hin as [_ Hin].
      now apply follow_between_iff. }
    destruct (deleted_effect a b gone (mkOutcome db1 None) Hg) as [F [G [E X]]].
    cbn zeta in F, G, E, X. cbn [after raised] in F, G, X.
    assert (A : forall c d, accepted db1 c d
                            = if follow_between c d (mkFollow a b ACCEPTED) then false
                              else accepted db c d).
    { intros c d. unfold db1. cbn [follows]. apply accepted_filter. }
    assert (K : follow_between a b (mkFollow a b ACCEPTED) = true)
      by now apply between_mk.
    split.
    { intros c d N. rewrite F, A.
      destruct (follow_between c d (mkFollow a b ACCEPTED)) eqn:K'; [|reflexivity].
      apply between_mk in K'. contradiction. }
    split; [intros c d N Ap; now rewrite G|].
    intros Hab. destruct gone as [|g gone'].
    + right. left. rewrite (E eq_refl). cbn [after].
      split; [reflexivity|]. split; [now rewrite A, K|].
      left. apply no_row_not_accepted.
      apply not_true_is_false. intros C. apply existsb_exists in C as [f [Hin Hf]].
      assert (Hin' : In f (filter (follow_between a b) (follows db)))
        by (apply filter_In; auto).
      rewrite <- Eg0 in Hin'. contradiction.
    + left. rewrite X by (auto; discriminate). now rewrite F.
Qed.

Lemma apply_complete db m : complete db -> complete (after (apply db m)).
Proof.
  intros I c d Hcd H1 H2.
  destruct (pair_of m) as [a b] eqn:Hp.
  destruct (apply_effect db m a b Hp) as [A [G P]]. cbn zeta in A, G, P.
  destruct (same_pair_dec a b c d) as [S|Ap].
  - assert (Hab : a <> b) by (destruct S as [[-> ->]|[-> ->]]; auto).
    assert (Q : is_friend_with (after (apply db m)) a b = true).
    { destruct (P Hab) as [P1|[[_ [P2 _]]|P3]].
      - rewrite P1. destruct S as [[-> ->]|[-> ->]]; now rewrite H1, H2.
      - destruct S as [[-> ->]|[-> ->]]; congruence.
      - rewrite P3 in *. destruct S as [[-> ->]|[-> ->]]; auto. }
    destruct S as [[-> ->]|[-> ->]]; [exact Q | now rewrite is_friend_with_sym].
  - rewrite G by assumption. apply I; [exact Hcd | |].
    + rewrite <- A; [exact H1 | tauto].
    + rewrite <- A; [exact H2 | tauto].
Qed.

Lemma apply_exact db m :
  match m with
  | SetStatus a b st => st = ACCEPTED \/ accepted db a b = false
  | _ => True
  end ->
  exact db -> exact (after (apply db m)).
Proof.
  intros Hg I c d Hcd.
  destruct (pair_of m) as [a b] eqn:Hp.
  destruct (apply_effect db m a b Hp) as [A [G P]]. cbn zeta in A, G, P.
  destruct (same_pair_dec a b c d) as [S|Ap].
  - assert (Hab : a <> b) by (destruct S as [[-> ->]|[-> ->]]; auto).
    assert (Q : is_friend_with (after (apply db m)) a b
                = accepted (after (apply db m)) a b && accepted (after (apply db m)) b a).
    { destruct (P Hab) as [P1|[[P1 [P2 P3]]|P3]].
      - exact P1.
      - rewrite P1, P2, (I a b Hab). cbn [andb].
        assert (Z : accepted db a b = false).
        { destruct P3 as [Z|[st [-> Hst]]]; [exact Z|].
          destruct Hg as [Hg|Hg]; [contradiction | exact Hg]. }
        now rewrite Z.
      - rewrite P3. now apply I. }
    destruct S as [[-> ->]|[-> ->]]; [exact Q|].
    now rewrite is_friend_with_sym, Q, andb_comm.
  - rewrite G by assumption. rewrite (I c d Hcd).
    rewrite !A by tauto. reflexivity.
Qed.


Lemma run_complete ms : forall db, complete db -> complete (run ms db).
Proof.
  unfold run. induction ms as [|m ms IH]; intros db I; cbn [fold_left]; [exact I|].
  apply IH. now apply apply_complete.
Qed.

Lemma run_exact ms : forall db,
  FollowTable.guarded ms db -> exact db -> exact (run ms db).
Proof.
  unfold run. induction ms as [|m ms IH]; intros db G I; cbn [fold_left]; [exact I|].
  destruct G as [G1 G2]. apply IH; [exact G2|]. apply apply_exact; [|exact I].
  destruct m; auto.
Qed.

(** *** The follow table *)

Lemma apply_follows db m :
  follows (after (apply db m))
  = match m with
    | Create f =>
        if existsb (follow_between (follower f) (followed f)) (follows db)
        then follows db else f :: follows db
    | SetStatus a b st =>
        if existsb (follow_between a b) (follows db)
        then map (fun f => if follow_between a b f then mkFollow a b st else f)
                 (follows db)
        else follows db
    | Delete a b => filter (fun f => negb (follow_between a b f)) (follows db)
    end.
Proof.
  destruct m as [f|a b st|a b]; cbn [apply].
  - unfold Follow_create. destruct (existsb _ _); [reflexivity|].
    destruct f as [a b st].
    match goal with
    | |- context [signalled ?d _] => destruct (saved_effect d a b st) as [F _]
    end.
    exact F.
  - unfold Follow_set_status. destruct (existsb _ _); [|reflexivity].
    match goal with
    | |- context [signalled ?d _] => destruct (saved_effect d a b st) as [F _]
    end.
    exact F.
  - unfold Follow_delete.
    match goal with
    | |- context [fold_left _ ?g ?o] =>
        destruct (deleted_effect a b g o) as [F _]
    end.
    + apply Forall_forall. intros f Hin. apply filter_In in Hin as [_ Hin].
      now apply follow_between_iff.
    + exact F.
Qed.

Lemma filter_map_length {A} (p : A -> bool) (g : A -> A) (l : list A) :
  (forall x, p (g x) = p x) ->
  List.length (filter p (map g l)) = List.length (filter p l).
Proof.
  intros H. induction l as [|x l IH]; cbn; [reflexivity|].
  rewrite H. destruct (p x); cbn; now rewrite IH.
Qed.

Lemma filter_nil_existsb {A} (p : A -> bool) (l : list A) :
  existsb p l = false -> filter p l = [].
Proof.
  induction l as [|x l IH]; cbn; [reflexivity|].
  intros H. apply orb_false_iff in H as [-> H]. auto.
Qed.

Lemma apply_follow_unique db m :
  FollowTable.follow_unique (follows db) ->
  FollowTable.follow_unique (follows (after (apply db m))).
Proof.
  unfold FollowTable.follow_unique. intros I c d. rewrite apply_follows.
  destruct m as [f|a b st|a b].
  - destruct (existsb _ _) eqn:Ex; [apply I|].
    cbn [filter]. destruct (follow_between c d f) eqn:F; [|apply I].
    apply follow_between_iff in F as [<- <-].
    rewrite (filter_nil_existsb _ _ Ex). cbn. lia.
  - destruct (existsb _ _); [|apply I].
    rewrite filter_map_length; [apply I|].
    intros f. destruct (follow_between a b f) eqn:F; [|reflexivity].
    apply follow_between_iff in F as [F1 F2].
    unfold follow_between. cbn. now rewrite F1, F2.
  - apply Nat.le_trans with (List.length (filter (follow_between c d) (follows db)));
      [apply (filter_length_le (follow_between c d)
                               (fun f => negb (follow_between a b f))) | apply I].
Qed.

(** *** The friendship table *)

Lemma apply_friendships_inv (P : list Friendship -> Prop) :
  (forall db a b db', P (friendships db) -> update_friendships db a b = Ok db' ->
                      P (friendships db')) ->
  forall db m, P (friendships db) -> P (friendships (after (apply db m))).
Proof.
  intros H.
  assert (S : forall db r, P (friendships db) ->
                (forall db', r = Ok db' -> P (friendships db')) ->
                P (friendships (after (signalled db r)))).
  { intros db r Hp Hr. destruct r as [db'|e]; cbn; auto. }
  assert (V : forall db f, P (friendships db) ->
                P (friendships (after (signalled db (update_friendship_on_follow_save db f))))).
  { intros db f Hp. apply S; [exact Hp|].
    unfold update_friendship_on_follow_save. intros db' E.
    destruct (status_eqb _ _); [now apply H in E | now injection E as <-]. }
  intros db m Hp. destruct m as [f|a b st|a b]; cbn [apply].
  - unfold Follow_create. destruct (existsb _ _); [exact Hp|]. now apply V.
  - unfold Follow_set_status. destruct (existsb _ _); [|exact Hp]. now apply V.
  - unfold Follow_delete.
    match goal with
    | |- context [fold_left ?F _ _] =>
        assert (G : forall l o, P (friendships (after o)) ->
                                P (friendships (after (fold_left F l o))))
    end.
    { induction l as [|f l IH]; intros o Ho; cbn; [exact Ho|].
      apply IH. destruct (raised o); [exact Ho|].
      apply S; [exact Ho|]. intros db' E. now apply H in E. }
    apply G. exact Hp.
Qed.

Lemma ltb_total (a b : string) : a <> b -> String.ltb a b = false -> String.ltb b a = true.
Proof.
  unfold String.ltb. intros N H. rewrite String.compare_antisym in H.
  destruct (String.compare b a) eqn:C; cbn in H; try discriminate; [|reflexivity].
  apply String.compare_eq_iff in C. congruence.
Qed.

Lemma ltb_asym (a b : string) : String.ltb a b = true -> String.ltb b a = false.
Proof.
  unfold String.ltb. rewrite (String.compare_antisym b a).
  now destruct (String.compare a b).
Qed.

Local Abbreviation tidy frs := (Forall FollowTable.canonical frs /\ NoDup frs).

Lemma update_friendships_tidy db a b db' :
  tidy (friendships db) -> update_friendships db a b = Ok db' -> tidy (friendships db').
Proof.
  intros [C N] H.
  destruct (update_friendships_cases db a b) as [[B E]|[B E]]; rewrite E in H.
  - destruct (Friendship_get_or_create _ _ _) as [r|e'] eqn:G; [|discriminate].
    injection H as <-. cbn [friendships].
    apply get_or_create_cases in G as [[-> _]|[-> [Hxy F]]]; [now split|].
    split.
    + constructor; [|exact C]. unfold FollowTable.canonical. cbn.
      destruct (String.ltb a b) eqn:L; [exact L|]. apply ltb_total; auto.
    + constructor; [|exact N]. intros Hin.
      assert (Hin' : In (mkFriendship (if String.ltb a b then a else b)
                                      (if String.ltb a b then b else a))
                        (filter (friendship_is (if String.ltb a b then a else b)
                                               (if String.ltb a b then b else a))
                                (friendships db))).
      { apply filter_In. split; [exact Hin|].
        unfold friendship_is. cbn. now rewrite !String.eqb_refl. }
      rewrite F in Hin'. contradiction.
  - injection H as <-. cbn [friendships]. split.
    + apply Forall_forall. intros fr Hin. apply filter_In in Hin as [Hin _].
      rewrite Forall_forall in C. now apply C.
    + now apply NoDup_filter.
Qed.

Lemma tidy_one_row frs a b :
  tidy frs -> List.length (filter (friendship_either a b) frs) <= 1.
Proof.
  intros [C N]. induction frs as [|fr frs IH]; cbn [filter]; [cbn; lia|].
  inversion C as [|x l Cfr C']; subst x l.
  inversion N as [|x l Nfr N']; subst x l.
  specialize (IH C' N').
  destruct (friendship_either a b fr) eqn:F; [|exact IH].
  assert (Z : filter (friendship_either a b) frs = []).
  { destruct (filter (friendship_either a b) frs) as [|g l] eqn:Fg; [reflexivity|].
    exfalso.
    assert (Hg : In g (filter (friendship_either a b) frs)) by (rewrite Fg; now left).
    apply filter_In in Hg as [Hin Hg].
    rewrite Forall_forall in C'. pose proof (C' g Hin) as Cg.
    apply friendship_either_iff in F, Hg. unfold FollowTable.canonical in Cfr, Cg.
    destruct F as [->| ->], Hg as [->| ->]; cbn in Cfr, Cg;
      try contradiction;
      apply ltb_asym in Cfr; congruence. }
  rewrite Z. cbn. lia.
Qed.

(** *** The maintainer on its own *)

Lemma filter_idem {A} (p : A -> bool) (l : list A) :
  filter p (filter p l) = filter p l.
Proof.
  induction l as [|x l IH]; cbn; [reflexivity|].
  destruct (p x) eqn:P; cbn; [rewrite P|]; now rewrite IH.
Qed.



(** What the delete of the follow a -> b leaves. *)
Lemma Follow_delete_spec db a b :
  Follow_delete db a b
  = mkOutcome
      (mkDB (filter (fun f => negb (follow_between a b f)) (follows db))
            (if existsb (follow_between a b) (follows db)
             then filter (fun fr => negb (friendship_either a b fr)) (friendships db)
             else friendships db))
      None.
Proof.
  unfold Follow_delete.
  set (fs1 := filter (fun f => negb (follow_between a b f)) (follows db)).
  assert (Z : follows_accepted fs1 a b = false).
  { unfold fs1. rewrite accepted_filter.
    assert (K : follow_between a b (mkFollow a b ACCEPTED) = true)
      by now apply between_mk.
    now rewrite K. }
  assert (G : forall gone frs,
             Forall (fun f => follower f = a /\ followed f = b) gone ->
             fold_left
               (fun o f =>
                  match raised o with
                  | Some _ => o
                  | None => signalled (after o)
                              (update_friendship_on_follow_delete (after o) f)
                  end) gone (mkOutcome (mkDB fs1 frs) None)
             = mkOutcome
                 (mkDB fs1 (match gone with
                            | [] => frs
                            | _ => filter (fun fr => negb (friendship_either a b fr)) frs
                            end)) None).
  { induction gone as [|f gone IH]; intros frs Hg; [reflexivity|].
    inversion Hg as [|f' g' [Hf1 Hf2] Hg']; subst f' g'.
    cbn [fold_left raised after]. unfold update_friendship_on_follow_delete.
    rewrite Hf1, Hf2.
    destruct (update_friendships_cases (mkDB fs1 frs) a b) as [[B E]|[B E]].
    { cbn [follows] in B. rewrite Z in B. discriminate. }
    rewrite E. cbn [signalled follows friendships].
    rewrite (IH _ Hg'). destruct gone; [reflexivity|]. now rewrite filter_idem. }
  rewrite G.
  - f_equal. f_equal.
    destruct (filter (follow_between a b) (follows db)) as [|g l] eqn:F.
    + destruct (existsb (follow_between a b) (follows db)) eqn:Ex; [|reflexivity].
      apply existsb_exists in Ex as [f [Hin Hf]].
      assert (Hin' : In f (filter (follow_between a b) (follows db)))
        by (apply filter_In; auto).
      rewrite F in Hin'. contradiction.
    + assert (Hg : In g (filter (follow_between a b) (follows db)))
        by (rewrite F; now left).
      apply filter_In in Hg as [Hin Hg].
      assert (Ex : existsb (follow_between a b) (follows db) = true)
        by (apply existsb_exists; eauto).
      now rewrite Ex.
  - apply Forall_forall. intros f Hin. apply filter_In in Hin as [_ Hin].
    now apply follow_between_iff.
Qed.

Lemma filter_one {A} (p : A -> bool) (l : list A) (x y : A) :
  List.length (filter p l) <= 1 -> In x l -> In y l -> p x = true -> p y = true ->
  x = y.
Proof.
  intros L Hx Hy Px Py.
  assert (Ix : In x (filter p l)) by (apply filter_In; auto).
  assert (Iy : In y (filter p l)) by (apply filter_In; auto).
  destruct (filter p l) as [|z [|z' r]]; cbn in L; [contradiction | | lia].
  destruct Ix as [<-|[]], Iy as [<-|[]]. reflexivity.
Qed.


Import FollowViews.



End FriendshipInvariants.

(** ** Follows and friendships: what holds in every state *)

(** X1.  Mutual ACCEPTED follows between two distinct authors always
    come with a Friendship row: whatever creates, status updates and
    deletes were applied to the empty tables, if a follows b and b
    follows a with ACCEPTED status then is_friend_with answers True. *)
Theorem friendship_complete (ms : list Models.Mutation) (a b : string) :
  a <> b ->
  Models.follows_accepted (Models.follows (Models.run ms Models.empty_db)) a b = true ->
  Models.follows_accepted (Models.follows (Models.run ms Models.empty_db)) b a = true ->
  Models.is_friend_with (Models.run ms Models.empty_db) a b = true.
Proof.
  apply (run_complete ms Models.empty_db). intros x y _ H. discriminate.
Qed.

Lemma friendship_complete_witness :
  Models.is_friend_with
    (Models.run [Models.Create (Models.mkFollow "a" "b" Models.ACCEPTED);
                 Models.Create (Models.mkFollow "b" "a" Models.REQUESTING);
                 Models.SetStatus "b" "a" Models.ACCEPTED;
                 Models.SetStatus "c" "a" Models.REJECTED]
                Models.empty_db) "a" "b" = true.
Proof.
  apply friendship_complete; [discriminate | reflexivity | reflexivity].
Defined.

(** X2.  The friendship table is exact as long as no ACCEPTED follow
    is saved with another status: when every status update either
    writes ACCEPTED or is applied to a pair that is not ACCEPTED, then
    for distinct authors a Friendship row exists exactly when both
    follow each other with ACCEPTED status. *)
Theorem friendship_exact_when_guarded (ms : list Models.Mutation) :
  FollowTable.guarded ms Models.empty_db ->
  forall a b, a <> b ->
    Models.is_friend_with (Models.run ms Models.empty_db) a b
    = Models.follows_accepted (Models.follows (Models.run ms Models.empty_db)) a b
      && Models.follows_accepted (Models.follows (Models.run ms Models.empty_db)) b a.
Proof.
  intros G. apply run_exact; [exact G|]. reflexivity.
Qed.

Lemma friendship_exact_when_guarded_witness :
  let ms := [Models.Create (Models.mkFollow "a" "b" Models.REQUESTING);
             Models.Create (Models.mkFollow "b" "a" Models.ACCEPTED);
             Models.SetStatus "a" "b" Models.ACCEPTED;
             Models.Delete "b" "a"] in
  Models.is_friend_with (Models.run ms Models.empty_db) "a" "b"
  = Models.follows_accepted (Models.follows (Models.run ms Models.empty_db)) "a" "b"
    && Models.follows_accepted (Models.follows (Models.run ms Models.empty_db)) "b" "a".
Proof.
  apply friendship_exact_when_guarded; [|discriminate].
  cbn. repeat split; auto.
Defined.



(** X4.  At most one Follow row per ordered pair: in every state
    reached from the empty tables, the rows with a given follower and
    followed author are at most one. *)
Theorem follow_rows_unique (ms : list Models.Mutation) (a b : string) :
  List.length (filter (Models.follow_between a b)
                      (Models.follows (Models.run ms Models.empty_db))) <= 1.
Proof.
  assert (G : forall ms db, FollowTable.follow_unique (Models.follows db) ->
                            FollowTable.follow_unique (Models.follows (Models.run ms db))).
  { clear. unfold Models.run.
    induction ms as [|m ms IH]; intros db I; cbn [fold_left]; [exact I|].
    apply IH. now apply apply_follow_unique. }
  apply G. intros x y. cbn. lia.
Qed.

(** X5.  Friendship rows are stored once and in canonical order: in
    every state reached from the empty tables each row has
    author1 < author2, no row is repeated, and a pair of authors has at
    most one row, in whichever order it is asked for. *)
Theorem friendship_rows_canonical (ms : list Models.Mutation) :
  let frs := Models.friendships (Models.run ms Models.empty_db) in
  Forall (fun fr => String.ltb (Models.author1 fr) (Models.author2 fr) = true) frs
  /\ NoDup frs
  /\ forall a b, List.length (filter (Models.friendship_either a b) frs) <= 1.
Proof.
  cbn zeta.
  assert (T : forall ms db,
             Forall FollowTable.canonical (Models.friendships db)
             /\ NoDup (Models.friendships db) ->
             Forall FollowTable.canonical (Models.friendships (Models.run ms db))
             /\ NoDup (Models.friendships (Models.run ms db))).
  { clear. unfold Models.run.
    induction ms as [|m ms IH]; intros db I; cbn [fold_left]; [exact I|].
    apply IH.
    apply (apply_friendships_inv
             (fun frs => Forall FollowTable.canonical frs /\ NoDup frs)); [|exact I].
    intros d x y d'. apply update_friendships_tidy. }
  specialize (T ms Models.empty_db (conj (Forall_nil _) (NoDup_nil _))).
  split; [exact (proj1 T)|]. split; [exact (proj2 T)|].
  intros a b. now apply tidy_one_row.
Qed.

(** X6.  The friendship maintainer is idempotent and never writes a
    follow: when update_friendships returns, running it again for the
    same pair changes nothing, and the Follow table is as before. *)
Theorem update_friendships_idempotent (db db' : Models.DB) (a b : string) :
  Models.update_friendships db a b = Ok db' ->
  Models.update_friendships db' a b = Ok db'
  /\ Models.follows db' = Models.follows db.
Proof.
  intros H. pose proof (update_friendships_follows _ _ _ _ H) as Hf.
  split; [|exact Hf].
  destruct (update_friendships_cases db a b) as [[B E]|[B E]];
    destruct (update_friendships_cases db' a b) as [[B' E']|[B' E']];
    rewrite Hf in B'; try congruence; rewrite E in H; rewrite E'; clear E E'.
  - destruct (Models.Friendship_get_or_create (Models.friendships db) _ _)
      as [r|e] eqn:G; [|discriminate].
    injection H as <-. cbn [Models.friendships Models.follows].
    unfold Models.Friendship_get_or_create.
    apply get_or_create_cases in G as [[-> [fr F]]|[-> [Hxy F]]].
    + now rewrite F.
    + cbn [filter]. unfold Models.friendship_is at 1. cbn.
      rewrite !String.eqb_refl. cbn. now rewrite F.
  - injection H as <-. cbn [Models.friendships Models.follows].
    now rewrite filter_idem.
Qed.

Lemma update_friendships_idempotent_witness :
  let db := Models.mkDB [Models.mkFollow "a" "b" Models.ACCEPTED;
                         Models.mkFollow "b" "a" Models.ACCEPTED] [] in
  let db' := Models.mkDB (Models.follows db) [Models.mkFriendship "a" "b"] in
  Models.update_friendships db' "a" "b" = Ok db'
  /\ Models.follows db' = Models.follows db.
Proof.
  cbv zeta. apply update_friendships_idempotent. reflexivity.
Defined.

(** X7.  Unfollowing never fails and ends the friendship: deleting
    the follow a -> b removes the row, the delete handler does not
    raise, and when a row was there no Friendship row of the pair is
    left, whatever the tables held before. *)
Theorem unfollow_ends_friendship (db : Models.DB) (a b : string) :
  existsb (Models.follow_between a b) (Models.follows db) = true ->
  let o := Models.Follow_delete db a b in
  Models.raised o = None
  /\ existsb (Models.follow_between a b) (Models.follows (Models.after o)) = false
  /\ Models.follows_accepted (Models.follows (Models.after o)) a b = false
  /\ Models.is_friend_with (Models.after o) a b = false.
Proof.
  intros Ex. cbn zeta. rewrite Follow_delete_spec, Ex.
  cbn [Models.raised Models.after Models.follows Models.friendships].
  assert (Z : existsb (Models.follow_between a b)
                      (filter (fun f => negb (Models.follow_between a b f))
                              (Models.follows db)) = false).
  { apply not_true_is_false. intros C. apply existsb_exists in C as [f [Hin Hf]].
    apply filter_In in Hin as [_ Hn]. rewrite Hf in Hn. discriminate. }
  split; [reflexivity|]. split; [exact Z|]. split.
  - now apply no_row_not_accepted.
  - unfold Models.is_friend_with. cbn [Models.friendships].
    apply not_true_is_false. intros C. apply existsb_exists in C as [fr [Hin Hfr]].
    apply filter_In in Hin as [_ Hn]. rewrite Hfr in Hn. discriminate.
Qed.

Lemma unfollow_ends_friendship_witness :
  let db := Models.mkDB [Models.mkFollow "a" "b" Models.REJECTED;
                         Models.mkFollow "b" "a" Models.ACCEPTED]
                        [Models.mkFriendship "a" "b"] in
  Models.is_friend_with (Models.after (Models.Follow_delete db "a" "b")) "a" "b" = false.
Proof.
  cbv zeta. apply unfollow_ends_friendship. reflexivity.
Defined.



(** ** Listings of entries *)

Section ListingFacts.
Import Models Entries Stream.

Lemma visibility_cases (s : string) :
  (s = PUBLIC \/ s = UNLISTED \/ s = FRIENDS_ONLY)
  \/ ((s =? PUBLIC) = false /\ (s =? UNLISTED) = false /\ (s =? FRIENDS_ONLY) = false).
Proof.
  destruct (String.eqb_spec s PUBLIC); [now left; left|].
  destruct (String.eqb_spec s UNLISTED); [now left; right; left|].
  destruct (String.eqb_spec s FRIENDS_ONLY); [now left; right; right|].
  now right.
Qed.

Lemma friendship_exists_sym db v e :
  friendship_exists db v e
  = existsb (friendship_either (author e) v) (friendships db).
Proof.
  unfold friendship_exists. induction (friendships db) as [|fr l IH]; cbn; [reflexivity|].
  rewrite IH. f_equal. unfold friendship_either. apply orb_comm.
Qed.

Lemma firstn_add_skipn {A} (n m : nat) (l : list A) :
  firstn (n + m) l = firstn n l ++ firstn m (skipn n l).
Proof.
  revert l. induction n as [|n IH]; intros l; cbn; [reflexivity|].
  destruct l as [|x l]; cbn; [now rewrite firstn_nil|]. now rewrite IH.
Qed.

Lemma In_firstn_skipn {A} (n m : nat) (l : list A) (x : A) :
  In x (firstn n (skipn m l)) -> In x l.
Proof.
  intros H. rewrite <- (firstn_skipn m l). apply in_or_app. right.
  rewrite <- (firstn_skipn n (skipn m l)). apply in_or_app. now left.
Qed.

End ListingFacts.

(** X9.  Whatever a listing shows can be opened by its link: an entry
    that visible_to_author returns to a viewer (anonymous or not) is
    returned by get_object to that viewer on a read. *)
Theorem listed_entries_are_readable
        (db : Models.DB) (entries : list Entries.Entry) (viewer : option string)
        (is_staff : bool) (e : Entries.Entry) :
  In e (Entries.visible_to_author db entries viewer) ->
  Entries.get_object_read db is_staff viewer e = true.
Proof.
  intros H. apply visible_In in H as [_ H].
  unfold Entries.get_object_read. destruct is_staff; [reflexivity|].
  destruct (Entries.visibility e =? Entries.PUBLIC) eqn:P; [reflexivity|].
  destruct (Entries.visibility e =? Entries.UNLISTED) eqn:U; [reflexivity|].
  unfold Entries.visible_row in H. rewrite P, U in H.
  destruct viewer as [v|]; [|discriminate].
  cbn [orb andb] in H. apply andb_prop in H as [H _].
  destruct (Entries.visibility e =? Entries.FRIENDS_ONLY); [|discriminate].
  cbn [andb orb] in *. rewrite friendship_exists_sym in H.
  destruct (Entries.author e =? v); [reflexivity|]. exact H.
Qed.

Lemma listed_entries_are_readable_witness :
  let e := Entries.mkEntry "2" "http://n/api/authors/1/entries/2"
                           "http://n/api/authors/1" "t" "" "c" "text/plain"
                           Entries.FRIENDS_ONLY "" "" "" None in
  let db := Models.mkDB [] [Models.mkFriendship "http://n/api/authors/1"
                                                "http://n/api/authors/3"] in
  Entries.get_object_read db false (Some "http://n/api/authors/3") e = true.
Proof.
  cbv zeta.
  apply (listed_entries_are_readable _
           [Entries.mkEntry "2" "http://n/api/authors/1/entries/2"
                            "http://n/api/authors/1" "t" "" "c" "text/plain"
                            Entries.FRIENDS_ONLY "" "" "" None]).
  cbn. now left.
Defined.

(** X10.  The anonymous listing is the list of the PUBLIC entries, and
    every authenticated viewer is shown at least that: what
    visible_to_author returns for no viewer is what public_entries
    returns, and each of these entries is returned for any viewer. *)
Theorem anonymous_listing_is_public
        (db : Models.DB) (entries : list Entries.Entry) :
  Entries.visible_to_author db entries None = Stream.public_entries entries
  /\ forall v e, In e (Entries.visible_to_author db entries None) ->
                 In e (Entries.visible_to_author db entries (Some v)).
Proof.
  split.
  - unfold Entries.visible_to_author, Stream.public_entries.
    apply filter_ext. intros e. unfold Entries.visible_row.
    destruct (String.eqb_spec (Entries.visibility e) Entries.PUBLIC) as [E|E];
      [rewrite E|]; reflexivity.
  - intros v e H. apply visible_In in H as [Hin H]. apply visible_In. split; [exact Hin|].
    unfold Entries.visible_row in *. apply andb_prop in H as [H1 H2].
    now rewrite H1, H2.
Qed.

(** X11.  A listing only ever holds PUBLIC, UNLISTED and FRIENDS
    entries, and an author is shown every such entry of their own: an
    entry whose visibility column holds anything else (DELETED, or a
    value a remote node sent in another spelling) is returned to no
    viewer, its author included. *)
Theorem listing_by_visibility
        (db : Models.DB) (entries : list Entries.Entry) (e : Entries.Entry) :
  (forall viewer, In e (Entries.visible_to_author db entries viewer) ->
                  Entries.visibility e = Entries.PUBLIC
                  \/ Entries.visibility e = Entries.UNLISTED
                  \/ Entries.visibility e = Entries.FRIENDS_ONLY)
  /\ (In e (Entries.visible_to_author db entries (Some (Entries.author e)))
      <-> In e entries
          /\ (Entries.visibility e = Entries.PUBLIC
              \/ Entries.visibility e = Entries.UNLISTED
              \/ Entries.visibility e = Entries.FRIENDS_ONLY)).
Proof.
  assert (V : forall viewer, Entries.visible_row db viewer e = true ->
                Entries.visibility e = Entries.PUBLIC
                \/ Entries.visibility e = Entries.UNLISTED
                \/ Entries.visibility e = Entries.FRIENDS_ONLY).
  { intros viewer H.
    destruct (visibility_cases (Entries.visibility e)) as [C|[P [U F]]]; [exact C|].
    unfold Entries.visible_row in H. rewrite P, ?U, ?F in H.
    destruct viewer; discriminate. }
  split.
  - intros viewer H. apply visible_In in H as [_ H]. exact (V viewer H).
  - rewrite visible_In. split.
    + intros [Hin H]. split; [exact Hin | exact (V _ H)].
    + intros [Hin C]. split; [exact Hin|].
      unfold Entries.visible_row. rewrite String.eqb_refl.
      destruct C as [C|[C|C]]; rewrite C; reflexivity.
Qed.

(** X12.  The pages of the stream tile the visible entries: for a
    positive page size, every page from 1 on is served, holds at most
    [size] entries, all of them visible to the author; the pages 1..n
    put end to end are the first n * size visible entries, so no entry
    is skipped or shown twice; and a page below 1 is refused. *)
Theorem stream_pages (db : Models.DB) (entries : list Entries.Entry)
        (author : option string) (size : Z) :
  (0 < size)%Z ->
  (forall page, (1 <= page)%Z ->
     exists l, Stream.get_author_stream db entries author page size = Some l
               /\ List.length l <= Z.to_nat size
               /\ forall e, In e l -> In e (Entries.visible_to_author db entries author))
  /\ (forall n : nat,
        flat_map (fun k => Stream.page_of db entries author size (Z.of_nat (S k)))
                 (seq 0 n)
        = firstn (n * Z.to_nat size) (Entries.visible_to_author db entries author))
  /\ (forall page, (page < 1)%Z ->
        Stream.get_author_stream db entries author page size = None).
Proof.
  intros Hs.
  assert (P : forall page, (1 <= page)%Z ->
            Stream.get_author_stream db entries author page size
            = Some (firstn (Z.to_nat size)
                           (skipn (Z.to_nat (page - 1) * Z.to_nat size)
                                  (Entries.visible_to_author db entries author)))).
  { intros page Hp. unfold Stream.get_author_stream.
    assert (E1 : ((page - 1) * size <? 0)%Z = false) by (apply Z.ltb_ge; nia).
    assert (E2 : ((page - 1) * size + size <? 0)%Z = false) by (apply Z.ltb_ge; nia).
    rewrite E1, E2. cbn [orb]. f_equal. f_equal.
    - f_equal. lia.
    - f_equal. rewrite Z2Nat.inj_mul by lia. reflexivity. }
  split; [|split].
  - intros page Hp. eexists. split; [now apply P|]. split.
    + rewrite length_firstn. lia.
    + intros e. apply In_firstn_skipn.
  - induction n as [|n IH]; [reflexivity|].
    rewrite seq_S, flat_map_app, IH. cbn [flat_map Nat.add].
    rewrite app_nil_r. unfold Stream.page_of. rewrite P by lia.
    replace (Z.to_nat (Z.of_nat (S n) - 1)) with n by lia.
    replace (S n * Z.to_nat size) with (n * Z.to_nat size + Z.to_nat size) by lia.
    now rewrite firstn_add_skipn.
  - intros page Hp. unfold Stream.get_author_stream.
    assert (E : ((page - 1) * size <? 0)%Z = true) by (apply Z.ltb_lt; nia).
    now rewrite E.
Qed.

Lemma stream_pages_witness :
  let e := fun i => Entries.mkEntry i "" "a" "t" "" "c" "text/plain"
                                    Entries.PUBLIC "" "" "" None in
  let entries := [e "1"; e "2"; e "3"; e "4"; e "5"] in
  Stream.get_author_stream Models.empty_db entries None 0 2 = None
  /\ Stream.page_of Models.empty_db entries None 2 1
     ++ Stream.page_of Models.empty_db entries None 2 2
     ++ Stream.page_of Models.empty_db entries None 2 3 = entries.
Proof.
  cbv zeta.
  pose proof (stream_pages Models.empty_db
                [Entries.mkEntry "1" "" "a" "t" "" "c" "text/plain" Entries.PUBLIC "" "" "" None;
                 Entries.mkEntry "2" "" "a" "t" "" "c" "text/plain" Entries.PUBLIC "" "" "" None;
                 Entries.mkEntry "3" "" "a" "t" "" "c" "text/plain" Entries.PUBLIC "" "" "" None;
                 Entries.mkEntry "4" "" "a" "t" "" "c" "text/plain" Entries.PUBLIC "" "" "" None;
                 Entries.mkEntry "5" "" "a" "t" "" "c" "text/plain" Entries.PUBLIC "" "" "" None]
                None 2%Z eq_refl) as [_ [T R]].
  split.
  - apply R. reflexivity.
  - specialize (T 3). cbn [seq flat_map] in T. rewrite app_nil_r in T. exact T.
Defined.

(** ** Soft delete, likes *)

Section SoftDeleteFacts.
Import Resolver.

Lemma Entry_save_spec cfg table adding ua e e' table' :
  Entry_save cfg table adding ua e = Ok (e', table') ->
  e' = entry_generated cfg ua e
  /\ In e' table'
  /\ forall o, In o table -> Entries.id o <> Entries.id e -> In o table'.
Proof.
  unfold Entry_save. intros H.
  destruct (entry_generated_fields cfg ua e) as [Gi _].
  destruct (adding && _); [discriminate|].
  destruct (existsb (fun o => Entries.url o =? _) _); [discriminate|].
  destruct (existsb (fun o => Entries.id o =? _) table) eqn:Ex;
    injection H as <- <-; (split; [reflexivity|]); split.
  - apply existsb_exists in Ex as [o [Hin Ho]].
    apply in_map_iff. exists o. now rewrite Ho.
  - intros o Hin Hne. apply in_map_iff. exists o. split; [|exact Hin].
    rewrite Gi. destruct (String.eqb_spec (Entries.id o) (Entries.id e)); [contradiction|].
    reflexivity.
  - now left.
  - intros o Hin _. now right.
Qed.

End SoftDeleteFacts.

(** X13.  A destroyed entry is kept but hidden: when destroy
    succeeds the entry is still stored, with visibility DELETED and
    under the same id, every other entry is left in place,
    visible_to_author returns it to no viewer, and get_object lets
    only staff read it by its link. *)
Theorem destroyed_entry_hidden
        (net : Fanout.Network) (nodes : string -> option Fanout.Node)
        (cfg : Resolver.Settings) (w w' : Fanout.World) (user_author : Resolver.Author)
        (e entry : Entries.Entry) (log : list Fanout.Delivery) :
  Fanout.destroy net nodes cfg w user_author e = Ok (entry, w', log) ->
  In entry (Fanout.entries w')
  /\ Entries.id entry = Entries.id e
  /\ Entries.visibility entry = Entries.DELETED
  /\ (forall o, In o (Fanout.entries w) -> Entries.id o <> Entries.id e ->
                In o (Fanout.entries w'))
  /\ (forall db viewer,
         ~ In entry (Entries.visible_to_author db (Fanout.entries w') viewer))
  /\ (forall db is_staff viewer,
         Entries.get_object_read db is_staff viewer entry = is_staff).
Proof.
  unfold Fanout.destroy. intros H.
  destruct (Resolver.Entry_save cfg (Fanout.entries w) false user_author
              (Fanout.with_visibility e Entries.DELETED)) as [[e1 t1]|x] eqn:S;
    [|discriminate].
  cbn in H. injection H as <- <- _. cbn [Fanout.entries].
  apply Entry_save_spec in S as [E [Hin Ho]].
  destruct (entry_generated_fields cfg user_author
              (Fanout.with_visibility e Entries.DELETED))
    as [Gi [_ [_ [_ [_ [_ [_ [Gv _]]]]]]]].
  assert (V : Entries.visibility e1 = Entries.DELETED) by (rewrite E, Gv; reflexivity).
  split; [exact Hin|]. split; [rewrite E, Gi; reflexivity|]. split; [exact V|].
  split; [exact Ho|]. split.
  - intros db viewer C. apply visible_In in C as [_ C].
    rewrite deleted_hidden in C by exact V. discriminate.
  - intros db is_staff viewer. unfold Entries.get_object_read. rewrite V.
    destruct is_staff; [reflexivity|]. cbn. now destruct viewer.
Qed.

Lemma destroyed_entry_hidden_witness :
  let cfg := Resolver.mkSettings "http://local" "http://local" in
  let bob := Resolver.mkAuthor "id-1" "http://local/api/authors/id-1" "bob" "Bob" ""
               "http://local/api/" "http://local/authors/id-1" None in
  let e := Entries.mkEntry "249" "http://local/api/authors/id-1/entries/249"
             "http://local/api/authors/id-1" "t" "" "c" "text/plain"
             Entries.PUBLIC "" "" "http://local/authors/id-1/entries/249" None in
  let gone := Fanout.with_visibility e Entries.DELETED in
  In gone [gone]
  /\ forall db viewer, ~ In gone (Entries.visible_to_author db [gone] viewer).
Proof.
  intros cfg bob e gone.
  assert (H : Fanout.destroy (fun _ => Ok 200) (fun _ => None) cfg
                (Fanout.mkWorld [] [e]) bob e
              = Ok (gone, Fanout.mkWorld [] [gone], [])) by reflexivity.
  destruct (destroyed_entry_hidden _ _ _ _ _ _ _ _ _ H) as [H1 [_ [_ [_ [H5 _]]]]].
  split; [exact H1 | exact H5].
Defined.

Section LikeListingFacts.
Import Likes.

Lemma save_In S t adding aid l t' :
  save S t adding aid l = Ok t' -> In (with_url S aid l) t'.
Proof.
  unfold save. intros H.
  destruct (constraint_violated _ _); [discriminate|].
  destruct (existsb (fun o => id o =? id (with_url S aid l)) t) eqn:Ex.
  - destruct adding; [discriminate|]. injection H as <-.
    apply existsb_exists in Ex as [o [Hin Ho]].
    apply in_map_iff. exists o. now rewrite Ho.
  - injection H as <-. now left.
Qed.

End LikeListingFacts.

(** X14.  A like is seen by has_liked_entry until it is deleted: on
    a table reached from the empty one, after a like of an entry is
    saved has_liked_entry answers True for its author and that entry,
    and after this like is deleted it answers False, since no second
    like of the same author on the same entry can be stored. *)
Theorem like_then_unlike
        (SITE_URL : string) (ws : list Likes.LikeOp) (adding : bool)
        (author_id : string) (l : Likes.Like) (e : string) (t' : list Likes.Like) :
  Likes.entry l = Some e ->
  Likes.save SITE_URL (Likes.run SITE_URL ws []) adding author_id l = Ok t' ->
  Stream.has_liked_entry t' (Likes.author l) e = true
  /\ Stream.has_liked_entry (Likes.delete t' (Likes.id l)) (Likes.author l) e = false.
Proof.
  intros He Hs.
  assert (I : Likes.like_inv t').
  { apply (save_inv _ _ _ _ _ _ (run_inv SITE_URL ws [] ltac:(
             split; [constructor | split; [constructor | intros a tgt; cbn; lia]])) Hs). }
  pose proof (save_In _ _ _ _ _ _ Hs) as Hin.
  destruct (with_url_fields SITE_URL author_id l) as [Wi [Wa [We _]]].
  set (l' := Likes.with_url SITE_URL author_id l) in *.
  assert (M : (Likes.author l' =? Likes.author l)
              && Likes.opt_is (Likes.entry l') e = true).
  { rewrite Wa, We, He. cbn. now rewrite !String.eqb_refl. }
  split.
  - unfold Stream.has_liked_entry. apply existsb_exists. exists l'. auto.
  - apply not_true_is_false. intros C. unfold Stream.has_liked_entry in C.
    apply existsb_exists in C as [o [Ho Co]].
    unfold Likes.delete in Ho. apply filter_In in Ho as [Ho Hn].
    destruct I as [_ [_ I]].
    assert (E : o = l').
    { apply (filter_one _ _ _ _ (I (Likes.author l) (Likes.OnEntry e))); auto. }
    subst o. rewrite Wi, String.eqb_refl in Hn. discriminate.
Qed.

Lemma like_then_unlike_witness :
  let l := Likes.mkLike "7" "" "http://n/api/authors/1" (Some "http://n/e") None in
  let t' := [Likes.with_url "http://n" "1" l] in
  Stream.has_liked_entry t' "http://n/api/authors/1" "http://n/e" = true
  /\ Stream.has_liked_entry (Likes.delete t' "7") "http://n/api/authors/1" "http://n/e"
     = false.
Proof.
  cbv zeta.
  apply (like_then_unlike "http://n" [] true "1"
           (Likes.mkLike "7" "" "http://n/api/authors/1" (Some "http://n/e") None)
           "http://n/e"); reflexivity.
Defined.

(** ** Percent-encoding *)

Section CodecFacts.
Import PyStr UrlLib UrlCodec.

Lemma unquote_quote_char (c : ascii) (t : str) :
  unquote (quote_char c ++ t) = option_map (cons c) (unquote t).
Proof.
  destruct c as [[] [] [] [] [] [] [] []]; try reflexivity;
    destruct t as [|h1 [|h2 t2]]; reflexivity.
Qed.

Lemma unquote_quote (s : str) : unquote (quote s) = Some s.
Proof.
  induction s as [|c s IH]; [reflexivity|].
  unfold quote in *. cbn [flat_map]. now rewrite unquote_quote_char, IH.
Qed.

Lemma quote_char_alphabet (c : ascii) :
  forallb (fun x => always_safe x || Ascii.eqb x "%") (quote_char c) = true.
Proof. destruct c as [[] [] [] [] [] [] [] []]; reflexivity. Qed.

Lemma quote_alphabet (s : str) :
  forallb (fun x => always_safe x || Ascii.eqb x "%") (quote s) = true.
Proof.
  induction s as [|c s IH]; [reflexivity|].
  unfold quote in *. cbn [flat_map]. rewrite forallb_app, IH, quote_char_alphabet.
  reflexivity.
Qed.

Lemma rev_snoc_slash (s : str) : endswith_slash (s ++ ["/"%char]) = true.
Proof. unfold endswith_slash. now rewrite rev_app_distr. Qed.

Lemma list_ascii_app (a b : string) :
  list_ascii_of_string (a ++ b) = list_ascii_of_string a ++ list_ascii_of_string b.
Proof. induction a as [|c a IH]; cbn; [reflexivity | now rewrite IH]. Qed.

End CodecFacts.

(** X15.  Percent-encoding loses nothing: decoding an encoded URL
    gives the URL back, for every text of characters below 256, and
    so two URLs with the same encoding are the same URL. *)
Theorem percent_round_trip :
  (forall url, UrlCodec.percent_decode_url (UrlCodec.percent_encode_url url) = Some url)
  /\ (forall u v, UrlCodec.percent_encode_url u = UrlCodec.percent_encode_url v -> u = v).
Proof.
  assert (R : forall url,
             UrlCodec.percent_decode_url (UrlCodec.percent_encode_url url) = Some url).
  { intros url. unfold UrlCodec.percent_decode_url, UrlCodec.percent_encode_url.
    rewrite list_ascii_of_string_of_list_ascii, unquote_quote. cbn.
    now rewrite string_of_list_ascii_of_string. }
  split; [exact R|].
  intros u v E. pose proof (R u) as Hu. rewrite E, R in Hu. now injection Hu.
Qed.

(** X16.  An encoded URL is one path segment: percent_encode_url
    returns only letters, digits, [_], [.], [-], [~] and the percent
    sign, so no slash, question mark, hash, colon or space is left in
    it. *)
Theorem percent_encoded_is_one_segment (url : string) :
  let encoded := list_ascii_of_string (UrlCodec.percent_encode_url url) in
  (forall c, In c encoded -> UrlCodec.always_safe c = true \/ c = "%"%char)
  /\ PyStr.contains "/" encoded = false
  /\ PyStr.contains "?" encoded = false
  /\ PyStr.contains "#" encoded = false
  /\ PyStr.contains ":" encoded = false
  /\ PyStr.contains " " encoded = false.
Proof.
  cbn zeta. unfold UrlCodec.percent_encode_url.
  rewrite list_ascii_of_string_of_list_ascii.
  pose proof (quote_alphabet (list_ascii_of_string url)) as A.
  rewrite forallb_forall in A.
  assert (N : forall sep,
             UrlCodec.always_safe sep || Ascii.eqb sep "%" = false ->
             PyStr.contains sep (UrlCodec.quote (list_ascii_of_string url)) = false).
  { intros sep Hs. apply not_true_is_false. intros C.
    unfold PyStr.contains in C. apply existsb_exists in C as [x [Hin Hx]].
    apply Ascii.eqb_eq in Hx. subst x. apply A in Hin. congruence. }
  split.
  - intros c Hin. apply A in Hin. apply orb_prop in Hin as [H|H]; [now left|].
    right. now apply Ascii.eqb_eq.
  - repeat split; now apply N.
Qed.

(** X17.  normalize_url is idempotent: its result ends with a slash,
    is the URL itself or the URL with one slash added, and is left as
    it is by a second pass. *)
Theorem normalize_url_idempotent (url : string) :
  UrlCodec.endswith_slash (list_ascii_of_string (UrlCodec.normalize_url url)) = true
  /\ (UrlCodec.normalize_url url = url \/ UrlCodec.normalize_url url = (url ++ "/")%string)
  /\ UrlCodec.normalize_url (UrlCodec.normalize_url url) = UrlCodec.normalize_url url.
Proof.
  assert (E : UrlCodec.endswith_slash (list_ascii_of_string (UrlCodec.normalize_url url))
              = true).
  { unfold UrlCodec.normalize_url.
    destruct (UrlCodec.endswith_slash (list_ascii_of_string url)) eqn:S; cbn [negb].
    - exact S.
    - rewrite list_ascii_app. apply rev_snoc_slash. }
  split; [exact E|]. split.
  - unfold UrlCodec.normalize_url. destruct (negb _); auto.
  - unfold UrlCodec.normalize_url at 1. now rewrite E.
Qed.

(** ** Valid URLs, base host *)

Section ValidUrlFacts.
Import PyStr UrlLib UrlUtils UrlCodec.

Local Abbreviation safe := (fun c : ascii => unsafe_byte c = false).
Local Abbreviation avoids x := (fun c : ascii => Ascii.eqb x c = false).

Lemma lstrip_Forall (P : ascii -> Prop) (p : ascii -> bool) (s : str) :
  Forall P s -> Forall P (lstrip p s).
Proof.
  induction s as [|c s IH]; cbn; intros H; [constructor|].
  destruct (p c); [|exact H]. inversion H; auto.
Qed.

Lemma filter_Forall {A} (P : A -> Prop) (q : A -> bool) (s : list A) :
  Forall P s -> Forall P (filter q s).
Proof.
  rewrite !Forall_forall. intros H x Hin. apply filter_In in Hin as [Hin _]. auto.
Qed.

Lemma split_netloc_rest (u nl r : str) :
  split_netloc u = Ok (nl, r) -> nl <> [] ->
  r = [] \/ exists c r', r = c :: r' /\ netloc_delim c = true.
Proof.
  unfold split_netloc. intros H N.
  assert (D : Ok (@nil ascii, u) = Ok (nl, r) ->
              r = [] \/ exists c r', r = c :: r' /\ netloc_delim c = true).
  { intros X. injection X as <- <-. contradiction. }
  destruct u as [|c1 u]; [auto|].
  destruct (Ascii.eqb_spec c1 "/") as [->|N1];
    [|destruct c1 as [[] [] [] [] [] [] [] []]; try (now apply D); now elim N1].
  destruct u as [|c2 u]; [now apply D|].
  destruct (Ascii.eqb_spec c2 "/") as [->|N2];
    [|destruct c2 as [[] [] [] [] [] [] [] []]; try (now apply D); now elim N2].
  clear D. destruct (break netloc_delim u) as [a b] eqn:E.
  apply break_spec in E as (_ & _ & Hb).
  destruct (bracket_mismatch a); [discriminate|].
  injection H as <- <-. exact Hb.
Qed.

Lemma split_once_head (sep : ascii) (u a b : str) :
  split_once sep u = (a, b) ->
  match u with
  | [] => a = []
  | c :: _ => if Ascii.eqb sep c then a = [] else exists r, a = c :: r
  end.
Proof.
  unfold split_once. destruct (partition sep u) as [[x found] y] eqn:E.
  apply partition_spec in E. intros H. destruct found.
  - injection H as <- <-. destruct E as [-> Fx].
    destruct x as [|c x]; cbn.
    + now rewrite Ascii.eqb_refl.
    + inversion Fx as [|? ? Hc _]; subst. rewrite Hc. eauto.
  - injection H as <- <-. destruct E as (_ & _ & Fs).
    destruct u as [|c u]; [reflexivity|].
    inversion Fs as [|? ? Hc _]; subst. rewrite Hc. eauto.
Qed.

(** A URL without semicolon and bracket that has a network location:
    the path is empty or starts at the root. *)
Lemma urlparse_plain (u : str) (p : ParseResult) :
  urlparse u = Ok p ->
  Forall (avoids ";"%char) u -> Forall (avoids "["%char) u -> netloc p <> [] ->
  contains "[" (netloc p) = false
  /\ (path p = [] \/ exists r, path p = "/"%char :: r)
  /\ contains ";" (path p) = false.
Proof.
  unfold urlparse. intros H Fs Fb.
  set (u1 := filter (fun c => negb (unsafe_byte c)) (lstrip c0_control_or_space u)) in *.
  assert (F1 : Forall (fun c => avoids ";"%char c /\ avoids "["%char c) u1).
  { apply filter_Forall, lstrip_Forall, Forall_and; assumption. }
  destruct (split_scheme u1) as [sch r1] eqn:E1.
  destruct (split_scheme_spec _ _ _ _ E1 F1) as [F2 _].
  destruct (split_netloc r1) as [[nl r2]|e] eqn:E2; [|discriminate]. cbn [bind] in H.
  destruct (split_netloc_spec _ _ _ _ E2 F2) as (Fn & F3 & _ & _).
  destruct (split_once "#" r2) as [r3 fr] eqn:E3.
  destruct (split_once_spec _ _ _ _ _ E3 F3) as (F4 & _ & _).
  destruct (split_once "?" r3) as [r4 qu] eqn:E4.
  destruct (split_once_spec _ _ _ _ _ E4 F4) as (F5 & _ & _).
  assert (C : contains ";" r4 = false).
  { apply contains_false. eapply Forall_impl; [|exact F5]. cbn. tauto. }
  rewrite C, andb_false_r in H. injection H as <-. cbn [netloc path].
  intros Nn. split; [|split; [|exact C]].
  - apply contains_false. eapply Forall_impl; [|exact Fn]. cbn. tauto.
  - destruct (split_netloc_rest _ _ _ E2 Nn) as [->|[c [r' [-> Hc]]]].
    + apply split_once_head in E3. cbn in E3. subst r3.
      apply split_once_head in E4. cbn in E4. now left.
    + apply split_once_head in E3.
      change (if Ascii.eqb "#" c then r3 = [] else exists r, r3 = c :: r) in E3.
      destruct (Ascii.eqb "#" c) eqn:K3.
      * subst r3. apply split_once_head in E4. cbn in E4. now left.
      * destruct E3 as [r3' ->]. apply split_once_head in E4.
        change (if Ascii.eqb "?" c then r4 = [] else exists r, r4 = c :: r) in E4.
        destruct (Ascii.eqb "?" c) eqn:K4; [now left|].
        destruct E4 as [r4' ->]. right. exists r4'. f_equal.
        unfold netloc_delim in Hc. rewrite Ascii.eqb_sym in K3, K4.
        rewrite K3, K4, !orb_false_r in Hc. now apply Ascii.eqb_eq.
Qed.

End ValidUrlFacts.

(** X18.  A URL that is_valid_url accepts, and that holds no
    semicolon and no bracket, is normalized to a fixed point:
    whenever normalize_author_url returns for it, normalizing the
    result again changes nothing. *)
Theorem valid_url_normal_form (url v : string) :
  UrlCodec.is_valid_url url = true ->
  PyStr.contains ";" (list_ascii_of_string url) = false ->
  PyStr.contains "[" (list_ascii_of_string url) = false ->
  UrlUtils.normalize_author_url url = Ok v ->
  UrlUtils.normalize_author_url v = Ok v.
Proof.
  unfold UrlCodec.is_valid_url, UrlUtils.normalize_author_url.
  set (u := list_ascii_of_string url).
  intros V Hs Hb H.
  destruct (UrlLib.urlparse u) as [p|e] eqn:P; [|discriminate].
  destruct (UrlLib.scheme p) as [|c sch] eqn:S; [discriminate|].
  destruct (UrlLib.netloc p) as [|d nl] eqn:N; [discriminate|].
  assert (Nn : UrlLib.netloc p <> []) by (rewrite N; discriminate).
  apply contains_false in Hs, Hb.
  destruct (urlparse_plain u p P Hs Hb Nn) as [Cb [Hp Cs]].
  destruct (UrlUtils.normalize u) as [v0|e] eqn:Nu; [|discriminate].
  cbn [bind] in H. injection H as <-.
  assert (Hport : exists po, UrlLib.port p = Ok po).
  { unfold UrlUtils.normalize in Nu. destruct u as [|x u'] eqn:U.
    - cbn in P. injection P as <-. discriminate.
    - rewrite P in Nu. cbn [bind] in Nu.
      destruct (UrlLib.port p) as [po|e]; [eauto | discriminate]. }
  destruct Hport as [po Hpo].
  assert (Hsch : UrlLib.scheme p <> []) by (rewrite S; discriminate).
  destruct (normalize_regular u p po P Hpo Hsch Cb Hp) as [E1 [_ [E3 _]]].
  { intros C. exfalso. apply andb_prop in C as [_ C].
    assert (Z : PyStr.contains ";" (PyStr.rstrip "/" (UrlLib.path p)) = false).
    { apply contains_false. apply rstrip_Forall. now apply contains_false. }
    congruence. }
  rewrite Nu in E1. injection E1 as E1.
  rewrite list_ascii_of_string_of_list_ascii. rewrite E1, E3. reflexivity.
Qed.

Lemma valid_url_normal_form_witness :
  UrlUtils.normalize_author_url "http://node1.example/api/authors/7?page=2"
  = Ok "http://node1.example/api/authors/7?page=2".
Proof.
  apply (valid_url_normal_form "HTTP://Node1.Example:80/api/authors/7/?page=2");
    reflexivity.
Defined.

(** X19.  The base host of a valid URL is a fixed point of
    get_base_host: when is_valid_url accepts a URL, get_base_host
    returns scheme://netloc for it, this text is again accepted by
    is_valid_url, and its own base host is itself. *)
Theorem base_host_idempotent (url : string) :
  UrlCodec.is_valid_url url = true ->
  exists b, UrlCodec.get_base_host url = Ok b
            /\ UrlCodec.is_valid_url b = true
            /\ UrlCodec.get_base_host b = Ok b.
Proof.
  unfold UrlCodec.is_valid_url, UrlCodec.get_base_host.
  intros V.
  destruct (UrlLib.urlparse (list_ascii_of_string url)) as [p|e] eqn:P; [|discriminate].
  destruct (urlparse_spec _ _ P) as (Hs & Fn & Fd & Fb & _).
  destruct (UrlLib.scheme p) as [|c sch] eqn:S; [discriminate|].
  destruct (UrlLib.netloc p) as [|d nl] eqn:N; [discriminate|].
  destruct Hs as [Hs|Hs]; [discriminate|].
  cbn [bind]. eexists. split; [reflexivity|].
  rewrite list_ascii_of_string_of_list_ascii.
  pose proof (urlparse_assemble (c :: sch) (d :: nl) [] [] [] Hs Fn Fd Fb
                (or_introl eq_refl) (Forall_nil _) (Forall_nil _) (Forall_nil _)) as A.
  unfold UrlUtils.assemble in A. rewrite app_nil_r in A.
  rewrite S, N, A.
  - cbn [bind UrlLib.scheme UrlLib.netloc]. split; reflexivity.
  - intros C. rewrite andb_false_r in C. discriminate.
  - constructor.
  - constructor.
  - constructor.
Qed.

Lemma base_host_idempotent_witness :
  exists b, UrlCodec.get_base_host "http://example.com/api/authors/" = Ok b
            /\ UrlCodec.is_valid_url b = true
            /\ UrlCodec.get_base_host b = Ok b.
Proof. apply base_host_idempotent. reflexivity. Defined.

(** ** UUIDs in URLs *)

Section UuidFacts.
Import PyStr Uuid.

Lemma hex_run_spec (n : nat) : forall s r,
  hex_run n s = Some r ->
  exists h, s = h ++ r /\ List.length h = n /\ forallb is_hex h = true.
Proof.
  induction n as [|n IH]; intros s r H; cbn in H.
  - injection H as <-. exists []. auto.
  - destruct s as [|c t]; [discriminate|].
    destruct (is_hex c) eqn:C; [|discriminate].
    apply IH in H as [h [-> [L F]]]. exists (c :: h). cbn. rewrite C, L, F. auto.
Qed.

Lemma hex_run_app (n : nat) (h r : str) :
  List.length h = n -> forallb is_hex h = true -> hex_run n (h ++ r) = Some r.
Proof.
  intros <-. induction h as [|c h IH]; cbn; intros F; [reflexivity|].
  apply andb_prop in F as [-> F]. auto.
Qed.

Lemma dash_spec (s r : str) : dash s = Some r -> s = "-"%char :: r.
Proof.
  unfold dash. destruct s as [|c t]; [discriminate|].
  destruct (Ascii.eqb_spec c "-") as [->|N].
  - intros H. now injection H as <-.
  - destruct c as [[] [] [] [] [] [] [] []]; try discriminate. now elim N.
Qed.

(** A match of the pattern is 36 characters long, and is a match
    whatever follows it. *)
Lemma uuid_at_prefix (s : str) :
  uuid_at s = true ->
  exists y r, s = y ++ r /\ List.length y = 36 /\ forall r', uuid_at (y ++ r') = true.
Proof.
  unfold uuid_at. intros H.
  destruct (hex_run 8 s) as [s1|] eqn:E1; [|discriminate]. cbn [and_then] in H.
  destruct (dash s1) as [s2|] eqn:D1; [|discriminate]. cbn [and_then] in H.
  destruct (hex_run 4 s2) as [s3|] eqn:E2; [|discriminate]. cbn [and_then] in H.
  destruct (dash s3) as [s4|] eqn:D2; [|discriminate]. cbn [and_then] in H.
  destruct (hex_run 4 s4) as [s5|] eqn:E3; [|discriminate]. cbn [and_then] in H.
  destruct (dash s5) as [s6|] eqn:D3; [|discriminate]. cbn [and_then] in H.
  destruct (hex_run 4 s6) as [s7|] eqn:E4; [|discriminate]. cbn [and_then] in H.
  destruct (dash s7) as [s8|] eqn:D4; [|discriminate]. cbn [and_then] in H.
  destruct (hex_run 12 s8) as [s9|] eqn:E5; [|discriminate]. clear H.
  apply hex_run_spec in E1 as [h1 [-> [L1 F1]]]. apply dash_spec in D1 as ->.
  apply hex_run_spec in E2 as [h2 [-> [L2 F2]]]. apply dash_spec in D2 as ->.
  apply hex_run_spec in E3 as [h3 [-> [L3 F3]]]. apply dash_spec in D3 as ->.
  apply hex_run_spec in E4 as [h4 [-> [L4 F4]]]. apply dash_spec in D4 as ->.
  apply hex_run_spec in E5 as [h5 [-> [L5 F5]]].
  exists (h1 ++ "-"%char :: h2 ++ "-"%char :: h3 ++ "-"%char :: h4 ++ "-"%char :: h5), s9.
  split; [|split].
  - repeat (rewrite <- app_assoc; cbn [app]). reflexivity.
  - repeat (rewrite length_app; cbn [List.length]). lia.
  - intros r'. repeat (rewrite <- app_assoc; cbn [app]).
    rewrite (hex_run_app 8 h1) by assumption. cbn [and_then dash].
    rewrite (hex_run_app 4 h2) by assumption. cbn [and_then dash].
    rewrite (hex_run_app 4 h3) by assumption. cbn [and_then dash].
    rewrite (hex_run_app 4 h4) by assumption. cbn [and_then dash].
    rewrite (hex_run_app 12 h5) by assumption. reflexivity.
Qed.

Lemma firstn_exact {A} (y r : list A) : firstn (List.length y) (y ++ r) = y.
Proof. induction y as [|c y IH]; cbn; [now destruct r | now rewrite IH]. Qed.

(** Whatever [last_uuid] returns is a match of the pattern cut out
    of the text. *)
Lemma last_uuid_spec (u : str) (s : str) : forall skip found pre x,
  u = pre ++ s ->
  (forall y, found = Some y ->
             List.length y = 36 /\ uuid_at y = true /\ exists a b, u = a ++ y ++ b) ->
  last_uuid skip s found = Some x ->
  List.length x = 36 /\ uuid_at x = true /\ exists a b, u = a ++ x ++ b.
Proof.
  induction s as [|c t IH]; intros skip found pre x Hu Hf H; cbn [last_uuid] in H.
  - now apply Hf.
  - assert (Hu' : u = (pre ++ [c]) ++ t) by (rewrite <- app_assoc; exact Hu).
    destruct skip as [|k]; [|exact (IH _ _ _ _ Hu' Hf H)].
    destruct (uuid_at (c :: t)) eqn:U; [|exact (IH _ _ _ _ Hu' Hf H)].
    apply (IH _ _ _ _ Hu') in H; [exact H|].
    intros z Hz.
    apply uuid_at_prefix in U as [y [r [E [L M]]]].
    assert (Fy : firstn 36 (c :: t) = y)
      by (rewrite E, <- L; apply firstn_exact).
    assert (Ez : z = y) by (rewrite <- Fy; now injection Hz as <-).
    subst z. split; [exact L|]. split.
    + rewrite <- (app_nil_r y). apply M.
    + exists pre, r. now rewrite Hu, E.
Qed.

End UuidFacts.

(** X20.  What parse_uuid_from_url returns is a UUID taken from the
    URL: the result, when there is one, is 36 characters long, matches
    the pattern 8-4-4-4-12 of hexadecimal digits, and occurs in the
    URL as it is written; a URL shorter than 36 characters has none. *)
Theorem parsed_uuid_is_from_url (url x : string) :
  Uuid.parse_uuid_from_url url = Some x ->
  String.length x = 36
  /\ Uuid.uuid_at (list_ascii_of_string x) = true
  /\ (exists a b, url = (a ++ x ++ b)%string)
  /\ 36 <= String.length url.
Proof.
  unfold Uuid.parse_uuid_from_url. intros H.
  destruct (Uuid.last_uuid 0 (list_ascii_of_string url) None) as [y|] eqn:E;
    [|discriminate].
  injection H as <-.
  apply (last_uuid_spec (list_ascii_of_string url) _ _ _ [] _ eq_refl) in E;
    [|discriminate].
  destruct E as [L [U [a [b E]]]].
  assert (Ls : forall l, String.length (string_of_list_ascii l) = List.length l).
  { induction l as [|c l IH]; cbn; [reflexivity | now rewrite IH]. }
  assert (As : forall l m, string_of_list_ascii (l ++ m)
                           = (string_of_list_ascii l ++ string_of_list_ascii m)%string).
  { induction l as [|c l IH]; intros m; cbn; [reflexivity | now rewrite IH]. }
  assert (Eu : url = (string_of_list_ascii a ++ string_of_list_ascii y
                      ++ string_of_list_ascii b)%string).
  { rewrite <- (string_of_list_ascii_of_string url), E, !As. reflexivity. }
  split; [now rewrite Ls|]. split; [now rewrite list_ascii_of_string_of_list_ascii|].
  split; [eauto|].
  rewrite <- (string_of_list_ascii_of_string url), E, Ls, !length_app. lia.
Qed.

Lemma parsed_uuid_is_from_url_witness :
  String.length "550e8400-e29b-41d4-a716-446655440000" = 36
  /\ Uuid.uuid_at (list_ascii_of_string "550e8400-e29b-41d4-a716-446655440000") = true
  /\ (exists a b,
        "http://example.com/authors/123e4567-e89b-12d3-a456-426614174000/entries/550e8400-e29b-41d4-a716-446655440000"
        = (a ++ "550e8400-e29b-41d4-a716-446655440000" ++ b)%string)
  /\ 36 <= String.length
             "http://example.com/authors/123e4567-e89b-12d3-a456-426614174000/entries/550e8400-e29b-41d4-a716-446655440000".
Proof. apply parsed_uuid_is_from_url. reflexivity. Defined.

(** ** The inbox over a run of posts *)

Section InboxLogFacts.
Import Resolver Inbox InboxLog.




End InboxLogFacts.


(** ** The undo of a like *)

Section UndoFacts.
Import Resolver Inbox Undo.

Lemma get_one_In {A} (q : A -> bool) (table : list A) (a : A) :
  get_one q table = Ok a -> In a table /\ q a = true.
Proof.
  unfold get_one. destruct (filter q table) as [|x [|y l]] eqn:F; try discriminate.
  intros H. injection H as <-. apply filter_In. rewrite F. now left.
Qed.

Lemma pass_found {A} (r : result A) (a : A) :
  pass_DoesNotExist r = Ok (Some a) -> r = Ok a.
Proof.
  destruct r as [x|[]]; cbn; intros H; try discriminate. now injection H as <-.
Qed.

Local Abbreviation by_actor st actor l :=
  (In l (likes st) /\ Likes.author l = a_url actor).

Lemma like_by_target_found st actor eq cq l :
  like_by_target st actor eq cq = Ok (Some l) -> by_actor st actor l.
Proof.
  unfold like_by_target.
  destruct (get_one eq (entries st)) as [e|x] eqn:E; cbn [bind].
  - destruct (get_one (like_of_entry actor e) (likes st)) as [k|x] eqn:K.
    + intros H. injection H as <-. apply get_one_In in K as [Hin Hq].
      split; [exact Hin|]. unfold like_of_entry in Hq.
      apply andb_prop in Hq as [Hq _]. now apply String.eqb_eq.
    + destruct x; try discriminate.
      intros H. apply pass_found in H.
      destruct (get_one cq (comments st)) as [c|y]; [|discriminate]. cbn [bind] in H.
      apply get_one_In in H as [Hin Hq]. split; [exact Hin|].
      unfold like_of_comment in Hq. apply andb_prop in Hq as [Hq _].
      now apply String.eqb_eq.
  - destruct x; try discriminate.
    intros H. apply pass_found in H.
    destruct (get_one cq (comments st)) as [c|y]; [|discriminate]. cbn [bind] in H.
    apply get_one_In in H as [Hin Hq]. split; [exact Hin|].
    unfold like_of_comment in Hq. apply andb_prop in Hq as [Hq _].
    now apply String.eqb_eq.
Qed.

(** The handler leaves the store as it is, or deletes one like of
    the actor and answers success. *)
Lemma unlike_cases st like_data actor :
  _process_unlike_activity st like_data actor = (None, st)
  \/ (exists u, _process_unlike_activity st like_data actor
                = (Some (unlike_result actor u "not_found_but_success"), st))
  \/ (exists u l, by_actor st actor l
                  /\ _process_unlike_activity st like_data actor
                     = (Some (unlike_result actor u "success"),
                        mkStore (authors st) (entries st) (comments st)
                                (Likes.delete (likes st) (Likes.id l)))).
Proof.
  unfold _process_unlike_activity.
  destruct (od_object like_data) as [[|c0 u0]|]; [now left | | now left].
  set (object_url := String c0 u0).
  match goal with
  | |- context [match ?x with Raise _ => (None, st) | Ok like => _ end] =>
      destruct x as [l1|e1] eqn:B1
  end; [|now left].
  assert (H1 : forall l, l1 = Some l -> by_actor st actor l).
  { intros l ->.
    destruct (match od_id like_data with
              | Some (String _ _ as u) => Uuid.parse_uuid_from_url u
              | _ => None
              end) as [uuid|]; [|discriminate].
    apply pass_found in B1. apply get_one_In in B1 as [Hin Hq].
    split; [exact Hin|]. apply andb_prop in Hq as [_ Hq]. now apply String.eqb_eq. }
  match goal with
  | |- context [match ?x with Raise _ => (None, st) | Ok like => _ end] =>
      destruct x as [l2|e2] eqn:B2
  end; [|now left].
  assert (H2 : forall l, l2 = Some l -> by_actor st actor l).
  { intros l ->. destruct l1 as [l1'|].
    - injection B2 as <-. now apply H1.
    - destruct (od_id like_data) as [[|c1 u1]|]; try discriminate.
      apply pass_found in B2. apply get_one_In in B2 as [Hin Hq].
      split; [exact Hin|]. apply andb_prop in Hq as [_ Hq]. now apply String.eqb_eq. }
  destruct l2 as [l|].
  - right. right. exists object_url, l. split; [now apply H2 | reflexivity].
  - match goal with
    | |- context [match ?x with Some l => _ | None => _ end] =>
        destruct x as [l|] eqn:B3
    end.
    + right. right. exists object_url, l. split; [|reflexivity].
      destruct (match Uuid.parse_uuid_from_url object_url with
                | Some object_uuid =>
                    like_by_target st actor
                      (fun e => Uuid.uuid_eqb (Entries.id e) object_uuid)
                      (fun c => Uuid.uuid_eqb (c_id c) object_uuid)
                | None => Ok None
                end) as [[k|]|x] eqn:B4; try discriminate.
      * injection B3 as <-.
        destruct (Uuid.parse_uuid_from_url object_url); [|discriminate].
        now apply like_by_target_found in B4.
      * destruct (like_by_target st actor (fun e => Entries.url e =? object_url)
                                 (fun c => c_url c =? object_url)) as [k|x] eqn:B5;
          [|discriminate].
        subst k. now apply like_by_target_found in B5.
    + right. left. now exists object_url.
Qed.

Lemma NoDup_key_eq {A} (key : A -> string) (t : list A) (x y : A) :
  NoDup (map key t) -> In x t -> In y t -> key x = key y -> x = y.
Proof.
  induction t as [|z t IH]; intros N Hx Hy E; [contradiction|].
  inversion N as [|? ? Hz N']; subst.
  destruct Hx as [->|Hx], Hy as [->|Hy]; auto.
  - exfalso. apply Hz. rewrite E. now apply in_map.
  - exfalso. apply Hz. rewrite <- E. now apply in_map.
Qed.

End UndoFacts.

(** X22.  Undoing a like removes at most one like, and only one of
    the actor: whatever the undo handler answers, authors, entries
    and comments are as before, no like is added, every like of
    another author is still stored, at most one like is gone, and
    when the handler answers None nothing has changed. *)
Theorem undo_like_touches_only_actor
        (st : Undo.Store) (like_data : Inbox.ObjectDict) (actor : Resolver.Author) :
  NoDup (map Likes.id (Undo.likes st)) ->
  let r := Undo._process_unlike_activity st like_data actor in
  Undo.authors (snd r) = Undo.authors st
  /\ Undo.entries (snd r) = Undo.entries st
  /\ Undo.comments (snd r) = Undo.comments st
  /\ (forall x, In x (Undo.likes (snd r)) -> In x (Undo.likes st))
  /\ (forall x, In x (Undo.likes st) -> Likes.author x <> Resolver.a_url actor ->
                In x (Undo.likes (snd r)))
  /\ List.length (Undo.likes st) <= S (List.length (Undo.likes (snd r)))
  /\ (fst r = None -> snd r = st).
Proof.
  intros N. cbn zeta.
  destruct (unlike_cases st like_data actor) as [E|[[u E]|[u [l [[Hin Ha] E]]]]];
    rewrite E; cbn [fst snd Undo.authors Undo.entries Undo.comments Undo.likes];
    try (repeat split; auto; discriminate).
  split; [reflexivity|]. split; [reflexivity|]. split; [reflexivity|].
  unfold Likes.delete. split; [|split; [|split; [|discriminate]]].
  - intros x Hx. now apply filter_In in Hx.
  - intros x Hx Hne. apply filter_In. split; [exact Hx|].
    destruct (String.eqb_spec (Likes.id x) (Likes.id l)) as [E'|]; [|reflexivity].
    exfalso. apply Hne. rewrite <- Ha. f_equal.
    now apply (NoDup_key_eq Likes.id (Undo.likes st)).
  - pose proof (id_filter_length (Undo.likes st) (Likes.id l) N) as L.
    pose proof (filter_length (fun o => Likes.id o =? Likes.id l) (Undo.likes st)) as T.
    lia.
Qed.

Lemma undo_like_touches_only_actor_witness :
  let ann := Resolver.mkAuthor "id-7" "http://node1/api/authors/7" "ann" "Ann" ""
               "http://node1/api/" "http://node1/authors/7" (Some "node1") in
  let mine := Likes.mkLike "166" "http://node1/api/authors/7/liked/166"
                "http://node1/api/authors/7" (Some "http://local/e/249") None in
  let other := Likes.mkLike "167" "http://node2/api/authors/8/liked/167"
                 "http://node2/api/authors/8" (Some "http://local/e/249") None in
  let st := Undo.mkStore [ann] [] [] [mine; other] in
  let r := Undo._process_unlike_activity st
             (Inbox.mkObjectDict (Some "like")
                (Some "http://node1/api/authors/7/liked/166")
                (Some "http://local/e/249")) ann in
  Undo.likes (snd r) = [other]
  /\ (forall x, In x (Undo.likes st) -> Likes.author x <> Resolver.a_url ann ->
                In x (Undo.likes (snd r))).
Proof.
  intros ann mine other st r. split; [reflexivity|].
  apply (undo_like_touches_only_actor st _ ann).
  cbn. repeat constructor; cbn; intuition discriminate.
Defined.

(** ** The fan-out, recipient by recipient *)

Section OutcomeFacts.
Import PyStr Resolver Fanout Outcomes.

Lemma send_fold net nodes entry (remote : list Author) : forall log0,
  fold_left
    (fun log remote_author =>
       match send_one net nodes entry remote_author with
       | Ok d => log ++ [d]
       | Raise _ => log ++ [Errored (request_for nodes entry remote_author)]
       end) remote log0
  = log0 ++ map (outcome net nodes entry) remote.
Proof.
  induction remote as [|a remote IH]; intros log0; cbn [fold_left map].
  - now rewrite app_nil_r.
  - rewrite IH. unfold send_one, outcome.
    destruct (net (request_for nodes entry a)) as [code|e]; cbn [bind];
      now rewrite <- app_assoc.
Qed.

Lemma send_outcomes net nodes authors entry :
  _send_to_remote_authors net nodes authors entry
  = map (outcome net nodes entry) (remote_authors authors).
Proof.
  unfold _send_to_remote_authors.
  destruct (remote_authors authors) as [|a l] eqn:R; [reflexivity|].
  cbn [List.length Nat.eqb]. now rewrite send_fold.
Qed.

Lemma rstrip_snoc (c : ascii) (s : str) : rstrip c (s ++ [c]) = rstrip c s.
Proof.
  induction s as [|x s IH]; cbn.
  - now rewrite Ascii.eqb_refl.
  - now rewrite IH.
Qed.

Lemma rstrip_no_tail (c : ascii) (s : str) :
  match List.rev (rstrip c s) with
  | x :: _ => Ascii.eqb x c = false
  | [] => True
  end.
Proof.
  induction s as [|x s IH]; cbn [rstrip]; [exact I|].
  destruct (rstrip c s) as [|y r] eqn:E.
  - destruct (Ascii.eqb x c) eqn:K; cbn; [exact I | exact K].
  - cbn [List.rev] in *. destruct (List.rev r ++ [y]) as [|z l] eqn:Z.
    + destruct (List.rev r); discriminate.
    + exact IH.
Qed.

Lemma send_targets net nodes authors entry :
  map target (_send_to_remote_authors net nodes authors entry)
  = map (fun a => (inbox_of a, auth_of nodes a)) (remote_authors authors).
Proof.
  rewrite send_outcomes, map_map. apply map_ext. intros a.
  unfold target, outcome.
  destruct (net (request_for nodes entry a)) as [code|x]; [|reflexivity].
  now destruct (existsb _ _).
Qed.

End OutcomeFacts.

(** X23.  The fan-out logs one outcome per remote author, in table
    order, each decided by the answer to its own POST alone: Sent when
    the POST answered 200, 201 or 202, Failed with the code otherwise,
    Errored when it raised; so a recipient's outcome is the same
    whatever happens with the others, and the authors without a node
    are never contacted. *)
Theorem fanout_outcomes
        (net : Fanout.Network) (nodes : string -> option Fanout.Node)
        (authors : list Resolver.Author) (entry : Entries.Entry) :
  Fanout._send_to_remote_authors net nodes authors entry
  = map (Outcomes.outcome net nodes entry) (Fanout.remote_authors authors)
  /\ (forall d, In d (Fanout._send_to_remote_authors net nodes authors entry) ->
        exists a, In a authors /\ Resolver.node a <> None
                  /\ d = Outcomes.outcome net nodes entry a)
  /\ (forall more,
        Fanout._send_to_remote_authors net nodes (authors ++ more) entry
        = Fanout._send_to_remote_authors net nodes authors entry
          ++ Fanout._send_to_remote_authors net nodes more entry).
Proof.
  split; [apply send_outcomes|]. split.
  - intros d Hd. rewrite send_outcomes in Hd. apply in_map_iff in Hd as [a [E Hin]].
    unfold Fanout.remote_authors in Hin. apply filter_In in Hin as [Hin Hn].
    exists a. split; [exact Hin|]. split; [|now symmetry].
    destruct (Resolver.node a); [discriminate | discriminate].
  - intros more. rewrite !send_outcomes. unfold Fanout.remote_authors.
    now rewrite filter_app, map_app.
Qed.

(** X24.  The fan-out does not look at the entry: whatever the
    visibility of the entry (FRIENDS, UNLISTED, DELETED, ...) and
    whoever follows its author, it is posted to the inbox of every
    remote author, with the same credentials, and each request
    carries the entry as it was given. *)
Theorem fanout_ignores_visibility
        (net net' : Fanout.Network) (nodes : string -> option Fanout.Node)
        (authors : list Resolver.Author) (entry : Entries.Entry) (v : string) :
  map Outcomes.target
      (Fanout._send_to_remote_authors net nodes authors entry)
  = map Outcomes.target
        (Fanout._send_to_remote_authors net' nodes authors
           (Fanout.with_visibility entry v))
  /\ map Outcomes.target (Fanout._send_to_remote_authors net nodes authors entry)
     = map (fun a => (Fanout.inbox_of a, Fanout.auth_of nodes a))
           (Fanout.remote_authors authors)
  /\ Forall (fun d => Fanout.body (Fanout.request_of d) = entry)
            (Fanout._send_to_remote_authors net nodes authors entry).
Proof.
  split; [now rewrite !send_targets|]. split; [apply send_targets|].
  rewrite send_outcomes. apply Forall_forall. intros d Hd.
  apply in_map_iff in Hd as [a [<- _]]. unfold Outcomes.outcome.
  destruct (net (Fanout.request_for nodes entry a)) as [code|x]; [|reflexivity].
  now destruct (existsb _ _).
Qed.

(** X25.  The inbox URL of a remote author does not depend on the
    trailing slashes of the author URL: it ends with /inbox/, what
    precedes does not end with a slash, and an author URL with one
    more slash at its end gives the same inbox URL. *)
Theorem inbox_url_ignores_trailing_slashes (a a' : Resolver.Author) :
  (exists s, Fanout.inbox_of a = (s ++ "/inbox/")%string
             /\ UrlCodec.endswith_slash (list_ascii_of_string s) = false)
  /\ (Resolver.a_url a' = (Resolver.a_url a ++ "/")%string ->
      Fanout.inbox_of a' = Fanout.inbox_of a).
Proof.
  split.
  - unfold Fanout.inbox_of. eexists. split; [reflexivity|].
    rewrite list_ascii_of_string_of_list_ascii. unfold UrlCodec.endswith_slash.
    pose proof (rstrip_no_tail "/" (list_ascii_of_string (Resolver.a_url a))) as H.
    destruct (List.rev _) as [|x l]; [reflexivity|].
    destruct (Ascii.eqb_spec x "/") as [->|N]; [discriminate|].
    destruct x as [[] [] [] [] [] [] [] []]; try reflexivity. now elim N.
  - intros E. unfold Fanout.inbox_of. rewrite E.
    assert (L : list_ascii_of_string (Resolver.a_url a ++ "/")
                = list_ascii_of_string (Resolver.a_url a) ++ ["/"%char]).
    { generalize (Resolver.a_url a). intros s.
      induction s as [|c s IH]; cbn; [reflexivity | now rewrite IH]. }
    now rewrite L, rstrip_snoc.
Qed.

Lemma inbox_url_ignores_trailing_slashes_witness :
  let ann := Resolver.mkAuthor "id-7" "http://node1/api/authors/7" "ann" "Ann" ""
               "http://node1/api/" "http://node1/authors/7" (Some "node1") in
  let ann' := Resolver.mkAuthor "id-7" "http://node1/api/authors/7/" "ann" "Ann" ""
                "http://node1/api/" "http://node1/authors/7" (Some "node1") in
  Fanout.inbox_of ann' = Fanout.inbox_of ann.
Proof.
  intros ann ann'.
  apply (proj2 (inbox_url_ignores_trailing_slashes ann ann')). reflexivity.
Defined.

(** ** The resolver and the remote authors *)

Section ResolverNodeFacts.
Import Resolver Fanout.

Lemma Author_update_or_create_cases cfg fresh t u d a' t' :
  NoDup (map a_id t) -> u <> "" ->
  Author_update_or_create cfg fresh t u d = Ok (a', t') ->
  (node a' = None /\ a_url a' = u /\ t' = a' :: t
   /\ filter (fun o => a_url o =? u) t = [])
  \/ (exists a, In a t /\ a_url a = u /\ a_url a' = u /\ node a' = node a
                /\ a_id a' = a_id a
                /\ t' = map (fun o => if a_id o =? a_id a then a' else o) t).
Proof.
  intros N Hu. unfold Author_update_or_create.
  destruct (filter (fun o => a_url o =? u) t) as [|a [|b l]] eqn:F; [| |discriminate].
  - unfold Author_save. cbn [a_id andb].
    destruct (existsb (fun o => a_id o =? fresh) t) eqn:Ex; [discriminate|].
    cbn [andb].
    destruct (author_conflict _ _); [discriminate|].
    destruct (author_conflict _ _); [discriminate|].
    intros H. injection H as <- <-. left.
    match goal with
    | |- context [generated cfg ?x] =>
        destruct (generated_fields cfg x) as [_ [_ [_ [_ [Gn [Gu _]]]]]]
    end.
    cbn [node a_url] in Gn, Gu. auto.
  - assert (Ha : In a (filter (fun o => a_url o =? u) t)) by (rewrite F; now left).
    apply filter_In in Ha as [Hin Ha]. apply String.eqb_eq in Ha.
    unfold Author_save. cbn [andb].
    destruct (author_conflict _ _); [discriminate|].
    destruct (author_conflict _ _); [discriminate|].
    assert (Ex : existsb (fun o => a_id o =? a_id (author_with_defaults a d)) t = true).
    { apply existsb_exists. exists a. split; [exact Hin|]. cbn. apply String.eqb_refl. }
    rewrite Ex. intros H. injection H as <- <-. right. exists a.
    destruct (generated_fields cfg (author_with_defaults a d))
      as [Gi [_ [_ [_ [Gn [Gu _]]]]]].
    cbn [node a_url a_id author_with_defaults] in Gn, Gu, Gi.
    rewrite Gu by congruence. repeat split; auto.
Qed.

Lemma Author_get_In t u a : Author_get t u = Ok a -> In a t.
Proof.
  unfold Author_get. destruct (filter _ t) as [|x [|y l]] eqn:F; try discriminate.
  intros H. injection H as <-.
  assert (Hx : In x (filter (fun o => a_url o =? u) t)) by (rewrite F; now left).
  now apply filter_In in Hx.
Qed.

Lemma remote_replace (g : Author -> Author) (t : list Author) :
  (forall o, In o t -> a_url (g o) = a_url o /\ node (g o) = node o) ->
  map (fun a => (a_url a, node a)) (remote_authors (map g t))
  = map (fun a => (a_url a, node a)) (remote_authors t).
Proof.
  unfold remote_authors. induction t as [|o t IH]; intros H; [reflexivity|].
  cbn [map filter]. destruct (H o (or_introl eq_refl)) as [Hu Hn].
  pose proof (IH (fun x Hx => H x (or_intror Hx))) as IH'.
  rewrite Hn. destruct (node o) eqn:No; cbn [map]; rewrite IH'; [|reflexivity].
  f_equal. congruence.
Qed.

(** What a resolution does to the table, as far as the remote
    authors go. *)
Lemma resolve_author_nodes cfg fresh t d r t' :
  authors_unique t ->
  _get_or_create_author_from_activity cfg fresh t d = Ok (r, t') ->
  map (fun a => (a_url a, node a)) (remote_authors t')
  = map (fun a => (a_url a, node a)) (remote_authors t)
  /\ forall a, r = Some a -> ~ In (a_url a) (map a_url t) ->
               node a = None /\ In a t'.
Proof.
  intros [Ni _]. unfold _get_or_create_author_from_activity.
  destruct (ad_id d) as [[|c0 au0]|] eqn:Ea;
    try (intros H; injection H as <- <-; split; [reflexivity | discriminate]).
  set (au := String c0 au0) in *.
  destruct (UrlUtils.normalize_author_url au) as [u|e] eqn:Nu; [|discriminate].
  cbn [bind].
  assert (Hu : u <> "") by (apply (normalize_nonempty au); [exact Nu | discriminate]).
  destruct (Author_update_or_create cfg fresh t u (author_defaults d))
    as [[a' t1]|e] eqn:U.
  - intros H. injection H as <- <-.
    apply Author_update_or_create_cases in U as [[Gn [Gu [-> F]]]|[a [Hin [Ha [Gu [Gn [Gi ->]]]]]]];
      auto.
    + split.
      * unfold remote_authors. cbn [filter]. now rewrite Gn.
      * intros a E _. injection E as <-. split; [exact Gn | now left].
    + split.
      * apply remote_replace. intros o Ho.
        destruct (String.eqb_spec (a_id o) (a_id a)) as [E|]; [|auto].
        assert (o = a) by (apply (NoDup_key_eq a_id t); auto). subst o.
        split; congruence.
      * intros x E Hx. injection E as <-. exfalso. apply Hx.
        rewrite Gu, <- Ha. now apply in_map.
  - assert (Fallback : forall a, In a t ->
              (map (fun a => (a_url a, node a)) (remote_authors t)
               = map (fun a => (a_url a, node a)) (remote_authors t))
              /\ forall x, Some a = Some x -> ~ In (a_url x) (map a_url t) ->
                           node x = None /\ In x t).
    { intros a Hin. split; [reflexivity|]. intros x E Hx. injection E as <-.
      exfalso. apply Hx. now apply in_map. }
    destruct (Author_get t u) as [a|[]] eqn:G1; try discriminate.
    + intros H. injection H as <- <-. apply Fallback. now apply Author_get_In in G1.
    + destruct (Author_get t au) as [a|[]] eqn:G2; try discriminate.
      * intros H. injection H as <- <-. apply Fallback. now apply Author_get_In in G2.
      * intros H. injection H as <- <-. split; [reflexivity | discriminate].
Qed.

End ResolverNodeFacts.

(** X26.  Resolving an author never changes where entries are
    fanned out: an author the resolver creates is stored without a
    node, so it counts as local and is not a fan-out recipient, and an
    update keeps the URL and the node of the row; after any
    resolution the remote authors, their inbox URLs and credentials
    are as before. *)
Theorem resolver_keeps_fanout_targets
        (cfg : Resolver.Settings) (fresh : string) (t t' : list Resolver.Author)
        (d : Resolver.AuthorData) (r : option Resolver.Author) :
  Resolver.authors_unique t ->
  Resolver._get_or_create_author_from_activity cfg fresh t d = Ok (r, t') ->
  map Resolver.a_url (Fanout.remote_authors t')
  = map Resolver.a_url (Fanout.remote_authors t)
  /\ (forall net nodes entry,
        map Outcomes.target (Fanout._send_to_remote_authors net nodes t' entry)
        = map Outcomes.target (Fanout._send_to_remote_authors net nodes t entry))
  /\ (forall a, r = Some a -> ~ In (Resolver.a_url a) (map Resolver.a_url t) ->
                Resolver.node a = None /\ In a t'
                /\ ~ In a (Fanout.remote_authors t')).
Proof.
  intros U H. destruct (resolve_author_nodes cfg fresh t d r t' U H) as [M N].
  assert (K : forall (f : string * option string -> string * option (string * string))
                     (g : Resolver.Author -> string * option (string * string)),
             (forall a, g a = f (Resolver.a_url a, Resolver.node a)) ->
             map g (Fanout.remote_authors t') = map g (Fanout.remote_authors t)).
  { intros f g Hg.
    rewrite !(map_ext g (fun a => f (Resolver.a_url a, Resolver.node a)) Hg).
    transitivity (map f (map (fun a => (Resolver.a_url a, Resolver.node a))
                             (Fanout.remote_authors t'))); [now rewrite map_map|].
    rewrite M. now rewrite map_map. }
  split; [|split].
  - transitivity (map fst (map (fun a => (Resolver.a_url a, Resolver.node a))
                                (Fanout.remote_authors t'))); [now rewrite map_map|].
    rewrite M. now rewrite map_map.
  - intros net nodes entry. rewrite !send_targets.
    apply (K (fun p =>
                (Fanout.inbox_of (Resolver.mkAuthor "" (fst p) "" "" "" "" "" (snd p)),
                 Fanout.auth_of nodes
                   (Resolver.mkAuthor "" (fst p) "" "" "" "" "" (snd p))))).
    intros a. reflexivity.
  - intros a E Hx. destruct (N a E Hx) as [Hn Hin]. split; [exact Hn|].
    split; [exact Hin|]. intros C. unfold Fanout.remote_authors in C.
    apply filter_In in C as [_ C]. rewrite Hn in C. discriminate.
Qed.

Lemma resolver_keeps_fanout_targets_witness :
  let cfg := Resolver.mkSettings "http://local" "http://local" in
  let ann := Resolver.mkAuthor "id-7" "http://node1/api/authors/7" "ann" "Ann" ""
               "http://node1/api/" "http://node1/authors/7" (Some "node1") in
  let d := Resolver.mkAuthorData (Some "http://node2/api/authors/8/")
             (Some "Cat") None (Some "http://node2/api/") None in
  exists cat t',
    Resolver._get_or_create_author_from_activity cfg "id-8" [ann] d = Ok (Some cat, t')
    /\ Resolver.node cat = None
    /\ map Resolver.a_url (Fanout.remote_authors t') = ["http://node1/api/authors/7"].
Proof.
  intros cfg ann d.
  destruct (Resolver._get_or_create_author_from_activity cfg "id-8" [ann] d)
    as [[[cat|] t']|e] eqn:E; try discriminate.
  exists cat, t'. split; [reflexivity|].
  assert (U : Resolver.authors_unique [ann]).
  { repeat split; repeat constructor; cbn; intuition. }
  destruct (resolver_keeps_fanout_targets cfg "id-8" [ann] t' d (Some cat) U E)
    as [M [_ L]].
  split.
  - apply (L cat eq_refl). vm_compute in E. injection E as <- _.
    cbn. intros [C|[]]. discriminate.
  - exact M.
Defined.

(** ** The home feed *)

(** X27.  The home feed shows nothing the listing hides: in every
    state reached from the empty tables, an entry of the feed whose
    visibility is PUBLIC, UNLISTED or FRIENDS is also returned by
    visible_to_author for the user, because the authors of the feed
    (mutual ACCEPTED followers) are friends in the Friendship table. *)
Theorem feed_is_listed
        (ms : list Models.Mutation) (entries : list Entries.Entry)
        (user : string) (e : Entries.Entry) :
  In e (Feed.feed_entries (Models.run ms Models.empty_db) entries user) ->
  Entries.visibility e = Entries.PUBLIC
  \/ Entries.visibility e = Entries.UNLISTED
  \/ Entries.visibility e = Entries.FRIENDS_ONLY ->
  In e (Entries.visible_to_author (Models.run ms Models.empty_db) entries (Some user)).
Proof.
  set (db := Models.run ms Models.empty_db).
  intros H V. unfold Feed.feed_entries in H. apply filter_In in H as [Hin H].
  apply andb_prop in H as [H Hd]. apply andb_prop in H as [H1 H2].
  apply visible_In. split; [exact Hin|].
  unfold Entries.visible_row. rewrite Hd, andb_true_r.
  destruct (String.eqb_spec (Entries.author e) user) as [Ea|Na].
  - destruct V as [V|[V|V]]; rewrite V; cbn; now rewrite ?orb_true_r.
  - assert (F : Entries.friendship_exists db user e = true).
    { unfold Entries.friendship_exists.
      apply (run_complete ms Models.empty_db); auto. }
    rewrite F. destruct V as [V|[V|V]]; rewrite V; cbn; now rewrite ?orb_true_r.
Qed.

Lemma feed_is_listed_witness :
  let ms := [Models.Create (Models.mkFollow "a" "b" Models.ACCEPTED);
             Models.Create (Models.mkFollow "b" "a" Models.ACCEPTED)] in
  let e := Entries.mkEntry "2" "http://n/e/2" "b" "t" "" "c" "text/plain"
                           Entries.FRIENDS_ONLY "" "" "" None in
  In e (Entries.visible_to_author (Models.run ms Models.empty_db) [e] (Some "a")).
Proof.
  intros ms e. apply feed_is_listed; [cbn; now left | now right; right].
Defined.

(** ** The keys of the like table *)

Section LikeKeyFacts.
Import Likes.

Local Abbreviation keyed t :=
  (NoDup (map id t) /\ NoDup (map url t) /\ Forall (fun l => url l <> "") t).

Lemma append_nonempty (a b : string) : b <> "" -> (a ++ b)%string <> "".
Proof. destruct a; cbn; [auto | discriminate]. Qed.

Lemma with_url_nonempty S aid l : url (with_url S aid l) <> "".
Proof.
  unfold with_url. destruct (String.eqb_spec (url l) "") as [E|N]; [|exact N].
  cbn [url]. apply append_nonempty. discriminate.
Qed.

Lemma save_keyed S t adding aid l t' :
  keyed t -> save S t adding aid l = Ok t' -> keyed t'.
Proof.
  intros [Ni [Nu Fe]]. unfold save.
  set (l' := with_url S aid l).
  set (others := filter (fun o => negb (id o =? id l')) t).
  unfold constraint_violated.
  destruct (negb (like_has_target l')); [discriminate|].
  destruct (negb (like_single_target l')); [discriminate|].
  destruct (existsb (fun o => url o =? url l') others) eqn:Eu; [discriminate|].
  destruct (existsb (same_author_entry l') others); [discriminate|].
  destruct (existsb (same_author_comment l') others); [discriminate|].
  assert (Hu : forall o, In o t -> id o <> id l' -> url o <> url l').
  { intros o Hin Hne E.
    assert (C : existsb (fun o => url o =? url l') others = true).
    { apply existsb_exists. exists o. split; [|now apply String.eqb_eq].
      apply filter_In. split; [exact Hin|].
      now destruct (String.eqb_spec (id o) (id l')). }
    congruence. }
  destruct (existsb (fun o => id o =? id l') t) eqn:Ei.
  - destruct adding; [discriminate|]. intros H. injection H as <-.
    split; [|split].
    + rewrite replace_ids by reflexivity. exact Ni.
    + apply replace_NoDup; auto.
    + apply Forall_forall. intros x Hx. apply in_map_iff in Hx as [o [<- Ho]].
      destruct (id o =? id l'); [apply with_url_nonempty|].
      rewrite Forall_forall in Fe. now apply Fe.
  - intros H. injection H as <-. cbn [map].
    assert (Ai : ~ In (id l') (map id t)) by now apply key_absent_not_in.
    split; [|split].
    + now constructor.
    + constructor; [|exact Nu]. intros C. apply in_map_iff in C as [o [E Ho]].
      apply (Hu o Ho); [|exact E]. intros E'. apply Ai. rewrite <- E'. now apply in_map.
    + constructor; [apply with_url_nonempty | exact Fe].
Qed.

End LikeKeyFacts.

(** X28.  Every stored like has its own id and its own, non-empty
    URL: in every Like table reached from the empty one by saves and
    deletes, the ids are pairwise distinct, the URLs are pairwise
    distinct, and no URL is empty (a like saved without one gets the
    URL generated from the author and the like id). *)
Theorem like_keys_unique (SITE_URL : string) (ws : list Likes.LikeOp) :
  let table := Likes.run SITE_URL ws [] in
  NoDup (map Likes.id table)
  /\ NoDup (map Likes.url table)
  /\ Forall (fun l => Likes.url l <> "") table.
Proof.
  cbn zeta.
  assert (G : forall ws t,
             NoDup (map Likes.id t) /\ NoDup (map Likes.url t)
             /\ Forall (fun l => Likes.url l <> "") t ->
             NoDup (map Likes.id (Likes.run SITE_URL ws t))
             /\ NoDup (map Likes.url (Likes.run SITE_URL ws t))
             /\ Forall (fun l => Likes.url l <> "") (Likes.run SITE_URL ws t)).
  { clear ws. unfold Likes.run.
    induction ws as [|w ws IH]; intros t I; cbn [fold_left]; [exact I|].
    apply IH. destruct w as [adding aid l|i]; cbn [Likes.apply].
    - destruct (Likes.save SITE_URL t adding aid l) as [t'|e] eqn:S; [|exact I].
      now apply (save_keyed SITE_URL t adding aid l).
    - destruct I as [Ni [Nu Fe]]. unfold Likes.delete. split; [|split].
      + now apply NoDup_map_filter.
      + now apply NoDup_map_filter.
      + apply Forall_forall. intros x Hx. apply filter_In in Hx as [Hx _].
        rewrite Forall_forall in Fe. now apply Fe. }
  apply G. repeat split; constructor.
Qed.
